(** * ApplyOS: the Greenhouse job-board scraper

    A shallow embedding of [scrapers/greenhouse-scraper] (the class
    [GreenhouseScraper], [parseGreenhouseUrl] and [createScraperFromUrl]),
    of [scrapeCompany] of [main.ts], and of the parts of the JavaScript runtime it calls: strings of UTF-16 code
    units, JSON values with [?.] and [||], [RegExp] compilation and
    backtracking matching, [String.prototype.replace/match/trim/includes].

    Failure is explicit: a function that can throw returns a [result].
    The transport ([axios.get]) and the clock are arguments of the
    functions that use them; console output is left out.

    The runtime is modelled exactly on the constructs the program uses,
    with two limits that are stated where they apply: numbers are integers,
    and letter case is mapped on Basic Latin only.  The patterns of the
    program that carry the [i] flag consist of Basic Latin characters, which
    no other code unit matches under that flag, so the URL results hold for
    every string.

    Layout: the runtime model, the program, the reference functions,
    then the lemmas about the runtime and the theorems about the program. *)

From Stdlib Require Import Ascii String DecimalString.
From Stdlib Require Import List NArith ZArith Lia Bool.
Import ListNotations.

Set Implicit Arguments.
Set Warnings "-register-all".

(* ================================================================== *)
(** ** Strings, values and exceptions of the runtime *)
(* ================================================================== *)

(** A JavaScript string is a sequence of UTF-16 code units. *)
Definition jsstring := list N.

(** Code unit of an ASCII character, and the string of an ASCII literal. *)
Definition ch (a : ascii) : N := N_of_ascii a.
Definition js (s : string) : jsstring := map N_of_ascii (list_ascii_of_string s).

(** The double quote, U+0022, and the backslash, U+005C. *)
Definition dquote : N := 34%N.
Definition backslash : N := 92%N.

Fixpoint str_eqb (a b : jsstring) : bool :=
  match a, b with
  | [], [] => true
  | x :: a', y :: b' => N.eqb x y && str_eqb a' b'
  | _, _ => false
  end.

(** Values that reach the program from a JSON body, plus [undefined].
    Numbers are the integers (identifiers, HTTP status codes); an object is
    the list of its own properties, in insertion order. *)
Inductive jsval :=
| JUndefined
| JNull
| JBool (b : bool)
| JNumber (n : Z)
| JString (s : jsstring)
| JArray (elems : list jsval)
| JObject (props : list (jsstring * jsval)).

(** What a [throw] carries. *)
Inductive thrown :=
| TypeError                          (* raised by the runtime *)
| SyntaxError                        (* raised by the RegExp constructor *)
| Unmodelled                         (* pattern syntax this development does not cover *)
| UserError (message : jsstring)     (* [new Error(message)] *)
| Rejection (reason : jsval).        (* the value a promise was rejected with *)

Inductive result (A : Type) :=
| Ok (a : A)
| Throw (e : thrown).
Arguments Ok {A} a.
Arguments Throw {A} e.

Definition bind {A B} (r : result A) (k : A -> result B) : result B :=
  match r with
  | Ok a => k a
  | Throw e => Throw e
  end.

Notation "x <- c ;; k" := (bind c (fun x => k))
  (at level 61, c at next level, right associativity).

Definition is_ok {A} (r : result A) : bool :=
  match r with Ok _ => true | Throw _ => false end.

(** [xs.map(f)] where [f] may throw: elements are visited in order and the
    first exception aborts the traversal. *)
Fixpoint mapM {A B} (f : A -> result B) (l : list A) : result (list B) :=
  match l with
  | [] => Ok []
  | x :: l' => y <- f x ;; ys <- mapM f l' ;; Ok (y :: ys)
  end.

(** The same with the position of the element. *)
Fixpoint mapMi {A B} (f : nat -> A -> result B) (i : nat) (l : list A)
  : result (list B) :=
  match l with
  | [] => Ok []
  | x :: l' => y <- f i x ;; ys <- mapMi f (S i) l' ;; Ok (y :: ys)
  end.

(** [xs.filter(f)] where [f] may throw. *)
Fixpoint filterM {A} (f : A -> result bool) (l : list A) : result (list A) :=
  match l with
  | [] => Ok []
  | x :: l' =>
      b <- f x ;; ys <- filterM f l' ;; Ok (if b then x :: ys else ys)
  end.

(** *** Property access *)

Fixpoint lookup (k : jsstring) (props : list (jsstring * jsval)) : jsval :=
  match props with
  | [] => JUndefined
  | (k', v) :: rest => if str_eqb k k' then v else lookup k rest
  end.

Definition has_own (k : jsstring) (props : list (jsstring * jsval)) : bool :=
  existsb (fun kv => str_eqb k (fst kv)) props.

Definition nullish (v : jsval) : bool :=
  match v with
  | JUndefined | JNull => true
  | _ => false
  end.

(** [v.k], for the property names this program reads (none of them is a
    property of a primitive or of an array): reading from [undefined] or
    [null] throws, reading a missing property gives [undefined]. *)
Definition get (v : jsval) (k : jsstring) : result jsval :=
  match v with
  | JUndefined | JNull => Throw TypeError
  | JObject props => Ok (lookup k props)
  | _ => Ok JUndefined
  end.

(** [v?.k] *)
Definition optGet (v : jsval) (k : jsstring) : jsval :=
  match v with
  | JObject props => lookup k props
  | _ => JUndefined
  end.

(** ToBoolean. *)
Definition truthy (v : jsval) : bool :=
  match v with
  | JUndefined | JNull => false
  | JBool b => b
  | JNumber n => negb (n =? 0)%Z
  | JString s => match s with [] => false | _ => true end
  | JArray _ | JObject _ => true
  end.

(** [a || b] *)
Definition or_else (a b : jsval) : jsval := if truthy a then a else b.

(** [a === b] against a number literal. *)
Definition strict_eq_number (a : jsval) (n : Z) : bool :=
  match a with
  | JNumber m => (m =? n)%Z
  | _ => false
  end.

(** *** Conversion to string *)

(** Number::toString for an integer (decimal notation; the runtime switches
    to exponent notation from 10^21 on, far above any identifier). *)
Definition number_toString (n : Z) : jsstring :=
  js (NilZero.string_of_int (Z.to_int n)).

Fixpoint intercalate (sep : jsstring) (parts : list jsstring) : jsstring :=
  match parts with
  | [] => []
  | [p] => p
  | p :: rest => p ++ sep ++ intercalate sep rest
  end.

(** ToString, and [Array.prototype.join] which calls it on every element
    that is neither [undefined] nor [null].  A plain object prints as
    [[object Object]] unless it has an own [toString] property, which a JSON
    value cannot make callable. *)
Fixpoint ToString (v : jsval) : result jsstring :=
  match v with
  | JUndefined => Ok (js "undefined")
  | JNull => Ok (js "null")
  | JBool b => Ok (js (if b then "true" else "false"))
  | JNumber n => Ok (number_toString n)
  | JString s => Ok s
  | JArray elems =>
      parts <- (fix each (l : list jsval) : result (list jsstring) :=
                  match l with
                  | [] => Ok []
                  | x :: l' =>
                      p <- (if nullish x then Ok [] else ToString x) ;;
                      ps <- each l' ;; Ok (p :: ps)
                  end) elems ;;
      Ok (intercalate [ch ","] parts)
  | JObject props =>
      if has_own (js "toString") props then Throw TypeError
      else Ok (js "[object Object]")
  end.

(** [v.join(sep)]: only arrays have the method. *)
Definition join (v : jsval) (sep : jsstring) : result jsstring :=
  match v with
  | JArray elems =>
      parts <- mapM (fun x => if nullish x then Ok [] else ToString x) elems ;;
      Ok (intercalate sep parts)
  | _ => Throw TypeError
  end.

(** [v?.toString()] *)
Definition optToString (v : jsval) : result jsval :=
  if nullish v then Ok JUndefined else s <- ToString v ;; Ok (JString s).

(** *** Character classes of the runtime *)

Definition in_range (lo hi c : N) : bool := (lo <=? c)%N && (c <=? hi)%N.

(** WhiteSpace and LineTerminator: the code units matched by [\s] and
    removed by [trim]. *)
Definition is_space (c : N) : bool :=
  in_range 9 13 c || N.eqb c 32 || N.eqb c 160 || N.eqb c 5760
  || in_range 8192 8202 c || N.eqb c 8232 || N.eqb c 8233 || N.eqb c 8239
  || N.eqb c 8287 || N.eqb c 12288 || N.eqb c 65279.

Definition is_line_terminator (c : N) : bool :=
  N.eqb c 10 || N.eqb c 13 || N.eqb c 8232 || N.eqb c 8233.

Definition is_digit (c : N) : bool := in_range 48 57 c.

(** [\w], which also decides [\b]. *)
Definition is_word (c : N) : bool :=
  in_range 97 122 c || in_range 65 90 c || is_digit c || N.eqb c 95.

(** Case mapping.  The Unicode tables are not part of this development:
    the mappings are exact on Basic Latin and leave every other code unit
    alone. *)
Definition to_upper (c : N) : N := if in_range 97 122 c then (c - 32)%N else c.
Definition to_lower (c : N) : N := if in_range 65 90 c then (c + 32)%N else c.

Definition toLowerCase (s : jsstring) : jsstring := map to_lower s.

(** *** String methods *)

Fixpoint starts_with (p s : jsstring) : bool :=
  match p, s with
  | [], _ => true
  | x :: p', y :: s' => N.eqb x y && starts_with p' s'
  | _ :: _, [] => false
  end.

(** [s.includes(p)] *)
Fixpoint includes (s p : jsstring) : bool :=
  starts_with p s ||
  match s with
  | [] => false
  | _ :: s' => includes s' p
  end.

Fixpoint drop_spaces (s : jsstring) : jsstring :=
  match s with
  | [] => []
  | c :: s' => if is_space c then drop_spaces s' else s
  end.

(** [s.trim()] *)
Definition trim (s : jsstring) : jsstring :=
  rev (drop_spaces (rev (drop_spaces s))).

(* ================================================================== *)
(** ** Regular expressions of the runtime *)
(* ================================================================== *)

Inductive esc_class := EDigit | EWord | ESpace.

Inductive class_item :=
| CChar (c : N)
| CRange (lo hi : N)
| CEsc (k : esc_class) (negated : bool).

(** Abstract syntax of a pattern.  Sequences and alternations associate to
    the right; a sequence ends in [Empty]. *)
Inductive regex :=
| Empty
| Char (c : N)
| AnyChar
| Class (negated : bool) (items : list class_item)
| Seq (a b : regex)
| Alt (a b : regex)
| Star (greedy : bool) (r : regex)
| Plus (greedy : bool) (r : regex)
| Opt (greedy : bool) (r : regex)
| Group (idx : nat) (r : regex)
| Bol
| Eol
| WordB
| NotWordB.

Definition seq_of (terms : list regex) : regex := fold_right Seq Empty terms.

Fixpoint alt_of (alts : list regex) : regex :=
  match alts with
  | [] => Empty
  | [a] => a
  | a :: rest => Alt a (alt_of rest)
  end.

(** *** Matching *)

(** A position in the subject: the code units before it (nearest first),
    the code units after it, and the captures recorded so far. *)
Record mstate := MState {
  before : jsstring;
  after : jsstring;
  caps : list (nat * jsstring)
}.

(** Canonicalize of the specification, with and without the [i] flag. *)
Definition canon (ic : bool) (c : N) : N := if ic then to_upper c else c.

Definition esc_has (k : esc_class) (c : N) : bool :=
  match k with
  | EDigit => is_digit c
  | EWord => is_word c
  | ESpace => is_space c
  end.

Definition item_has (it : class_item) (c : N) : bool :=
  match it with
  | CChar a => N.eqb a c
  | CRange lo hi => in_range lo hi c
  | CEsc k negated => xorb negated (esc_has k c)
  end.

(** Under [i] a class contains [c] when it contains a code unit with the
    canonical form of [c], that is [c] or its other case. *)
Definition item_matches (ic : bool) (it : class_item) (c : N) : bool :=
  item_has it c
  || (ic && (item_has it (to_upper c) || item_has it (to_lower c))).

Definition class_matches (ic negated : bool) (items : list class_item) (c : N)
  : bool :=
  xorb negated (existsb (fun it => item_matches ic it c) items).

Definition char_matches (ic : bool) (c x : N) : bool :=
  N.eqb (canon ic x) (canon ic c).

(** Consume one code unit if it satisfies [p]. *)
Definition step_if (p : N -> bool) (st : mstate) : list mstate :=
  match after st with
  | x :: rest =>
      if p x then [MState (x :: before st) rest (caps st)] else []
  | [] => []
  end.

Definition word_before (st : mstate) : bool :=
  match before st with x :: _ => is_word x | [] => false end.
Definition word_after (st : mstate) : bool :=
  match after st with x :: _ => is_word x | [] => false end.
Definition at_boundary (st : mstate) : bool :=
  xorb (word_before st) (word_after st).

Definition progress (st st' : mstate) : bool :=
  length (after st') <? length (after st).

(** The text consumed between two positions of one run. *)
Definition consumed (st st' : mstate) : jsstring :=
  rev (firstn (length (before st') - length (before st)) (before st')).

Definition set_cap (idx : nat) (st st' : mstate) : mstate :=
  MState (before st') (after st')
         ((idx, consumed st st') :: filter (fun kv => negb (Nat.eqb (fst kv) idx)) (caps st')).

(** Iteration of [r*]: the ends reachable by further iterations, in the
    order the backtracking matcher tries them.  An iteration that consumes
    nothing is rejected, as in RepeatMatcher. *)
Fixpoint star_loop (step : mstate -> list mstate) (greedy : bool)
         (fuel : nat) (st : mstate) : list mstate :=
  match fuel with
  | 0 => [st]
  | S n =>
      let more :=
        flat_map (fun st' =>
                    if progress st st' then star_loop step greedy n st' else [])
                 (step st) in
      if greedy then more ++ [st] else st :: more
  end.

(** [m ic r st]: every way [r] matches at [st], as the list of end
    positions in the priority order of the backtracking semantics
    (ECMA-262, 22.2.2).  Captures inside a quantified group are not reset
    between iterations; the program has no capture under a quantifier. *)
Fixpoint m (ic : bool) (r : regex) (st : mstate) {struct r} : list mstate :=
  match r with
  | Empty => [st]
  | Char c => step_if (char_matches ic c) st
  | AnyChar => step_if (fun x => negb (is_line_terminator x)) st
  | Class negated items => step_if (class_matches ic negated items) st
  | Seq a b => flat_map (m ic b) (m ic a st)
  | Alt a b => m ic a st ++ m ic b st
  | Star greedy r' => star_loop (m ic r') greedy (S (length (after st))) st
  | Plus greedy r' =>
      flat_map (star_loop (m ic r') greedy (S (length (after st)))) (m ic r' st)
  | Opt greedy r' =>
      let some := filter (progress st) (m ic r' st) in
      if greedy then some ++ [st] else st :: some
  | Group idx r' => map (set_cap idx st) (m ic r' st)
  | Bol => match before st with [] => [st] | _ => [] end
  | Eol => match after st with [] => [st] | _ => [] end
  | WordB => if at_boundary st then [st] else []
  | NotWordB => if at_boundary st then [] else [st]
  end.

(** A compiled RegExp object: its pattern and its [i] and [g] flags. *)
Record RegExp := MkRegExp {
  pattern : regex;
  ignoreCase : bool;
  global : bool
}.

Definition match_at (re : RegExp) (pre s : jsstring) : option mstate :=
  match m (ignoreCase re) (pattern re) (MState pre s []) with
  | st :: _ => Some st
  | [] => None
  end.

(** RegExpBuiltinExec without [g]: the leftmost start position at which
    the pattern matches, with the first match found there.  [pre] is the
    text already passed, nearest first. *)
Fixpoint search (re : RegExp) (pre s : jsstring) : option (jsstring * mstate) :=
  match match_at re pre s with
  | Some st => Some (pre, st)
  | None =>
      match s with
      | [] => None
      | c :: s' => search re (c :: pre) s'
      end
  end.

(** [re.test(s)] *)
Definition test (re : RegExp) (s : jsstring) : bool :=
  match search re [] s with Some _ => true | None => false end.

(** [s.match(re)] for a RegExp without [g]: [null], or the array of the
    matched text and the captures. *)
Record MatchArray := MkMatch {
  matched : jsstring;
  groups : list (nat * jsstring)
}.

Definition str_match (s : jsstring) (re : RegExp) : option MatchArray :=
  match search re [] s with
  | Some (pre, st) =>
      Some (MkMatch (consumed (MState pre s []) st) (caps st))
  | None => None
  end.

Fixpoint find_cap (k : nat) (l : list (nat * jsstring)) : jsval :=
  match l with
  | [] => JUndefined
  | (k', v) :: rest => if Nat.eqb k' k then JString v else find_cap k rest
  end.

(** [match[k]] for [k >= 1] *)
Definition capture (k : nat) (a : MatchArray) : jsval := find_cap k (groups a).

(** GetSubstitution for the replacement patterns [$$] and [$&]; the
    program uses no other. *)
Fixpoint expand (template matched_text : jsstring) : jsstring :=
  match template with
  | [] => []
  | c :: rest =>
      if N.eqb c (ch "$") then
        match rest with
        | d :: rest' =>
            if N.eqb d (ch "$") then ch "$" :: expand rest' matched_text
            else if N.eqb d (ch "&") then matched_text ++ expand rest' matched_text
            else c :: expand rest matched_text
        | [] => [c]
        end
      else c :: expand rest matched_text
  end.

(** [s.replace(re, template)] with [g]: matches are taken
    left to right, each search starting where the previous match ended (one
    code unit further after an empty match).  [skip] counts the code units
    of the current match still to be dropped. *)
Fixpoint replace_from (re : RegExp) (template : jsstring)
         (pre s : jsstring) (skip : nat) {struct s} : jsstring :=
  match skip with
  | S k =>
      match s with
      | [] => []
      | c :: s' => replace_from re template (c :: pre) s' k
      end
  | 0 =>
      match match_at re pre s with
      | Some st =>
          let len := length (before st) - length pre in
          expand template (firstn len s) ++
          match s with
          | [] => []
          | c :: s' =>
              match len with
              | 0 => c :: replace_from re template (c :: pre) s' 0
              | S k => replace_from re template (c :: pre) s' k
              end
          end
      | None =>
          match s with
          | [] => []
          | c :: s' => c :: replace_from re template (c :: pre) s' 0
          end
      end
  end.

(** [s.replace(re, template)]: every match with [g], the first one
    without. *)
Definition replace (s : jsstring) (re : RegExp) (template : jsstring)
  : jsstring :=
  if global re then replace_from re template [] s 0
  else
    match search re [] s with
    | Some (pre, st) =>
        let len := length (before st) - length pre in
        let tail := skipn (length pre) s in
        rev pre ++ expand template (firstn len tail) ++ skipn len tail
    | None => s
    end.

(** *** Compilation of a pattern text *)

(** A group being parsed: its capture index (0 for the whole pattern and
    for [(?:...)]), the alternatives finished so far and the terms of the
    current alternative, both last first, and whether the last term may
    take a quantifier. *)
Record frame := Frame {
  f_idx : nat;
  f_alts : list regex;
  f_terms : list regex;
  f_quant : bool
}.

Definition new_frame (idx : nat) : frame := Frame idx [] [] false.

Definition push_term (fr : frame) (t : regex) (quantifiable : bool) : frame :=
  Frame (f_idx fr) (f_alts fr) (t :: f_terms fr) quantifiable.

Definition next_alt (fr : frame) : frame :=
  Frame (f_idx fr) (seq_of (rev (f_terms fr)) :: f_alts fr) [] false.

Definition finish (fr : frame) : regex :=
  alt_of (rev (seq_of (rev (f_terms fr)) :: f_alts fr)).

Definition close_group (fr : frame) : regex :=
  match f_idx fr with
  | 0 => finish fr
  | S _ => Group (f_idx fr) (finish fr)
  end.

Definition quantify (q : N) (greedy : bool) (fr : frame) : frame :=
  match f_terms fr with
  | t :: terms =>
      let t' := if N.eqb q (ch "*") then Star greedy t
                else if N.eqb q (ch "+") then Plus greedy t
                else Opt greedy t in
      Frame (f_idx fr) (f_alts fr) (t' :: terms) false
  | [] => fr
  end.

Inductive escape :=
| EscAssert (r : regex)
| EscAtom (r : regex)
| EscUnsupported.

Definition one_of (s : string) (c : N) : bool := existsb (N.eqb c) (js s).

(** AtomEscape outside a class (Annex B, no [u] flag).  Back-references
    and the numeric, control-letter, hexadecimal and Unicode escapes are not
    covered. *)
Definition atom_escape (d : N) : escape :=
  if N.eqb d (ch "b") then EscAssert WordB
  else if N.eqb d (ch "B") then EscAssert NotWordB
  else if N.eqb d (ch "d") then EscAtom (Class false [CEsc EDigit false])
  else if N.eqb d (ch "D") then EscAtom (Class false [CEsc EDigit true])
  else if N.eqb d (ch "w") then EscAtom (Class false [CEsc EWord false])
  else if N.eqb d (ch "W") then EscAtom (Class false [CEsc EWord true])
  else if N.eqb d (ch "s") then EscAtom (Class false [CEsc ESpace false])
  else if N.eqb d (ch "S") then EscAtom (Class false [CEsc ESpace true])
  else if N.eqb d (ch "t") then EscAtom (Char 9)
  else if N.eqb d (ch "n") then EscAtom (Char 10)
  else if N.eqb d (ch "v") then EscAtom (Char 11)
  else if N.eqb d (ch "f") then EscAtom (Char 12)
  else if N.eqb d (ch "r") then EscAtom (Char 13)
  else if is_digit d || one_of "cxuk" d then EscUnsupported
  else EscAtom (Char d).

(** ClassEscape. *)
Definition class_escape (d : N) : option class_item :=
  if N.eqb d (ch "b") then Some (CChar 8)
  else if N.eqb d (ch "d") then Some (CEsc EDigit false)
  else if N.eqb d (ch "D") then Some (CEsc EDigit true)
  else if N.eqb d (ch "w") then Some (CEsc EWord false)
  else if N.eqb d (ch "W") then Some (CEsc EWord true)
  else if N.eqb d (ch "s") then Some (CEsc ESpace false)
  else if N.eqb d (ch "S") then Some (CEsc ESpace true)
  else if N.eqb d (ch "t") then Some (CChar 9)
  else if N.eqb d (ch "n") then Some (CChar 10)
  else if N.eqb d (ch "v") then Some (CChar 11)
  else if N.eqb d (ch "f") then Some (CChar 12)
  else if N.eqb d (ch "r") then Some (CChar 13)
  else if is_digit d || one_of "cxuk" d then None
  else Some (CChar d).

Inductive mode :=
| MNormal
| MClass (negated : bool) (items : list class_item).

Inductive compiled :=
| Compiled (r : regex)
| Invalid
| Unsupported.

(** Does a [-] followed by something other than the closing bracket come
    next?  Then the atom just read is the lower bound of a range. *)
Definition range_follows (rest : jsstring) : bool :=
  match rest with
  | dash :: hi :: _ => N.eqb dash (ch "-") && negb (N.eqb hi (ch "]"))
  | _ => false
  end.

(** The parser of pattern texts: one pass over the text with the stack of
    open groups.  Covered: literal characters, [.], classes with ranges and
    class escapes, capturing and [(?:)] groups, [|], the quantifiers
    [* + ?] and their lazy forms, [^ $ \b \B], identity escapes.  A text
    that is not a pattern is [Invalid]; one that uses anything else (braces
    quantifiers, look-around, named groups, back-references) is
    [Unsupported]. *)
Fixpoint parse (stack : list frame) (fr : frame) (md : mode) (ngroups : nat)
         (s : jsstring) {struct s} : compiled :=
  match s with
  | [] =>
      match md, stack with
      | MNormal, [] => Compiled (finish fr)
      | _, _ => Invalid
      end
  | c :: rest =>
      match md with
      | MClass negated items =>
          if N.eqb c (ch "]") then
            parse stack (push_term fr (Class negated (rev items)) true)
                  MNormal ngroups rest
          else if N.eqb c backslash then
            match rest with
            | [] => Invalid
            | d :: rest' =>
                match class_escape d with
                | Some it =>
                    if range_follows rest' then Unsupported
                    else parse stack fr (MClass negated (it :: items)) ngroups rest'
                | None => Unsupported
                end
            end
          else if range_follows rest then
            match rest with
            | _ :: hi :: rest'' =>
                if N.eqb hi backslash then Unsupported
                else if (c <=? hi)%N then
                  parse stack fr (MClass negated (CRange c hi :: items))
                        ngroups rest''
                else Invalid
            | _ => Invalid
            end
          else parse stack fr (MClass negated (CChar c :: items)) ngroups rest
      | MNormal =>
          if N.eqb c (ch "(") then
            match rest with
            | q :: rest' =>
                if N.eqb q (ch "?") then
                  match rest' with
                  | k :: rest'' =>
                      if N.eqb k (ch ":") then
                        parse (fr :: stack) (new_frame 0) MNormal ngroups rest''
                      else Unsupported
                  | [] => Invalid
                  end
                else
                  parse (fr :: stack) (new_frame (S ngroups)) MNormal
                        (S ngroups) rest
            | [] => Invalid
            end
          else if N.eqb c (ch ")") then
            match stack with
            | parent :: stack' =>
                parse stack' (push_term parent (close_group fr) true)
                      MNormal ngroups rest
            | [] => Invalid
            end
          else if N.eqb c (ch "|") then
            parse stack (next_alt fr) MNormal ngroups rest
          else if one_of "*+?" c then
            if f_quant fr then
              match rest with
              | q :: rest' =>
                  if N.eqb q (ch "?") then
                    parse stack (quantify c false fr) MNormal ngroups rest'
                  else parse stack (quantify c true fr) MNormal ngroups rest
              | [] => parse stack (quantify c true fr) MNormal ngroups rest
              end
            else Invalid
          else if N.eqb c (ch "{") then Unsupported
          else if N.eqb c (ch "[") then
            match rest with
            | n :: rest' =>
                if N.eqb n (ch "^") then
                  parse stack fr (MClass true []) ngroups rest'
                else parse stack fr (MClass false []) ngroups rest
            | [] => Invalid
            end
          else if N.eqb c backslash then
            match rest with
            | [] => Invalid
            | d :: rest' =>
                match atom_escape d with
                | EscAssert r =>
                    parse stack (push_term fr r false) MNormal ngroups rest'
                | EscAtom r =>
                    parse stack (push_term fr r true) MNormal ngroups rest'
                | EscUnsupported => Unsupported
                end
            end
          else if N.eqb c (ch ".") then
            parse stack (push_term fr AnyChar true) MNormal ngroups rest
          else if N.eqb c (ch "^") then
            parse stack (push_term fr Bol false) MNormal ngroups rest
          else if N.eqb c (ch "$") then
            parse stack (push_term fr Eol false) MNormal ngroups rest
          else parse stack (push_term fr (Char c) true) MNormal ngroups rest
      end
  end.

Definition compile (source : jsstring) : compiled :=
  parse [] (new_frame 0) MNormal 0 source.

(** The flags [g] and [i], each at most once; the other flags are not
    covered. *)
Fixpoint parse_flags (flags : jsstring) (ic g : bool) : result (bool * bool) :=
  match flags with
  | [] => Ok (ic, g)
  | c :: rest =>
      if N.eqb c (ch "i") then
        if ic then Throw SyntaxError else parse_flags rest true g
      else if N.eqb c (ch "g") then
        if g then Throw SyntaxError else parse_flags rest ic true
      else if one_of "msuyd" c then Throw Unmodelled
      else Throw SyntaxError
  end.

(** [new RegExp(source, flags)], and a literal [/source/flags]. *)
Definition new_RegExp (source flags : jsstring) : result RegExp :=
  fl <- parse_flags flags false false ;;
  match compile source with
  | Compiled r => Ok (MkRegExp r (fst fl) (snd fl))
  | Invalid => Throw SyntaxError
  | Unsupported => Throw Unmodelled
  end.

(* ================================================================== *)
(** ** The program: [GreenhouseScraper] and [parseGreenhouseUrl] *)
(* ================================================================== *)

(** The class fields. *)
Record GreenhouseScraper := MkScraper {
  companyToken : jsstring;
  baseUrl : jsstring
}.

(** [constructor(companyToken)] *)
Definition new_GreenhouseScraper (token : jsstring) : GreenhouseScraper :=
  MkScraper token (js "https://boards-api.greenhouse.io/v1/boards").

(** The object literal built by [normalizeJob].  The fields copied from
    the vendor record hold whatever value was found there. *)
Module Job.
Record t := Make {
  externalId : jsval;
  title : jsval;
  absoluteUrl : jsval;
  applyUrl : jsval;
  location : jsval;
  departments : jsval;
  offices : jsval;
  content : jsval;
  htmlContent : jsval;
  updatedAt : jsval;
  metadata : jsval;
  questions : jsval;
  scrapedAt : jsstring;
  source : jsstring;
  companyToken : jsstring
}.
End Job.
Definition NormalizedJob := Job.t.

(** [v?.map((d) => d.name)]: only arrays have [map]. *)
Definition map_names (v : jsval) : result jsval :=
  match v with
  | JUndefined | JNull => Ok JUndefined
  | JArray elems =>
      names <- mapM (fun d => get d (js "name")) elems ;; Ok (JArray names)
  | _ => Throw TypeError
  end.

(** [normalizeJob(job)]; [now] is what [new Date().toISOString()] returns
    during the call. *)
Definition normalizeJob (this : GreenhouseScraper) (now : jsstring) (job : jsval)
  : result NormalizedJob :=
  id <- get job (js "id") ;;
  externalId <- optToString id ;;
  title <- get job (js "title") ;;
  absolute_url <- get job (js "absolute_url") ;;
  location <- get job (js "location") ;;
  departments <- get job (js "departments") ;;
  departmentNames <- map_names departments ;;
  offices <- get job (js "offices") ;;
  officeNames <- map_names offices ;;
  content <- get job (js "content") ;;
  updated_at <- get job (js "updated_at") ;;
  metadata <- get job (js "metadata") ;;
  questions <- get job (js "questions") ;;
  Ok {| Job.externalId := externalId;
        Job.title := title;
        Job.absoluteUrl := absolute_url;
        Job.applyUrl := absolute_url;
        Job.location := or_else (optGet location (js "name")) (JString (js "Remote"));
        Job.departments := or_else departmentNames (JArray []);
        Job.offices := or_else officeNames (JArray []);
        Job.content := or_else content (JString []);
        Job.htmlContent := or_else content (JString []);
        Job.updatedAt := updated_at;
        Job.metadata := or_else metadata (JArray []);
        Job.questions := or_else questions (JArray []);
        Job.scrapedAt := now;
        Job.source := js "greenhouse";
        Job.companyToken := companyToken this |}.

(** *** The transport *)

(** The arguments of [axios.get]. *)
Record Request := MkRequest {
  url : jsstring;
  params : list (jsstring * jsval);
  headers : list (jsstring * jsval);
  timeout : Z
}.

(** How the promise of [axios.get] settles: with a response, of which the
    program reads [data], or with a rejection. *)
Inductive AxiosOutcome :=
| Resolved (data : jsval)
| Rejected (error : jsval).

Fixpoint set_prop (k : jsstring) (v : jsval) (props : list (jsstring * jsval))
  : list (jsstring * jsval) :=
  match props with
  | [] => [(k, v)]
  | (k', v') :: rest =>
      if str_eqb k k' then (k, v) :: rest else (k', v') :: set_prop k v rest
  end.

(** [{...target, ...src}] *)
Definition spread (target src : list (jsstring * jsval))
  : list (jsstring * jsval) :=
  fold_left (fun acc kv => set_prop (fst kv) (snd kv) acc) src target.

(** Reading a property of a caught value. *)
Definition thrown_get (e : thrown) (k : jsstring) : result jsval :=
  match e with
  | Rejection v => get v k
  | UserError message =>
      Ok (if str_eqb k (js "message") then JString message else JUndefined)
  | TypeError | SyntaxError | Unmodelled => Ok JUndefined
  end.

(** The message of the error thrown for status 404. *)
Definition not_found_message (this : GreenhouseScraper) : jsstring :=
  js "Company token " ++ [dquote] ++ companyToken this ++ [dquote]
     ++ js " not found in Greenhouse".

(** The [catch] block of [fetchJobs]: what it throws for the caught
    [error]. *)
Definition fetchJobs_catch (this : GreenhouseScraper) (error : thrown) : thrown :=
  match thrown_get error (js "message") with
  | Throw e => e
  | Ok _ =>
      match thrown_get error (js "response") with
      | Throw e => e
      | Ok response =>
          if strict_eq_number (optGet response (js "status")) 404
          then UserError (not_found_message this)
          else error
      end
  end.

Definition listing_request (this : GreenhouseScraper)
           (filters : list (jsstring * jsval)) : Request :=
  MkRequest (baseUrl this ++ js "/" ++ companyToken this ++ js "/jobs")
            (spread [(js "content", JString (js "true"))] filters)
            [(js "User-Agent", JString (js "JobScraper/1.0"))]
            15000.

(** [fetchJobs(filters)].  [axios_get] is the transport; [clock k] is the
    time read while the [k]-th record is normalized.  Console output is
    not modelled. *)
Definition fetchJobs (axios_get : Request -> AxiosOutcome) (clock : nat -> jsstring)
           (this : GreenhouseScraper) (filters : list (jsstring * jsval))
  : result (list NormalizedJob) :=
  let attempt :=
    match axios_get (listing_request this filters) with
    | Rejected error => Throw (Rejection error)
    | Resolved data =>
        found <- get data (js "jobs") ;;
        match or_else found (JArray []) with
        | JArray jobs => mapMi (fun k job => normalizeJob this (clock k) job) 0 jobs
        | _ => Throw TypeError
        end
    end in
  match attempt with
  | Ok jobs => Ok jobs
  | Throw error => Throw (fetchJobs_catch this error)
  end.

(** [fetchJobDetails(jobId)]: every failure is thrown again as it is. *)
Definition fetchJobDetails (axios_get : Request -> AxiosOutcome) (now : jsstring)
           (this : GreenhouseScraper) (jobId : jsstring) : result NormalizedJob :=
  let attempt :=
    match axios_get (MkRequest (baseUrl this ++ js "/" ++ companyToken this
                                  ++ js "/jobs/" ++ jobId)
                               [(js "questions", JString (js "true"))] [] 10000) with
    | Rejected error => Throw (Rejection error)
    | Resolved data => normalizeJob this now data
    end in
  match attempt with
  | Ok job => Ok job
  | Throw error =>
      match thrown_get error (js "message") with
      | Throw e => Throw e
      | Ok _ => Throw error
      end
  end.

(** *** Keyword filter *)

Definition lit (s : string) : list regex := map Char (js s).

(** [/[.*+?^${}()|[\]\\]/g] *)
Definition metachars : jsstring := js ".*+?^${}()|[]\".
Definition escape_re : RegExp :=
  MkRegExp (seq_of [Class false (map CChar metachars)]) false true.

(** [/&lt;/g], [/&gt;/g], [/&amp;/g], [/&quot;/g], [/&#39;/g] *)
Definition entity_re (entity : string) : RegExp :=
  MkRegExp (seq_of (lit entity)) false true.

(** [/<[^>]*>/g] *)
Definition tag_re : RegExp :=
  MkRegExp (seq_of [Char (ch "<"); Star true (Class true [CChar (ch ">")]);
                    Char (ch ">")]) false true.

(** [/\s+/g] *)
Definition spaces_re : RegExp :=
  MkRegExp (seq_of [Plus true (Class false [CEsc ESpace false])]) false true.

(** The chain of [replace] and [trim] calls of [decodeHtml]. *)
Definition sanitize (html : jsstring) : jsstring :=
  let s1 := replace html (entity_re "&lt;") (js "<") in
  let s2 := replace s1 (entity_re "&gt;") (js ">") in
  let s3 := replace s2 (entity_re "&amp;") (js "&") in
  let s4 := replace s3 (entity_re "&quot;") [dquote] in
  let s5 := replace s4 (entity_re "&#39;") (js "'") in
  let s6 := replace s5 tag_re (js " ") in
  let s7 := replace s6 spaces_re (js " ") in
  trim s7.

(** [decodeHtml(html)]: only strings have [replace]. *)
Definition decodeHtml (html : jsval) : result jsstring :=
  if negb (truthy html) then Ok []
  else
    match html with
    | JString s => Ok (sanitize s)
    | _ => Throw TypeError
    end.

(** The text a job is searched in. *)
Definition searchText (job : NormalizedJob) : result jsstring :=
  cleanContent <- decodeHtml (or_else (Job.content job) (JString [])) ;;
  departmentsText <- join (or_else (Job.departments job) (JArray [])) (js " ") ;;
  title <- ToString (or_else (Job.title job) (JString [])) ;;
  Ok (toLowerCase (title ++ js " " ++ cleanContent ++ js " " ++ departmentsText)).

(** [kw.replace(/[.*+?^${}()|[\]\\]/g, "\\$&")] *)
Definition escapeKeyword (kw : jsstring) : jsstring :=
  replace kw escape_re (backslash :: js "$&").

(** The text handed to [new RegExp]. *)
Definition keywordPattern (keywords : list jsstring) : jsstring :=
  js "\b(" ++ intercalate (js "|") (map escapeKeyword keywords) ++ js ")\b".

(** [filterByKeywords(jobs, keywords)]; [None] is an absent ([undefined] or
    [null]) keyword list. *)
Definition filterByKeywords (jobs : list NormalizedJob)
           (keywords : option (list jsstring)) : result (list NormalizedJob) :=
  match keywords with
  | None => Ok jobs
  | Some [] => Ok jobs
  | Some kws =>
      keywordRegex <- new_RegExp (keywordPattern kws) (js "i") ;;
      filterM (fun job => text <- searchText job ;; Ok (test keywordRegex text))
              jobs
  end.

(** *** URL parsing *)

Module Tenant.
Record t := Make {
  companyToken : jsval;
  region : jsstring
}.
End Tenant.

(** [([^\/\?]+)] *)
Definition segment : regex :=
  Group 1 (seq_of [Plus true (Class true [CChar (ch "/"); CChar (ch "?")])]).

Definition host_re (host : string) : RegExp :=
  MkRegExp (seq_of (lit host ++ [segment])) true false.

(** The four patterns, in the order of the array. *)
Definition patterns : list RegExp :=
  [ host_re "greenhouse.io/";
    host_re "boards.greenhouse.io/";
    host_re "job-boards.greenhouse.io/";
    host_re "job-boards.eu.greenhouse.io/" ].

(** The [for] loop over the patterns. *)
Fixpoint first_match (url : jsstring) (ps : list RegExp) : option Tenant.t :=
  match ps with
  | [] => None
  | p :: rest =>
      match str_match url p with
      | Some found =>
          let region := if includes url (js ".eu.greenhouse.io")
                        then js "eu" else js "us" in
          Some (Tenant.Make (capture 1 found) region)
      | None => first_match url rest
      end
  end.

(** [parseGreenhouseUrl(url)]; [None] is [null]. *)
Definition parseGreenhouseUrl (url : jsstring) : option Tenant.t :=
  first_match url patterns.

(** *** From a careers page to a scraper, and the scrape of a company *)

(** [createScraperFromUrl(url)].  The class field is a string in this
    development; [match[1]] is a string whenever one of the patterns
    matches, so the last branch is never taken. *)
Definition createScraperFromUrl (url : jsstring) : result GreenhouseScraper :=
  match parseGreenhouseUrl url with
  | None => Throw (UserError (js "Could not parse Greenhouse URL: " ++ url))
  | Some parsed =>
      match Tenant.companyToken parsed with
      | JString token => Ok (new_GreenhouseScraper token)
      | _ => Throw Unmodelled
      end
  end.

(** The argument of [scrapeCompany] (main.ts). *)
Module Company.
Record t := Make {
  companyName : jsstring;
  companyCareersPage : jsstring;
  ats : jsstring;
  keywords : option (list jsstring)
}.
End Company.

(** The object [scrapeCompany] returns. *)
Module Scraped.
Record t := Make {
  jobs : list NormalizedJob;
  matchedJobs : list NormalizedJob;
  totalMatchedJobs : nat;
  totalJobs : nat
}.
End Scraped.

(** [scrapeCompany(companyToBeScraped)] *)
Definition scrapeCompany (axios_get : Request -> AxiosOutcome)
           (clock : nat -> jsstring) (companyToBeScraped : Company.t)
  : result Scraped.t :=
  scraper <- createScraperFromUrl (Company.companyCareersPage companyToBeScraped) ;;
  jobList <- fetchJobs axios_get clock scraper [] ;;
  match jobList with
  | [] => Ok (Scraped.Make [] [] 0 0)
  | _ :: _ =>
      filterdJobs <- filterByKeywords jobList (Company.keywords companyToBeScraped) ;;
      Ok (Scraped.Make jobList filterdJobs (length filterdJobs) (length jobList))
  end.

(* ================================================================== *)
(** ** Reference functions

    Plain list functions the runtime model is compared with in the proofs:
    what a match of one of the program's patterns amounts to, and what a
    global replacement does once the length of the match at the head of the
    text is known. *)
(* ================================================================== *)

Unset Implicit Arguments.

(** The position [n] code units further. *)
Definition advance (n : nat) (st : mstate) : mstate :=
  MState (rev (firstn n (after st)) ++ before st) (skipn n (after st)) (caps st).

(** [p] matches the head of [s] code unit by code unit. *)
Fixpoint prefix_ci (ic : bool) (p s : jsstring) : bool :=
  match p, s with
  | [], _ => true
  | c :: p', x :: s' => char_matches ic c x && prefix_ci ic p' s'
  | _ :: _, [] => false
  end.

(** The list has an element: the matcher found a match. *)
Definition nonempty {A} (l : list A) : bool :=
  match l with [] => false | _ => true end.

(** Some position of [rev pre ++ s] at or after the current one satisfies
    [P]. *)
Fixpoint any_pos (P : jsstring -> jsstring -> bool) (pre s : jsstring) : bool :=
  P pre s ||
  match s with
  | [] => false
  | c :: s' => any_pos P (c :: pre) s'
  end.

(** Global replacement, given the length [mlen s] of the match at the head
    of [s] and the replacement [r] for a matched text. *)
Fixpoint gsub (mlen : jsstring -> option nat) (r : jsstring -> jsstring)
         (s : jsstring) (skip : nat) {struct s} : jsstring :=
  match skip with
  | S k =>
      match s with
      | [] => []
      | _ :: s' => gsub mlen r s' k
      end
  | 0 =>
      match mlen s with
      | Some len =>
          r (firstn len s) ++
          match s with
          | [] => []
          | c :: s' =>
              match len with
              | 0 => c :: gsub mlen r s' 0
              | S k => gsub mlen r s' k
              end
          end
      | None =>
          match s with
          | [] => []
          | c :: s' => c :: gsub mlen r s' 0
          end
      end
  end.

(** Position of the first [c] in [s]. *)
Fixpoint index_of (c : N) (s : jsstring) : option nat :=
  match s with
  | [] => None
  | x :: s' => if N.eqb x c then Some 0 else option_map S (index_of c s')
  end.

(** Length of the longest prefix of [s] whose code units satisfy [p]. *)
Fixpoint run_length (p : N -> bool) (s : jsstring) : nat :=
  match s with
  | [] => 0
  | x :: s' => if p x then S (run_length p s') else 0
  end.

(** Length of the match at the head of the text, for a literal, for
    [<[^>]*>], for [\s+] and for the class of metacharacters. *)
Definition mlen_lit (p s : jsstring) : option nat :=
  if starts_with p s then Some (length p) else None.

Definition mlen_tag (s : jsstring) : option nat :=
  match s with
  | x :: s' =>
      if N.eqb x (ch "<")
      then option_map (fun i => S (S i)) (index_of (ch ">") s')
      else None
  | [] => None
  end.

Definition mlen_spaces (s : jsstring) : option nat :=
  match run_length is_space s with
  | 0 => None
  | S n => Some (S n)
  end.

(** One of the fourteen metacharacters [. * + ? ^ $ { } ( ) | [ ] \]. *)
Definition is_meta (c : N) : bool := existsb (N.eqb c) metachars.

Definition mlen_meta (s : jsstring) : option nat :=
  match s with
  | c :: _ => if is_meta c then Some 1 else None
  | [] => None
  end.

(** A keyword with a backslash before each metacharacter. *)
Definition escaped (kw : jsstring) : jsstring :=
  flat_map (fun c => if is_meta c then [backslash; c] else [c]) kw.

(** [t] is [s] with some non-empty segments each replaced by the single
    code unit [c]. *)
Inductive Subst (c : N) : jsstring -> jsstring -> Prop :=
| Subst_nil : Subst c [] []
| Subst_keep x s t : Subst c s t -> Subst c (x :: s) (x :: t)
| Subst_cut seg s t : seg <> [] -> Subst c s t -> Subst c (seg ++ s) (c :: t).

(** [q] occurs in [s]. *)
Definition occurs (q s : jsstring) : Prop := exists a b, s = a ++ q ++ b.

(** No [<] of the text has a [>] after it: the text has no tag left. *)
Definition tagless (s : jsstring) : Prop :=
  forall a b, s = a ++ ch "<" :: b -> ~ In (ch ">") b.

(** The text does not start with white space. *)
Definition no_lead_space (s : jsstring) : bool :=
  match s with
  | x :: _ => negb (is_space x)
  | [] => true
  end.

(** Every white space of the text is a single U+0020 followed by another
    code unit or by the end of the text. *)
Fixpoint spaced (s : jsstring) : bool :=
  match s with
  | [] => true
  | c :: s' =>
      (if is_space c then N.eqb c 32 && no_lead_space s' else true)
      && spaced s'
  end.

(** The entities [decodeHtml] decodes. *)
Definition entities : list string :=
  ["&lt;"; "&gt;"; "&amp;"; "&quot;"; "&#39;"]%string.

(** None of the entities occurs in the text. *)
Definition entity_free (s : jsstring) : Prop :=
  forall e, In e entities -> ~ occurs (js e) s.

(** The sequence of the characters of a keyword, and the pattern the
    keyword text compiles to. *)
Definition kw_seq (kw : jsstring) : regex := seq_of (map Char kw).

Definition keyword_regex (kws : list jsstring) : RegExp :=
  MkRegExp (seq_of [WordB; Group 1 (alt_of (map kw_seq kws)); WordB]) true false.

(** The frame after the literal characters of [kw] have been read. *)
Definition push_chars (fr : frame) (kw : jsstring) : frame :=
  fold_left (fun f c => push_term f (Char c) true) kw fr.

(** Some keyword stands at the position as a whole word. *)
Definition keyword_here (kws : list jsstring) (pre s : jsstring) : bool :=
  at_boundary (MState pre s []) &&
  existsb (fun kw => prefix_ci true kw s
                     && at_boundary (advance (length kw) (MState pre s [])))
          kws.

(** Exactly one of the last code unit of [l] and the first of [r] is a
    word character. *)
Definition boundary (l r : jsstring) : bool := at_boundary (MState (rev l) r []).

(** [occ] is [kw] up to the case of its letters (when [ic] is set). *)
Definition same_text (ic : bool) (kw occ : jsstring) : Prop :=
  Forall2 (fun c x => char_matches ic c x = true) kw occ.

(** One of the keywords occurs in the text, in any letter case, between
    two word boundaries. *)
Definition whole_word (kws : list jsstring) (text : jsstring) : Prop :=
  exists kw a occ b,
    In kw kws /\ text = a ++ occ ++ b /\ same_text true kw occ /\
    boundary a (occ ++ b) = true /\ boundary (a ++ occ) b = true.

(** The group a closed frame becomes. *)
Definition group_of (idx : nat) (body : regex) : regex :=
  match idx with
  | 0 => body
  | S _ => Group idx body
  end.

(** How far the match found at a position extends. *)
Definition match_length (re : RegExp) (pre s : jsstring) : option nat :=
  match match_at re pre s with
  | Some st => Some (length (before st) - length pre)
  | None => None
  end.

(** The three stages of [decodeHtml] before [trim], as reference
    replacements. *)
Definition decoded (s : jsstring) : jsstring :=
  gsub (mlen_lit (js "&#39;")) (expand (js "'"))
    (gsub (mlen_lit (js "&quot;")) (expand [dquote])
       (gsub (mlen_lit (js "&amp;")) (expand (js "&"))
          (gsub (mlen_lit (js "&gt;")) (expand (js ">"))
             (gsub (mlen_lit (js "&lt;")) (expand (js "<")) s 0) 0) 0) 0) 0.

Definition stripped (s : jsstring) : jsstring :=
  gsub mlen_tag (expand (js " ")) s 0.

Definition collapsed (s : jsstring) : jsstring :=
  gsub mlen_spaces (expand (js " ")) s 0.

(** The end of the match of one keyword at a position, if it matches. *)
Definition kw_ends (st : mstate) (kw : jsstring) : list mstate :=
  if prefix_ci true kw (after st) then [advance (length kw) st] else [].

(** A code unit of a path segment: anything but [/] and [?]. *)
Definition seg_char (c : N) : bool :=
  negb (N.eqb c (ch "/") || N.eqb c (ch "?")).

(** The longest prefix of [s] whose code units satisfy [p]. *)
Fixpoint take_while (p : N -> bool) (s : jsstring) : jsstring :=
  match s with
  | x :: s' => if p x then x :: take_while p s' else []
  | [] => []
  end.

(** The text [s] starts with the host text [h] (letters in either case
    when [ic] is set) followed by a non-empty path segment: that segment. *)
Definition tenant_here (ic : bool) (h s : jsstring) : option jsstring :=
  if prefix_ci ic h s then
    match take_while seg_char (skipn (length h) s) with
    | [] => None
    | seg => Some seg
    end
  else None.

(** The segment after the first place of the text where [tenant_here]
    finds one. *)
Fixpoint find_tenant (ic : bool) (h s : jsstring) : option jsstring :=
  match tenant_here ic h s with
  | Some seg => Some seg
  | None =>
      match s with
      | [] => None
      | _ :: s' => find_tenant ic h s'
      end
  end.

(** The region tag of a URL. *)
Definition region_of (url : jsstring) : jsstring :=
  if includes url (js ".eu.greenhouse.io") then js "eu" else js "us".

(** *** The vendor record *)

Definition is_string (v : jsval) : bool :=
  match v with JString _ => true | _ => false end.
Definition is_identifier (v : jsval) : bool :=
  match v with JNumber _ | JString _ => true | _ => false end.
Definition is_array (v : jsval) : bool :=
  match v with JArray _ => true | _ => false end.

(** A field that may be missing ([undefined]) or [null]. *)
Definition optional (p : jsval -> bool) (v : jsval) : bool := nullish v || p v.

Definition named (v : jsval) : bool :=
  match v with
  | JObject props => optional is_string (lookup (js "name") props)
  | _ => false
  end.

Definition array_of (p : jsval -> bool) (v : jsval) : bool :=
  match v with
  | JArray elems => forallb p elems
  | _ => false
  end.

(** Modelled from the spec: the shape of a RawJobRecord (spec, section 3:
    numeric or string identifier, title, location object, arrays of
    department and office objects, HTML content, metadata and question
    arrays, timestamp), which the source does not declare.  Every field is
    optional. *)
Definition well_formed (job : jsval) : bool :=
  match job with
  | JObject props =>
      optional is_identifier (lookup (js "id") props)
      && optional is_string (lookup (js "title") props)
      && optional is_string (lookup (js "absolute_url") props)
      && optional named (lookup (js "location") props)
      && optional (array_of named) (lookup (js "departments") props)
      && optional (array_of named) (lookup (js "offices") props)
      && optional is_string (lookup (js "content") props)
      && optional is_array (lookup (js "metadata") props)
      && optional is_array (lookup (js "questions") props)
      && optional is_string (lookup (js "updated_at") props)
  | _ => false
  end.

(** A value other than [undefined] and [null]. *)
Definition defined (v : jsval) : bool := negb (nullish v).

(** Every field of the normalized job has a value. *)
Definition all_defined (j : NormalizedJob) : bool :=
  defined (Job.externalId j) && defined (Job.title j)
  && defined (Job.absoluteUrl j) && defined (Job.applyUrl j)
  && defined (Job.location j) && defined (Job.departments j)
  && defined (Job.offices j) && defined (Job.content j)
  && defined (Job.htmlContent j) && defined (Job.updatedAt j)
  && defined (Job.metadata j) && defined (Job.questions j).

(** *** Jobs and errors in the statements *)

(** A job with the three fields the keyword filter reads. *)
Definition job_with (title content departments : jsval) : NormalizedJob :=
  Job.Make JUndefined title JUndefined JUndefined JUndefined departments
           JUndefined content JUndefined JUndefined JUndefined JUndefined
           [] (js "greenhouse") [].

(** The filter selects the job. *)
Definition selected (kws : list jsstring) (job : NormalizedJob) : bool :=
  match searchText job with
  | Ok text => test (keyword_regex kws) text
  | Throw _ => false
  end.

(** The rejection carries HTTP status 404. *)
Definition is_not_found (error : jsval) : bool :=
  strict_eq_number (optGet (optGet error (js "response")) (js "status")) 404.

(** The tenant identifier quoted in the message of the not-found error. *)
Definition quoted_token (message : jsstring) : jsstring :=
  let tail := skipn (length (js "Company token ") + 1) message in
  firstn (length tail - (1 + length (js " not found in Greenhouse"))) tail.

(** A vendor record, for the examples. *)
Definition sample_record : jsval :=
  JObject [ (js "id", JNumber 4012345);
            (js "title", JString (js "Frontend Engineer"));
            (js "departments", JArray [JObject [(js "name", JString (js "Engineering"))]]);
            (js "content", JString (js "&lt;p&gt;React and UI&lt;/p&gt;")) ].

(** Induction on values, through the elements of arrays. *)
Fixpoint jsval_elems_ind (P : jsval -> Prop)
         (Hundef : P JUndefined) (Hnull : P JNull)
         (Hbool : forall b, P (JBool b)) (Hnum : forall n, P (JNumber n))
         (Hstr : forall s, P (JString s))
         (Harr : forall elems, Forall P elems -> P (JArray elems))
         (Hobj : forall props, P (JObject props))
         (v : jsval) {struct v} : P v :=
  match v with
  | JUndefined => Hundef
  | JNull => Hnull
  | JBool b => Hbool b
  | JNumber n => Hnum n
  | JString s => Hstr s
  | JArray elems =>
      Harr elems
           ((fix all (l : list jsval) : Forall P l :=
               match l with
               | [] => @Forall_nil _ P
               | x :: l' =>
                   @Forall_cons _ P x l'
                     (jsval_elems_ind P Hundef Hnull Hbool Hnum Hstr Harr Hobj x)
                     (all l')
               end) elems)
  | JObject props => Hobj props
  end.

(** If the computation throws, it throws a TypeError. *)
Definition only_TypeError {A} (r : result A) : Prop :=
  forall e, r = Throw e -> e = TypeError.

(** *** Reference functions for the rest of the program *)

(** ToString succeeds on the value: it is not an object with an own
    [toString] property and has none in its (nested) array elements. *)
Definition printable (v : jsval) : bool := is_ok (ToString v).

(** The value is absent or an array without [undefined] and [null]
    elements: what [v?.map((d) => d.name)] accepts. *)
Definition names_ok (v : jsval) : bool :=
  nullish v ||
  match v with
  | JArray elems => forallb (fun d => negb (nullish d)) elems
  | _ => false
  end.

(** The value of the last property [k] of a list of properties. *)
Fixpoint last_value (k : jsstring) (props : list (jsstring * jsval))
  : option jsval :=
  match props with
  | [] => None
  | (k', v) :: rest =>
      match last_value k rest with
      | Some v' => Some v'
      | None => if str_eqb k k' then Some v else None
      end
  end.

(** Removal of the backslash before an escaped character. *)
Fixpoint unescape (s : jsstring) : jsstring :=
  match s with
  | [] => []
  | [b] => [b]
  | b :: ((c :: rest) as tail) =>
      if N.eqb b backslash then c :: unescape rest else b :: unescape tail
  end.

(** The arguments [fetchJobDetails] gives to [axios.get]. *)
Definition details_request (this : GreenhouseScraper) (jobId : jsstring) : Request :=
  MkRequest (baseUrl this ++ js "/" ++ companyToken this ++ js "/jobs/" ++ jobId)
            [(js "questions", JString (js "true"))] [] 10000.

(** A listing of two vendor records, and a transport that answers every
    request with it. *)
Definition sample_listing : jsval :=
  JObject [(js "jobs",
            JArray [ sample_record;
                     JObject [(js "id", JString (js "77"));
                              (js "title", JString (js "UI Designer"));
                              (js "location", JObject [(js "name", JString (js "Berlin"))])] ])].

Definition sample_clock (k : nat) : jsstring :=
  js "2026-01-01T00:00:0" ++ number_toString (Z.of_nat k) ++ js ".000Z".

(** A record with two departments, the second without a name. *)
Definition two_departments : jsval :=
  JObject [(js "absolute_url", JString (js "https://boards.greenhouse.io/acme/jobs/1"));
           (js "departments", JArray [JObject [(js "name", JString (js "Design"))];
                                      JObject []])].

(** Text that has nothing to decode, strip or collapse: no [&], no [<],
    white space only as single U+0020 between other code units. *)
Definition plain (t : jsstring) : bool :=
  forallb (fun c => negb (N.eqb c (ch "&")) && negb (N.eqb c (ch "<"))) t
  && spaced t && no_lead_space t && no_lead_space (rev t).

(** Two keywords that differ in the case of their letters at most. *)
Definition same_letters (k k' : jsstring) : Prop :=
  map to_upper k = map to_upper k'.

(** The API root every scraper is given. *)
Definition api_root : jsstring := js "https://boards-api.greenhouse.io/v1/boards".

(** Jobs with a title only, for the examples. *)
Definition react_job : NormalizedJob :=
  job_with (JString (js "React developer")) (JString []) (JArray []).
Definition accountant_job : NormalizedJob :=
  job_with (JString (js "Accountant")) (JString []) (JArray []).
Definition designer_job : NormalizedJob :=
  job_with (JString (js "UI designer")) (JString []) (JArray []).
Definition dashes_job : NormalizedJob :=
  job_with (JString (js "---")) (JString []) (JArray []).

(** The company [main] scrapes. *)
Definition groww : Company.t :=
  Company.Make (js "Groww") (js "https://job-boards.eu.greenhouse.io/groww")
               (js "greenhouse")
               (Some [js "frontend"; js "ui"; js "React"; js "Angular"]).

(** The message of the error [createScraperFromUrl] throws. *)
Definition unparsed_message (page : jsstring) : jsstring :=
  js "Could not parse Greenhouse URL: " ++ page.

(** Every code unit of the text is in Basic Latin (below 128), where the
    case mappings of this development are those of the runtime. *)
Definition basic_latin (s : jsstring) : bool :=
  forallb (fun c => (c <? 128)%N) s.

(** The sanitized content: the five entities decoded in the order of the
    source, every tag replaced by a space, every run of white space by one
    space, and the ends trimmed. *)
Definition cleaned (c : jsstring) : jsstring :=
  trim (collapsed (stripped (decoded c))).

(** The searchable text of a posting, in the letter case of its fields:
    title, sanitized content and the department names joined by spaces. *)
Definition searchable (t c : jsstring) (ds : list jsstring) : jsstring :=
  t ++ js " " ++ cleaned c ++ js " " ++ intercalate (js " ") ds.

(** A job with a title and a content only, for the examples. *)
Definition posting (title content : string) : NormalizedJob :=
  job_with (JString (js title)) (JString (js content)) (JArray []).

(* ================================================================== *)
(** ** Lemmas about the runtime *)
(* ================================================================== *)

Lemma nonempty_app {A} (l l' : list A) :
  nonempty (l ++ l') = nonempty l || nonempty l'.
Proof. destruct l; reflexivity. Qed.

Lemma nonempty_flat_map {A B} (f : A -> list B) (l : list A) :
  nonempty (flat_map f l) = existsb (fun x => nonempty (f x)) l.
Proof.
  induction l as [|x l IH]; simpl; [reflexivity|].
  now rewrite nonempty_app, IH.
Qed.

Lemma flat_map_single {A B} (f : A -> list B) (x : A) : flat_map f [x] = f x.
Proof. simpl. apply app_nil_r. Qed.

Lemma mstate_eta st : MState (before st) (after st) (caps st) = st.
Proof. now destruct st. Qed.

Lemma advance_0 st : advance 0 st = st.
Proof. unfold advance. simpl. apply mstate_eta. Qed.

Lemma advance_cons n x pre s c :
  advance n (MState (x :: pre) s c) = advance (S n) (MState pre (x :: s) c).
Proof.
  unfold advance. simpl. now rewrite <- app_assoc.
Qed.

Lemma m_Seq ic a b st : m ic (Seq a b) st = flat_map (m ic b) (m ic a st).
Proof. reflexivity. Qed.

Lemma m_Char ic c st : m ic (Char c) st = step_if (char_matches ic c) st.
Proof. reflexivity. Qed.

Lemma m_Class ic neg items st :
  m ic (Class neg items) st = step_if (class_matches ic neg items) st.
Proof. reflexivity. Qed.

Lemma m_Star ic g r st :
  m ic (Star g r) st = star_loop (m ic r) g (S (length (after st))) st.
Proof. reflexivity. Qed.

Lemma m_Plus ic g r st :
  m ic (Plus g r) st =
  flat_map (star_loop (m ic r) g (S (length (after st)))) (m ic r st).
Proof. reflexivity. Qed.

Lemma flat_map_m_Empty ic l : flat_map (m ic Empty) l = l.
Proof.
  induction l as [|x l IH]; [reflexivity|].
  cbn [flat_map]. rewrite IH. reflexivity.
Qed.

Lemma step_if_cons p x pre s cs :
  step_if p (MState pre (x :: s) cs) =
  if p x then [MState (x :: pre) s cs] else [].
Proof. reflexivity. Qed.

(** A run of literal characters matches exactly when the text starts with
    them. *)
Lemma m_lits ic (p : jsstring) (k : regex) : forall st,
  m ic (fold_right Seq k (map Char p)) st =
  if prefix_ci ic p (after st) then m ic k (advance (length p) st) else [].
Proof.
  induction p as [|c p IH]; intros st.
  - simpl. now rewrite advance_0.
  - destruct st as [pre s cs]. simpl. unfold step_if. simpl.
    destruct s as [|x s]; [reflexivity|].
    destruct (char_matches ic c x); simpl; [|reflexivity].
    rewrite app_nil_r, IH. simpl.
    now rewrite advance_cons.
Qed.

Lemma seq_of_app (l l' : list regex) :
  seq_of (l ++ l') = fold_right Seq (seq_of l') l.
Proof. unfold seq_of. apply fold_right_app. Qed.

Lemma m_seq_of_lits ic p st :
  m ic (seq_of (map Char p)) st =
  if prefix_ci ic p (after st) then [advance (length p) st] else [].
Proof. unfold seq_of. now rewrite m_lits. Qed.

Lemma prefix_ci_false p s : prefix_ci false p s = starts_with p s.
Proof.
  revert s; induction p as [|c p IH]; intros [|x s]; simpl; try reflexivity.
  unfold char_matches, canon. now rewrite IH, N.eqb_sym.
Qed.

Lemma starts_with_length p s : starts_with p s = true -> length p <= length s.
Proof.
  revert s; induction p as [|c p IH]; intros [|x s]; simpl; intros H;
    try lia; try discriminate.
  apply andb_prop in H. destruct H as [_ H]. apply IH in H. lia.
Qed.

Lemma length_before_advance n st :
  n <= length (after st) ->
  length (before (advance n st)) - length (before st) = n.
Proof.
  intros H. unfold advance. simpl.
  rewrite length_app, length_rev, length_firstn. lia.
Qed.

(** *** Global replacement *)

Lemma replace_from_gsub re t mlen :
  (forall pre s, match_length re pre s = mlen s) ->
  forall s pre skip,
    replace_from re t pre s skip = gsub mlen (expand t) s skip.
Proof.
  intros H. induction s as [|c s IH]; intros pre skip.
  - destruct skip; simpl; [|reflexivity].
    rewrite <- (H pre []). unfold match_length.
    destruct (match_at re pre []); reflexivity.
  - destruct skip; simpl; [|apply IH].
    rewrite <- (H pre (c :: s)). unfold match_length.
    destruct (match_at re pre (c :: s)) as [st|].
    + destruct (length (before st) - length pre); now rewrite IH.
    + now rewrite IH.
Qed.

Lemma match_length_lit (e : string) pre s :
  match_length (entity_re e) pre s = mlen_lit (js e) s.
Proof.
  unfold match_length, match_at, entity_re, lit, mlen_lit. simpl pattern.
  simpl ignoreCase. rewrite m_seq_of_lits. simpl after.
  rewrite prefix_ci_false.
  destruct (starts_with (js e) s) eqn:E; [|reflexivity].
  f_equal. apply (@length_before_advance (length (js e)) (MState pre s [])).
  now apply starts_with_length.
Qed.

Lemma replace_entity (e : string) (r s : jsstring) :
  replace s (entity_re e) r = gsub (mlen_lit (js e)) (expand r) s 0.
Proof.
  unfold replace. simpl global.
  apply replace_from_gsub. apply match_length_lit.
Qed.

(** *** The tag pattern *)

Lemma not_gt_class x :
  class_matches false true [CChar (ch ">")] x = negb (N.eqb x (ch ">")).
Proof.
  unfold class_matches, item_matches. simpl.
  now rewrite !orb_false_r, N.eqb_sym.
Qed.

Lemma m_char_cons c x pre s cs :
  m false (Seq (Char c) Empty) (MState pre (x :: s) cs) =
  if N.eqb x c then [MState (x :: pre) s cs] else [].
Proof.
  cbn [m]. unfold step_if. cbn [after before caps].
  unfold char_matches, canon. now destruct (N.eqb x c).
Qed.

(** After the greedy [[^>]*], the [>] can only be taken at the first [>]
    of the text. *)
Lemma star_then_gt : forall fuel s pre cs,
  length s < fuel ->
  flat_map (m false (Seq (Char (ch ">")) Empty))
           (star_loop (m false (Class true [CChar (ch ">")])) true fuel
                      (MState pre s cs)) =
  match index_of (ch ">") s with
  | Some i => [MState (rev (firstn (S i) s) ++ pre) (skipn (S i) s) cs]
  | None => []
  end.
Proof.
  induction fuel as [|fuel IH]; intros s pre cs Hlen; [lia|].
  destruct s as [|x s].
  - reflexivity.
  - cbn [star_loop]. rewrite flat_map_app, flat_map_single, m_char_cons.
    change (m false (Class true [CChar (ch ">")]) (MState pre (x :: s) cs))
      with (step_if (class_matches false true [CChar (ch ">")])
                    (MState pre (x :: s) cs)).
    unfold step_if at 1. cbn [after before caps]. rewrite not_gt_class.
    cbn [index_of].
    destruct (N.eqb x (ch ">")) eqn:E.
    + reflexivity.
    + cbn [negb]. rewrite flat_map_single.
      unfold progress at 1. cbn [after].
      replace (length s <? length (x :: s)) with true
        by (symmetry; apply Nat.ltb_lt; simpl; lia).
      rewrite IH by (simpl in Hlen; lia).
      rewrite app_nil_r.
      destruct (index_of (ch ">") s) as [i|]; [|reflexivity].
      cbn [option_map]. f_equal. f_equal.
      change (firstn (S (S i)) (x :: s)) with (x :: firstn (S i) s).
      cbn [rev]. now rewrite <- app_assoc.
Qed.

Lemma index_of_length c s i : index_of c s = Some i -> i < length s.
Proof.
  revert i; induction s as [|x s IH]; intros i; simpl; [discriminate|].
  destruct (N.eqb x c); [intros [= <-]; lia|].
  destruct (index_of c s) as [j|]; simpl; [|discriminate].
  intros [= <-]. specialize (IH j eq_refl). lia.
Qed.

Lemma m_tag pre s cs :
  m false (pattern tag_re) (MState pre s cs) =
  match s with
  | x :: s' =>
      if N.eqb x (ch "<") then
        match index_of (ch ">") s' with
        | Some i =>
            [MState (rev (firstn (S i) s') ++ x :: pre) (skipn (S i) s') cs]
        | None => []
        end
      else []
  | [] => []
  end.
Proof.
  unfold tag_re. cbn [pattern seq_of fold_right].
  rewrite m_Seq, m_Char.
  destruct s as [|x s]; [reflexivity|].
  rewrite step_if_cons. unfold char_matches, canon.
  destruct (N.eqb x (ch "<")); [|reflexivity].
  rewrite flat_map_single, m_Seq, m_Star. cbn [after].
  apply star_then_gt. lia.
Qed.

Lemma match_length_tag pre s : match_length tag_re pre s = mlen_tag s.
Proof.
  unfold match_length, match_at, mlen_tag. simpl ignoreCase.
  rewrite m_tag.
  destruct s as [|x s]; [reflexivity|].
  destruct (N.eqb x (ch "<")); [|reflexivity].
  destruct (index_of (ch ">") s) as [i|] eqn:E; [|reflexivity].
  cbn [option_map before]. f_equal.
  apply index_of_length in E.
  rewrite length_app, length_rev, length_firstn. cbn [length]. lia.
Qed.

Lemma replace_tag (r s : jsstring) :
  replace s tag_re r = gsub mlen_tag (expand r) s 0.
Proof.
  unfold replace. simpl global.
  apply replace_from_gsub. apply match_length_tag.
Qed.

(** *** The white-space pattern *)

(** The first end a greedy repetition of a one-character step offers is
    the end of the longest run. *)
Lemma star_loop_longest (p : N -> bool) : forall fuel s pre cs,
  length s < fuel ->
  exists tl,
    star_loop (step_if p) true fuel (MState pre s cs) =
    MState (rev (firstn (run_length p s) s) ++ pre)
           (skipn (run_length p s) s) cs :: tl.
Proof.
  induction fuel as [|fuel IH]; intros s pre cs Hlen; [lia|].
  cbn [star_loop].
  destruct s as [|x s].
  - exists []. reflexivity.
  - rewrite step_if_cons. cbn [run_length]. destruct (p x) eqn:E.
    + rewrite flat_map_single.
      unfold progress. cbn [after].
      replace (length s <? length (x :: s)) with true
        by (symmetry; apply Nat.ltb_lt; simpl; lia).
      destruct (IH s (x :: pre) cs) as [tl Htl]; [simpl in Hlen; lia|].
      rewrite Htl. exists (tl ++ [MState pre (x :: s) cs]).
      cbn [app firstn skipn rev].
      rewrite <- app_assoc. reflexivity.
    + exists []. reflexivity.
Qed.

Lemma run_length_le p s : run_length p s <= length s.
Proof.
  induction s as [|x s IH]; simpl; [lia|]. destruct (p x); simpl; lia.
Qed.

Lemma space_class x : class_matches false false [CEsc ESpace false] x = is_space x.
Proof.
  unfold class_matches, item_matches. simpl. now rewrite !orb_false_r.
Qed.

Lemma run_length_ext p q s :
  (forall x, p x = q x) -> run_length p s = run_length q s.
Proof.
  intros H. induction s as [|y s IH]; [reflexivity|].
  simpl. now rewrite H, IH.
Qed.

Lemma match_length_spaces pre s :
  match_length spaces_re pre s = mlen_spaces s.
Proof.
  unfold match_length, match_at, spaces_re, mlen_spaces.
  cbn [pattern ignoreCase seq_of fold_right].
  rewrite m_Seq, flat_map_m_Empty, m_Plus, m_Class.
  destruct s as [|x s]; [reflexivity|].
  rewrite step_if_cons, space_class. cbn [run_length].
  destruct (is_space x); [|reflexivity].
  rewrite flat_map_single.
  change (m false (Class false [CEsc ESpace false]))
    with (step_if (class_matches false false [CEsc ESpace false])).
  destruct (star_loop_longest (class_matches false false [CEsc ESpace false])
              (S (length (x :: s))) s (x :: pre) []) as [tl Htl];
    [simpl; lia|].
  cbn [after]. rewrite Htl. cbn [before].
  f_equal.
  rewrite length_app, length_rev, length_firstn.
  rewrite (run_length_ext _ is_space s space_class).
  pose proof (run_length_le is_space s). cbn [length]. lia.
Qed.

Lemma replace_spaces (r s : jsstring) :
  replace s spaces_re r = gsub mlen_spaces (expand r) s 0.
Proof.
  unfold replace. simpl global.
  apply replace_from_gsub. apply match_length_spaces.
Qed.

(** *** The class of metacharacters *)

Lemma class_of_chars (l : jsstring) (c : N) :
  class_matches false false (map CChar l) c = existsb (N.eqb c) l.
Proof.
  unfold class_matches. simpl xorb.
  induction l as [|a l IH]; [reflexivity|].
  simpl. unfold item_matches at 1. simpl.
  now rewrite orb_false_r, IH, N.eqb_sym.
Qed.

Lemma match_length_meta pre s : match_length escape_re pre s = mlen_meta s.
Proof.
  unfold match_length, match_at, escape_re, mlen_meta.
  cbn [pattern ignoreCase seq_of fold_right].
  rewrite m_Seq, flat_map_m_Empty, m_Class.
  destruct s as [|x s]; [reflexivity|].
  rewrite step_if_cons, class_of_chars. fold (is_meta x).
  destruct (is_meta x); [|reflexivity].
  cbn [before length]. f_equal. lia.
Qed.

Lemma gsub_meta : forall s,
  gsub mlen_meta (expand (backslash :: js "$&")) s 0 = escaped s.
Proof.
  induction s as [|c s IH]; [reflexivity|].
  cbn [gsub mlen_meta escaped flat_map].
  destruct (is_meta c).
  - cbn [firstn]. rewrite IH. reflexivity.
  - now rewrite IH.
Qed.

(** [escapeKeyword] puts a backslash before every metacharacter and
    changes nothing else. *)
Lemma escapeKeyword_escaped kw : escapeKeyword kw = escaped kw.
Proof.
  unfold escapeKeyword, replace. simpl global.
  rewrite (replace_from_gsub _ _ _ match_length_meta).
  apply gsub_meta.
Qed.

(** *** The patterns of the program *)

(** The text of each regular-expression literal of the source compiles to
    the pattern the program is given here. *)
Lemma source_patterns_compile :
  new_RegExp (js "[.*+?^${}()|[\]\\]") (js "g") = Ok escape_re /\
  new_RegExp (js "&lt;") (js "g") = Ok (entity_re "&lt;") /\
  new_RegExp (js "&gt;") (js "g") = Ok (entity_re "&gt;") /\
  new_RegExp (js "&amp;") (js "g") = Ok (entity_re "&amp;") /\
  new_RegExp (js "&quot;") (js "g") = Ok (entity_re "&quot;") /\
  new_RegExp (js "&#39;") (js "g") = Ok (entity_re "&#39;") /\
  new_RegExp (js "<[^>]*>") (js "g") = Ok tag_re /\
  new_RegExp (js "\s+") (js "g") = Ok spaces_re /\
  new_RegExp (js "greenhouse\.io\/([^\/\?]+)") (js "i") =
    Ok (host_re "greenhouse.io/") /\
  new_RegExp (js "boards\.greenhouse\.io\/([^\/\?]+)") (js "i") =
    Ok (host_re "boards.greenhouse.io/") /\
  new_RegExp (js "job-boards\.greenhouse\.io\/([^\/\?]+)") (js "i") =
    Ok (host_re "job-boards.greenhouse.io/") /\
  new_RegExp (js "job-boards\.eu\.greenhouse\.io\/([^\/\?]+)") (js "i") =
    Ok (host_re "job-boards.eu.greenhouse.io/").
Proof. repeat split; vm_compute; reflexivity. Qed.

(* ================================================================== *)
(** ** The content sanitizer *)
(* ================================================================== *)

(** *** Occurrences *)

Lemma starts_with_iff p s : starts_with p s = true <-> exists b, s = p ++ b.
Proof.
  revert s; induction p as [|c p IH]; intros s; simpl.
  - split; [intros _; now exists s | reflexivity].
  - destruct s as [|x s].
    + split; [discriminate | intros [b Hb]; discriminate].
    + rewrite andb_true_iff, N.eqb_eq, IH. split.
      * intros [-> [b ->]]. now exists b.
      * intros [b [= -> ->]]. split; [reflexivity | now exists b].
Qed.

Lemma occurs_nil q : occurs q [] -> q = [].
Proof.
  intros (a & b & H). symmetry in H.
  apply app_eq_nil in H. destruct H as [_ H].
  now apply app_eq_nil in H.
Qed.

Lemma occurs_cons q x t :
  occurs q (x :: t) -> (exists b, x :: t = q ++ b) \/ occurs q t.
Proof.
  intros (a & b & H). destruct a as [|y a].
  - left. now exists b.
  - right. injection H as _ H. now exists a, b.
Qed.

Lemma occurs_cons_r q x t : occurs q t -> occurs q (x :: t).
Proof. intros (a & b & ->). now exists (x :: a), b. Qed.

Lemma occurs_prefix q t : (exists b, t = q ++ b) -> occurs q t.
Proof. intros [b ->]. now exists [], b. Qed.

Lemma occurs_app q a t b : occurs q t -> occurs q (a ++ t ++ b).
Proof.
  intros (a' & b' & ->). exists (a ++ a'), (b' ++ b).
  now rewrite <- !app_assoc.
Qed.

Lemma includes_iff s q : includes s q = true <-> occurs q s.
Proof.
  induction s as [|x s IH].
  - simpl. rewrite orb_false_r, starts_with_iff. split.
    + apply occurs_prefix.
    + intros H. apply occurs_nil in H. subst q. now exists [].
  - cbn [includes]. rewrite orb_true_iff, starts_with_iff, IH. split.
    + intros [H|H]; [now apply occurs_prefix | now apply occurs_cons_r].
    + apply occurs_cons.
Qed.

(** *** Replacing segments by one code unit *)

Lemma Subst_prefix c s t : Subst c s t ->
  forall q, ~ In c q -> (exists b, t = q ++ b) -> exists b, s = q ++ b.
Proof.
  induction 1 as [|x s t H IH|seg s t Hseg H IH]; intros q Hc [b Hb].
  - destruct q; [now exists [] | discriminate].
  - destruct q as [|y q]; [now exists (x :: s)|].
    injection Hb as <- Hb.
    destruct (IH q) as [b' ->];
      [intros Hin; apply Hc; now right | now exists b |].
    now exists b'.
  - destruct q as [|y q]; [now exists (seg ++ s)|].
    injection Hb as <- _. exfalso. apply Hc. now left.
Qed.

Lemma Subst_occurs c s t : Subst c s t ->
  forall q, ~ In c q -> q <> [] -> occurs q t -> occurs q s.
Proof.
  induction 1 as [|x s t H IH|seg s t Hseg H IH]; intros q Hc Hq Ho.
  - apply occurs_nil in Ho. contradiction.
  - apply occurs_cons in Ho. destruct Ho as [Hp|Ho].
    + apply occurs_prefix.
      apply (Subst_prefix c (x :: s) (x :: t)); [now constructor | | ]; assumption.
    + apply occurs_cons_r. now apply IH.
  - apply occurs_cons in Ho. destruct Ho as [[b Hb]|Ho].
    + destruct q as [|y q]; [contradiction|].
      injection Hb as <- _. exfalso. apply Hc. now left.
    + specialize (IH q Hc Hq Ho).
      apply (occurs_app q seg s []) in IH.
      now rewrite app_nil_r in IH.
Qed.

Lemma Subst_In c s t : Subst c s t ->
  forall d, d <> c -> In d t -> In d s.
Proof.
  induction 1 as [|x s t H IH|seg s t Hseg H IH]; intros d Hd Hin.
  - assumption.
  - destruct Hin as [->|Hin]; [now left | right; now apply IH].
  - destruct Hin as [->|Hin]; [contradiction|].
    apply in_or_app. right. now apply IH.
Qed.

(** *** Facts about [gsub] *)

Section GsubFacts.
Variable mlen : jsstring -> option nat.
Variable r : jsstring -> jsstring.
Variable c : N.
Hypothesis r_const : forall x, r x = [c].
Hypothesis mlen_proper :
  forall s len, mlen s = Some len -> 0 < len <= length s.

Lemma gsub_Subst : forall s skip,
  skip <= length s -> Subst c (skipn skip s) (gsub mlen r s skip).
Proof.
  induction s as [|x s IH]; intros skip Hs.
  - simpl in Hs. replace skip with 0 by lia. simpl.
    destruct (mlen []) as [len|] eqn:E; [|constructor].
    apply mlen_proper in E. simpl in E. lia.
  - destruct skip as [|k].
    + cbn [gsub skipn].
      destruct (mlen (x :: s)) as [len|] eqn:E.
      * apply mlen_proper in E. destruct len as [|k]; [lia|].
        rewrite r_const. cbn [app].
        assert (H : Subst c ((x :: firstn k s) ++ skipn k s)
                          (c :: gsub mlen r s k)).
        { apply Subst_cut; [discriminate|]. apply IH. simpl in E. lia. }
        cbn [app] in H. now rewrite firstn_skipn in H.
      * apply Subst_keep. apply (IH 0). lia.
    + cbn [gsub skipn]. apply IH. simpl in Hs. lia.
Qed.

Lemma gsub_Subst_0 s : Subst c s (gsub mlen r s 0).
Proof. apply (gsub_Subst s 0). lia. Qed.

(** Where nothing matches, nothing changes. *)
Lemma gsub_id : forall s,
  (forall a b, s = a ++ b -> mlen b = None) -> gsub mlen r s 0 = s.
Proof.
  induction s as [|x s IH]; intros H.
  - simpl. now rewrite (H [] []).
  - cbn [gsub]. rewrite (H [] (x :: s)) by reflexivity.
    f_equal. apply IH. intros a b ->. now apply (H (x :: a) b).
Qed.
End GsubFacts.

(** *** Literal replacement *)

Lemma mlen_lit_proper p : p <> [] ->
  forall s len, mlen_lit p s = Some len -> 0 < len <= length s.
Proof.
  intros Hp s len. unfold mlen_lit.
  destruct (starts_with p s) eqn:E; [|discriminate].
  intros [= <-]. apply starts_with_length in E.
  destruct p; [contradiction | simpl in *; lia].
Qed.

Section Literal.
Variable p : jsstring.
Variable r : jsstring -> jsstring.
Variable c : N.
Hypothesis p_nonempty : p <> [].
Hypothesis c_fresh : ~ In c p.
Hypothesis r_const : forall x, r x = [c].

(** After the replacement the literal does not occur any more. *)
Lemma gsub_lit_clean : forall s skip,
  skip <= length s -> ~ occurs p (gsub (mlen_lit p) r s skip).
Proof.
  induction s as [|x s IH]; intros skip Hs Ho.
  - assert (E : gsub (mlen_lit p) r [] skip = []).
    { destruct skip; [|reflexivity]. simpl. unfold mlen_lit.
      destruct p; [contradiction | reflexivity]. }
    rewrite E in Ho. apply occurs_nil in Ho. contradiction.
  - destruct skip as [|k].
    + pose proof (gsub_Subst_0 (mlen_lit p) r c r_const
                    (mlen_lit_proper p p_nonempty) (x :: s)) as HS.
      cbn [gsub] in Ho, HS.
      destruct (mlen_lit p (x :: s)) as [len|] eqn:E.
      * pose proof (mlen_lit_proper p p_nonempty _ _ E) as Hl.
        destruct len as [|k]; [lia|].
        rewrite r_const in Ho. cbn [app] in Ho.
        apply occurs_cons in Ho. destruct Ho as [[b Hb]|Ho].
        -- destruct p as [|y q]; [contradiction|].
           injection Hb as <- _. apply c_fresh. now left.
        -- apply (IH k); [simpl in Hl; lia | exact Ho].
      * apply occurs_cons in Ho. destruct Ho as [Hp|Ho].
        -- apply (Subst_prefix c _ _ HS p c_fresh) in Hp.
           apply starts_with_iff in Hp. unfold mlen_lit in E.
           now rewrite Hp in E.
        -- apply (IH 0); [lia | exact Ho].
    + cbn [gsub] in Ho. apply (IH k); [simpl in Hs; lia | exact Ho].
Qed.

(** A text without the literal is left alone. *)
Lemma gsub_lit_id s : ~ occurs p s -> gsub (mlen_lit p) r s 0 = s.
Proof.
  intros H. apply gsub_id. intros a b ->. unfold mlen_lit.
  destruct (starts_with p b) eqn:E; [|reflexivity].
  exfalso. apply H. apply starts_with_iff in E. destruct E as [b' ->].
  now exists a, b'.
Qed.

(** No other text without [c] comes into being. *)
Lemma gsub_lit_keeps q s :
  q <> [] -> ~ In c q -> ~ occurs q s ->
  ~ occurs q (gsub (mlen_lit p) r s 0).
Proof.
  intros Hq Hc H Ho. apply H.
  apply (Subst_occurs c s (gsub (mlen_lit p) r s 0)); try assumption.
  apply gsub_Subst_0; [assumption | now apply mlen_lit_proper].
Qed.
End Literal.

(** *** Tag stripping *)

Lemma index_of_None c s : index_of c s = None -> ~ In c s.
Proof.
  induction s as [|x s IH]; simpl; [tauto|].
  destruct (N.eqb x c) eqn:E; [discriminate|].
  destruct (index_of c s); [discriminate|].
  intros _ [->|H]; [now rewrite N.eqb_refl in E | now apply IH].
Qed.

Lemma index_of_Some c s i : index_of c s = Some i -> In c s.
Proof.
  revert i; induction s as [|x s IH]; intros i; simpl; [discriminate|].
  destruct (N.eqb x c) eqn:E.
  - apply N.eqb_eq in E. now left.
  - destruct (index_of c s) as [j|]; [|discriminate].
    intros _. right. now apply (IH j).
Qed.

Lemma mlen_tag_proper s len : mlen_tag s = Some len -> 0 < len <= length s.
Proof.
  unfold mlen_tag. destruct s as [|x s]; [discriminate|].
  destruct (N.eqb x (ch "<")); [|discriminate].
  destruct (index_of (ch ">") s) as [i|] eqn:E; [|discriminate].
  intros [= <-]. apply index_of_length in E. simpl. lia.
Qed.

Lemma tagless_nil : tagless [].
Proof. intros a b H. destruct a; discriminate. Qed.

Lemma tagless_cons x t :
  tagless t -> (x = ch "<" -> ~ In (ch ">") t) -> tagless (x :: t).
Proof.
  intros Ht Hx a b H. destruct a as [|y a].
  - injection H as -> ->. now apply Hx.
  - injection H as _ ->. now apply (Ht a b).
Qed.

Lemma tagless_tail x t : tagless (x :: t) -> tagless t.
Proof. intros H a b ->. now apply (H (x :: a) b). Qed.

Lemma tagless_segment a t b : tagless (a ++ t ++ b) -> tagless t.
Proof.
  intros H a' b' ->. intros Hin.
  apply (H (a ++ a') (b' ++ b)).
  - now rewrite <- !app_assoc.
  - apply in_or_app. now left.
Qed.

Section Tags.
Variable r : jsstring -> jsstring.
Hypothesis r_const : forall x, r x = [32%N].

Lemma gsub_tag_tagless : forall s skip,
  skip <= length s -> tagless (gsub mlen_tag r s skip).
Proof.
  induction s as [|x s IH]; intros skip Hs.
  - destruct skip; simpl; apply tagless_nil.
  - destruct skip as [|k]; [|cbn [gsub]; apply IH; simpl in Hs; lia].
    cbn [gsub]. destruct (mlen_tag (x :: s)) as [len|] eqn:E.
    + pose proof (mlen_tag_proper _ _ E) as Hl.
      destruct len as [|k]; [lia|].
      rewrite r_const. cbn [app]. apply tagless_cons.
      * apply IH. simpl in Hl. lia.
      * discriminate.
    + apply tagless_cons; [apply IH; lia|].
      intros -> Hin. unfold mlen_tag in E. rewrite N.eqb_refl in E.
      destruct (index_of (ch ">") s) eqn:Ei; [discriminate|].
      apply (index_of_None _ _ Ei).
      apply (Subst_In 32%N s (gsub mlen_tag r s 0)); try assumption.
      * apply gsub_Subst_0; [assumption | apply mlen_tag_proper].
      * discriminate.
Qed.

Lemma gsub_tag_id s : tagless s -> gsub mlen_tag r s 0 = s.
Proof.
  intros H. apply gsub_id. intros a b ->. unfold mlen_tag.
  destruct b as [|x b]; [reflexivity|].
  destruct (N.eqb x (ch "<")) eqn:E; [|reflexivity].
  destruct (index_of (ch ">") b) as [i|] eqn:Ei; [|reflexivity].
  exfalso. apply N.eqb_eq in E. subst x.
  apply (H a b eq_refl). now apply (index_of_Some _ _ i).
Qed.
End Tags.

Lemma Subst_tagless c s t :
  Subst c s t -> c <> ch "<" -> c <> ch ">" -> tagless s -> tagless t.
Proof.
  induction 1 as [|x s t H IH|seg s t Hseg H IH]; intros Hlt Hgt Hs.
  - assumption.
  - apply tagless_cons.
    + apply IH; try assumption. now apply tagless_tail in Hs.
    + intros -> Hin. apply (Hs [] s eq_refl).
      apply (Subst_In c s t H); [now apply not_eq_sym | exact Hin].
  - apply tagless_cons.
    + apply IH; try assumption.
      apply (tagless_segment seg s []). now rewrite app_nil_r.
    + intros ->. contradiction.
Qed.

(** *** White space *)

Lemma mlen_spaces_proper s len :
  mlen_spaces s = Some len -> 0 < len <= length s.
Proof.
  unfold mlen_spaces. pose proof (run_length_le is_space s).
  destruct (run_length is_space s); [discriminate|].
  intros [= <-]. lia.
Qed.

Lemma gsub_skipn mlen r : forall s skip,
  skip <= length s -> gsub mlen r s skip = gsub mlen r (skipn skip s) 0.
Proof.
  induction s as [|x s IH]; intros skip Hs.
  - simpl in Hs. now replace skip with 0 by lia.
  - destruct skip as [|k]; [reflexivity|].
    cbn [gsub skipn]. apply IH. simpl in Hs. lia.
Qed.

Lemma skipn_run_length p s :
  match skipn (run_length p s) s with
  | y :: _ => p y = false
  | [] => True
  end.
Proof.
  induction s as [|x s IH]; [exact I|].
  cbn [run_length]. destruct (p x) eqn:E; [exact IH | exact E].
Qed.

Section Spaces.
Variable r : jsstring -> jsstring.
Hypothesis r_const : forall x, r x = [32%N].

Lemma gsub_spaces_nil skip : gsub mlen_spaces r [] skip = [].
Proof. destruct skip; reflexivity. Qed.

(** What follows a replaced run is not white space. *)
Lemma gsub_spaces_head s :
  no_lead_space (gsub mlen_spaces r s (run_length is_space s)) = true.
Proof.
  rewrite gsub_skipn by apply run_length_le.
  pose proof (skipn_run_length is_space s) as H.
  destruct (skipn (run_length is_space s) s) as [|y t] eqn:E.
  - reflexivity.
  - cbn [gsub]. unfold mlen_spaces. cbn [run_length]. rewrite H.
    simpl. now rewrite H.
Qed.

Lemma gsub_spaces_spaced : forall s skip,
  skip <= length s -> spaced (gsub mlen_spaces r s skip) = true.
Proof.
  induction s as [|x s IH]; intros skip Hs.
  - now rewrite gsub_spaces_nil.
  - destruct skip as [|k]; [|cbn [gsub]; apply IH; simpl in Hs; lia].
    cbn [gsub]. unfold mlen_spaces. cbn [run_length].
    destruct (is_space x) eqn:E.
    + rewrite r_const. cbn [app spaced].
      replace (is_space 32) with true by reflexivity.
      rewrite gsub_spaces_head, IH by apply run_length_le.
      reflexivity.
    + cbn [spaced]. rewrite E. apply IH. lia.
Qed.

Lemma gsub_spaces_id : forall s,
  spaced s = true -> gsub mlen_spaces r s 0 = s.
Proof.
  induction s as [|x s IH]; intros H; [reflexivity|].
  cbn [spaced] in H. apply andb_prop in H. destruct H as [Hx Hs].
  cbn [gsub]. unfold mlen_spaces at 1. cbn [run_length].
  destruct (is_space x) eqn:E.
  - apply andb_prop in Hx. destruct Hx as [Hx Hn].
    apply N.eqb_eq in Hx. subst x.
    assert (R : run_length is_space s = 0).
    { destruct s as [|y s']; [reflexivity|]. simpl in Hn. simpl.
      now destruct (is_space y). }
    rewrite R. cbv beta iota. rewrite r_const. cbn [app]. now rewrite IH.
  - now rewrite IH.
Qed.
End Spaces.

Lemma spaced_app a b : spaced (a ++ b) = true -> spaced a = true /\ spaced b = true.
Proof.
  induction a as [|x a IH]; intros H; [now split|].
  cbn [app spaced] in H. apply andb_prop in H. destruct H as [Hx H].
  apply IH in H. destruct H as [Ha Hb]. split; [|assumption].
  cbn [spaced]. rewrite Ha, andb_true_r.
  destruct (is_space x); [|reflexivity].
  apply andb_prop in Hx. destruct Hx as [-> Hn].
  destruct a; [reflexivity | exact Hn].
Qed.

(** *** [trim] *)

Lemma drop_spaces_suffix s : exists a, s = a ++ drop_spaces s.
Proof.
  induction s as [|x s [a Ha]]; [now exists []|].
  simpl. destruct (is_space x).
  - exists (x :: a). simpl. now f_equal.
  - now exists [].
Qed.

Lemma no_lead_drop_spaces s : no_lead_space (drop_spaces s) = true.
Proof.
  induction s as [|x s IH]; [reflexivity|].
  simpl. destruct (is_space x) eqn:E; [exact IH|]. simpl. now rewrite E.
Qed.

Lemma drop_spaces_id s : no_lead_space s = true -> drop_spaces s = s.
Proof.
  destruct s as [|x s]; [reflexivity|]. simpl.
  now destruct (is_space x).
Qed.

Lemma trim_segment s : exists a b, s = a ++ trim s ++ b.
Proof.
  unfold trim.
  destruct (drop_spaces_suffix s) as [a Ha].
  destruct (drop_spaces_suffix (rev (drop_spaces s))) as [b Hb].
  exists a, (rev b).
  rewrite <- rev_app_distr, <- Hb, rev_involutive. exact Ha.
Qed.

Lemma trim_no_lead s : no_lead_space (trim s) = true.
Proof.
  unfold trim.
  destruct (drop_spaces_suffix (rev (drop_spaces s))) as [b Hb].
  pose proof (no_lead_drop_spaces s) as H.
  apply (f_equal (@rev N)) in Hb.
  rewrite rev_involutive, rev_app_distr in Hb.
  destruct (rev (drop_spaces (rev (drop_spaces s)))) as [|y t] eqn:E;
    [reflexivity|].
  rewrite Hb in H. exact H.
Qed.

Lemma trim_idempotent s : trim (trim s) = trim s.
Proof.
  unfold trim at 1.
  rewrite (drop_spaces_id (trim s)) by apply trim_no_lead.
  unfold trim. rewrite rev_involutive.
  rewrite (drop_spaces_id (drop_spaces _)) by apply no_lead_drop_spaces.
  reflexivity.
Qed.

(** *** The chain of [decodeHtml] *)

Lemma sanitize_chain s :
  sanitize s = trim (collapsed (stripped (decoded s))).
Proof.
  unfold sanitize, collapsed, stripped, decoded.
  now rewrite !replace_entity, replace_tag, replace_spaces.
Qed.

Lemma expand_space x : expand (js " ") x = [32%N].
Proof. reflexivity. Qed.

Ltac absent := cbv; intuition discriminate.

Lemma stripped_Subst s : Subst 32 s (stripped s).
Proof. apply gsub_Subst_0; [apply expand_space | apply mlen_tag_proper]. Qed.

Lemma collapsed_Subst s : Subst 32 s (collapsed s).
Proof. apply gsub_Subst_0; [apply expand_space | apply mlen_spaces_proper]. Qed.

Lemma sanitize_tagless s : tagless (sanitize s).
Proof.
  rewrite sanitize_chain.
  destruct (trim_segment (collapsed (stripped (decoded s)))) as (a & b & H).
  apply (tagless_segment a _ b). rewrite <- H.
  apply (Subst_tagless 32 _ _ (collapsed_Subst _)); try discriminate.
  apply gsub_tag_tagless; [apply expand_space | lia].
Qed.

Lemma sanitize_spaced s : spaced (sanitize s) = true.
Proof.
  rewrite sanitize_chain.
  destruct (trim_segment (collapsed (stripped (decoded s)))) as (a & b & H).
  assert (S7 : spaced (collapsed (stripped (decoded s))) = true)
    by (apply gsub_spaces_spaced; [apply expand_space | lia]).
  rewrite H in S7. apply spaced_app in S7. destruct S7 as [_ S7].
  now apply spaced_app in S7.
Qed.

Lemma sanitize_trimmed s : trim (sanitize s) = sanitize s.
Proof. rewrite sanitize_chain. apply trim_idempotent. Qed.

(** Decoding leaves no entity behind unless [&amp;] was there to make
    one. *)
Lemma decoded_entity_free s :
  ~ occurs (js "&amp;") s -> entity_free (decoded s).
Proof.
  intros Hamp. unfold decoded.
  set (x1 := gsub (mlen_lit (js "&lt;")) (expand (js "<")) s 0).
  set (x2 := gsub (mlen_lit (js "&gt;")) (expand (js ">")) x1 0).
  assert (L1 : ~ occurs (js "&lt;") x1).
  { apply (gsub_lit_clean _ _ (ch "<")); [discriminate | absent | reflexivity | lia]. }
  assert (A1 : ~ occurs (js "&amp;") x1).
  { apply (gsub_lit_keeps _ _ (ch "<"));
      [discriminate | reflexivity | discriminate | absent | exact Hamp]. }
  assert (G2 : ~ occurs (js "&gt;") x2).
  { apply (gsub_lit_clean _ _ (ch ">")); [discriminate | absent | reflexivity | lia]. }
  assert (L2 : ~ occurs (js "&lt;") x2).
  { apply (gsub_lit_keeps _ _ (ch ">"));
      [discriminate | reflexivity | discriminate | absent | exact L1]. }
  assert (A2 : ~ occurs (js "&amp;") x2).
  { apply (gsub_lit_keeps _ _ (ch ">"));
      [discriminate | reflexivity | discriminate | absent | exact A1]. }
  rewrite (gsub_lit_id (js "&amp;") _ x2 A2).
  set (x4 := gsub (mlen_lit (js "&quot;")) (expand [dquote]) x2 0).
  assert (Q4 : ~ occurs (js "&quot;") x4).
  { apply (gsub_lit_clean _ _ dquote); [discriminate | absent | reflexivity | lia]. }
  assert (L4 : ~ occurs (js "&lt;") x4).
  { apply (gsub_lit_keeps _ _ dquote);
      [discriminate | reflexivity | discriminate | absent | exact L2]. }
  assert (G4 : ~ occurs (js "&gt;") x4).
  { apply (gsub_lit_keeps _ _ dquote);
      [discriminate | reflexivity | discriminate | absent | exact G2]. }
  assert (A4 : ~ occurs (js "&amp;") x4).
  { apply (gsub_lit_keeps _ _ dquote);
      [discriminate | reflexivity | discriminate | absent | exact A2]. }
  intros e He. simpl in He.
  destruct He as [<-|[<-|[<-|[<-|[<-|[]]]]]].
  - apply (gsub_lit_keeps _ _ (ch "'"));
      [discriminate | reflexivity | discriminate | absent | exact L4].
  - apply (gsub_lit_keeps _ _ (ch "'"));
      [discriminate | reflexivity | discriminate | absent | exact G4].
  - apply (gsub_lit_keeps _ _ (ch "'"));
      [discriminate | reflexivity | discriminate | absent | exact A4].
  - apply (gsub_lit_keeps _ _ (ch "'"));
      [discriminate | reflexivity | discriminate | absent | exact Q4].
  - apply (gsub_lit_clean _ _ (ch "'")); [discriminate | absent | reflexivity | lia].
Qed.

Lemma entity_fresh e : In e entities -> js e <> [] /\ ~ In 32%N (js e).
Proof.
  simpl. intros [<-|[<-|[<-|[<-|[<-|[]]]]]]; split; try discriminate; absent.
Qed.

Lemma Subst_entity_free s t :
  Subst 32 s t -> entity_free s -> entity_free t.
Proof.
  intros HS H e He Ho. apply (H e He).
  destruct (entity_fresh e He) as [Hne Hfr].
  now apply (Subst_occurs 32 s t HS).
Qed.

Lemma sanitize_entity_free s :
  ~ occurs (js "&amp;") s -> entity_free (sanitize s).
Proof.
  intros H. rewrite sanitize_chain.
  assert (F : entity_free (collapsed (stripped (decoded s)))).
  { apply (Subst_entity_free _ _ (collapsed_Subst _)).
    apply (Subst_entity_free _ _ (stripped_Subst _)).
    now apply decoded_entity_free. }
  destruct (trim_segment (collapsed (stripped (decoded s)))) as (a & b & E).
  intros e He Ho. apply (F e He). rewrite E. now apply occurs_app.
Qed.

(** A text with no entity, no tag and normal white space is a fixed point
    of the sanitizer. *)
Lemma sanitize_fixed t :
  entity_free t -> tagless t -> spaced t = true -> trim t = t ->
  sanitize t = t.
Proof.
  intros HE HT HS Htrim. rewrite sanitize_chain.
  assert (D : decoded t = t).
  { unfold decoded.
    rewrite (gsub_lit_id (js "&lt;")) by (apply HE; simpl; tauto).
    rewrite (gsub_lit_id (js "&gt;")) by (apply HE; simpl; tauto).
    rewrite (gsub_lit_id (js "&amp;")) by (apply HE; simpl; tauto).
    rewrite (gsub_lit_id (js "&quot;")) by (apply HE; simpl; tauto).
    apply gsub_lit_id. apply HE; simpl; tauto. }
  rewrite D. unfold stripped. rewrite gsub_tag_id by assumption.
  unfold collapsed. rewrite gsub_spaces_id; [assumption | apply expand_space | assumption].
Qed.

(* ================================================================== *)
(** ** The keyword pattern *)
(* ================================================================== *)

(** *** Compilation *)

Ltac eval_ch :=
  repeat match goal with
         | |- context [ch ?a] =>
             let v := eval vm_compute in (ch a) in change (ch a) with v
         | H : context [ch ?a] |- _ =>
             let v := eval vm_compute in (ch a) in change (ch a) with v in H
         end.

Lemma is_meta_spec c :
  is_meta c = existsb (N.eqb c) [46; 42; 43; 63; 94; 36; 123; 125; 40; 41; 124; 91; 93; 92]%N.
Proof. reflexivity. Qed.

Lemma parse_plain stack fr n c rest :
  is_meta c = false ->
  parse stack fr MNormal n (c :: rest) =
  parse stack (push_term fr (Char c) true) MNormal n rest.
Proof.
  rewrite is_meta_spec. cbn [existsb]. rewrite !orb_false_iff.
  intros (H1 & H2 & H3 & H4 & H5 & H6 & H7 & H8 & H9 & H10 & H11 & H12 & H13 & H14 & _).
  cbn [parse]. unfold one_of. cbn [js list_ascii_of_string map existsb].
  fold (ch "*") (ch "+") (ch "?").
  unfold backslash. eval_ch.
  now rewrite H9, H10, H11, H2, H3, H4, H7, H12, H14, H1, H5, H6.
Qed.

Lemma parse_escaped_meta stack fr n c rest :
  is_meta c = true ->
  parse stack fr MNormal n (backslash :: c :: rest) =
  parse stack (push_term fr (Char c) true) MNormal n rest.
Proof.
  rewrite is_meta_spec. cbn [existsb]. rewrite !orb_true_iff, !N.eqb_eq.
  intros [->|[->|[->|[->|[->|[->|[->|[->|[->|[->|[->|[->|[->|[->|H]]]]]]]]]]]]]];
    try reflexivity; discriminate.
Qed.

Lemma parse_keyword : forall kw stack fr n rest,
  parse stack fr MNormal n (escaped kw ++ rest) =
  parse stack (push_chars fr kw) MNormal n rest.
Proof.
  induction kw as [|c kw IH]; intros stack fr n rest; [reflexivity|].
  unfold escaped. cbn [flat_map]. fold (escaped kw).
  destruct (is_meta c) eqn:E.
  - cbn [app]. rewrite parse_escaped_meta by assumption. apply IH.
  - cbn [app]. rewrite parse_plain by assumption. apply IH.
Qed.

Lemma push_chars_idx fr kw : f_idx (push_chars fr kw) = f_idx fr.
Proof. revert fr; induction kw as [|c kw IH]; intros fr; [reflexivity|]. simpl. now rewrite IH. Qed.

Lemma push_chars_alts fr kw : f_alts (push_chars fr kw) = f_alts fr.
Proof. revert fr; induction kw as [|c kw IH]; intros fr; [reflexivity|]. simpl. now rewrite IH. Qed.

Lemma push_chars_terms fr kw :
  f_terms (push_chars fr kw) = rev (map Char kw) ++ f_terms fr.
Proof.
  revert fr; induction kw as [|c kw IH]; intros fr; [reflexivity|].
  simpl. rewrite IH. simpl. now rewrite <- app_assoc.
Qed.

Lemma parse_close stack parent fr n rest :
  parse (parent :: stack) fr MNormal n (ch ")" :: rest) =
  parse stack (push_term parent (close_group fr) true) MNormal n rest.
Proof. reflexivity. Qed.

Lemma parse_bar stack fr n rest :
  parse stack fr MNormal n (ch "|" :: rest) =
  parse stack (next_alt fr) MNormal n rest.
Proof. reflexivity. Qed.

Lemma parse_open stack fr n q rest :
  N.eqb q (ch "?") = false ->
  parse stack fr MNormal n (ch "(" :: q :: rest) =
  parse (fr :: stack) (new_frame (S n)) MNormal (S n) (q :: rest).
Proof. intros H. cbn [parse]. eval_ch. simpl N.eqb at 1. eval_ch. cbv iota. now rewrite H. Qed.

Lemma intercalate_cons sep p rest :
  rest <> [] -> intercalate sep (p :: rest) = p ++ sep ++ intercalate sep rest.
Proof. destruct rest; [contradiction | reflexivity]. Qed.

(** The keywords of a list, each escaped and separated by bars, up to the
    closing parenthesis. *)
Lemma parse_keywords : forall kws kw parent stack fr n rest,
  f_terms fr = [] ->
  parse (parent :: stack) fr MNormal n
        (intercalate (js "|") (map escaped (kw :: kws)) ++ ch ")" :: rest) =
  parse stack
        (push_term parent
           (group_of (f_idx fr)
                     (alt_of (rev (f_alts fr) ++ map kw_seq (kw :: kws))))
           true)
        MNormal n rest.
Proof.
  induction kws as [|kw2 kws IH]; intros kw parent stack fr n rest Hfr.
  - cbn [map intercalate]. rewrite parse_keyword, parse_close.
    unfold close_group, finish, group_of.
    rewrite push_chars_idx, push_chars_alts, push_chars_terms, Hfr.
    rewrite app_nil_r, rev_involutive. reflexivity.
  - change (map escaped (kw :: kw2 :: kws))
      with (escaped kw :: map escaped (kw2 :: kws)).
    rewrite intercalate_cons by discriminate.
    rewrite <- !app_assoc, parse_keyword.
    change (js "|" ++ ?x) with (ch "|" :: x).
    rewrite parse_bar, IH by reflexivity.
    unfold next_alt. cbn [f_idx f_alts].
    rewrite push_chars_idx, push_chars_alts, push_chars_terms, Hfr.
    rewrite app_nil_r, rev_involutive. cbn [rev map].
    now rewrite <- app_assoc.
Qed.

Lemma keywords_head : forall kws rest,
  exists q rest',
    intercalate (js "|") (map escaped kws) ++ ch ")" :: rest = q :: rest' /\
    N.eqb q (ch "?") = false.
Proof.
  intros [|kw kws] rest.
  - now exists (ch ")"), rest.
  - destruct kw as [|c kw].
    + destruct kws as [|kw2 kws].
      * now exists (ch ")"), rest.
      * change (map escaped ([] :: kw2 :: kws))
          with ([] :: map escaped (kw2 :: kws)).
        rewrite intercalate_cons by discriminate.
        eexists _, _. split; reflexivity.
    + assert (H : exists q t, escaped (c :: kw) = q :: t /\ N.eqb q (ch "?") = false).
      { unfold escaped. cbn [flat_map]. destruct (is_meta c) eqn:E.
        - eexists _, _. split; reflexivity.
        - eexists _, _. split; [reflexivity|].
          destruct (N.eqb c (ch "?")) eqn:Q; [|reflexivity].
          apply N.eqb_eq in Q. subst c. discriminate. }
      destruct H as (q & t & Ht & Hq). exists q.
      destruct kws as [|kw2 kws].
      * cbn [map intercalate]. rewrite Ht. eexists. split; [reflexivity|assumption].
      * change (map escaped ((c :: kw) :: kw2 :: kws))
          with (escaped (c :: kw) :: map escaped (kw2 :: kws)).
        rewrite intercalate_cons by discriminate. rewrite Ht.
        eexists. split; [reflexivity|assumption].
Qed.

(** The pattern text built from any non-empty keyword list is a valid
    pattern: the alternation of the keywords, taken literally, in a group
    between two word boundaries. *)
Lemma compile_keywordPattern kw kws :
  compile (keywordPattern (kw :: kws)) =
  Compiled (pattern (keyword_regex (kw :: kws))).
Proof.
  unfold compile, keywordPattern.
  replace (map escapeKeyword (kw :: kws)) with (map escaped (kw :: kws))
    by (apply map_ext; intros; symmetry; apply escapeKeyword_escaped).
  change (js "\b(" ++ ?x) with (backslash :: ch "b" :: ch "(" :: x).
  change (js ")\b") with (ch ")" :: js "\b").
  change (parse [] (new_frame 0) MNormal 0 (backslash :: ch "b" :: ?x))
    with (parse [] (push_term (new_frame 0) WordB false) MNormal 0 x).
  destruct (keywords_head (kw :: kws) (js "\b")) as (q & rest' & E & Hq).
  rewrite E, parse_open by assumption. rewrite <- E.
  rewrite parse_keywords by reflexivity.
  reflexivity.
Qed.

Lemma new_RegExp_keywordPattern kw kws :
  new_RegExp (keywordPattern (kw :: kws)) (js "i") =
  Ok (keyword_regex (kw :: kws)).
Proof.
  unfold new_RegExp. rewrite compile_keywordPattern. reflexivity.
Qed.

(** *** Matching *)

Lemma existsb_flat_map {A B} (p : B -> bool) (f : A -> list B) (l : list A) :
  existsb p (flat_map f l) = existsb (fun x => existsb p (f x)) l.
Proof.
  induction l as [|x l IH]; [reflexivity|].
  simpl. now rewrite existsb_app, IH.
Qed.

Lemma existsb_pointwise {A} (p q : A -> bool) (l : list A) :
  (forall x, p x = q x) -> existsb p l = existsb q l.
Proof.
  intros H. induction l as [|x l IH]; [reflexivity|]. simpl. now rewrite H, IH.
Qed.

Lemma existsb_map {A B} (p : B -> bool) (f : A -> B) (l : list A) :
  existsb p (map f l) = existsb (fun x => p (f x)) l.
Proof.
  induction l as [|x l IH]; [reflexivity|]. simpl. now rewrite IH.
Qed.

Lemma m_alt_keywords : forall kws kw st,
  m true (alt_of (map kw_seq (kw :: kws))) st = flat_map (kw_ends st) (kw :: kws).
Proof.
  induction kws as [|kw2 kws IH]; intros kw st.
  - cbn [map alt_of flat_map]. unfold kw_seq. rewrite m_seq_of_lits.
    now rewrite app_nil_r.
  - change (alt_of (map kw_seq (kw :: kw2 :: kws)))
      with (Alt (kw_seq kw) (alt_of (map kw_seq (kw2 :: kws)))).
    cbn [m]. fold (m true (alt_of (map kw_seq (kw2 :: kws))) st).
    rewrite IH. unfold kw_seq at 1. now rewrite m_seq_of_lits.
Qed.

Lemma at_boundary_set_cap idx st st' :
  at_boundary (set_cap idx st st') = at_boundary st'.
Proof. reflexivity. Qed.

Lemma m_keyword_regex kw kws pre s :
  nonempty (m true (pattern (keyword_regex (kw :: kws))) (MState pre s [])) =
  keyword_here (kw :: kws) pre s.
Proof.
  unfold keyword_regex, keyword_here. cbn [pattern seq_of fold_right].
  set (st := MState pre s []).
  rewrite m_Seq. change (m true WordB st) with (if at_boundary st then [st] else []).
  destruct (at_boundary st); [|reflexivity].
  rewrite flat_map_single, m_Seq, andb_true_l.
  change (m true (Group 1 ?r) st) with (map (set_cap 1 st) (m true r st)).
  rewrite m_alt_keywords, nonempty_flat_map, existsb_map, existsb_flat_map.
  apply existsb_pointwise. intros kw'. unfold kw_ends. cbn [after st].
  destruct (prefix_ci true kw' s); [|reflexivity].
  cbn [existsb]. rewrite orb_false_r, m_Seq, flat_map_m_Empty.
  change (m true WordB ?x) with (if at_boundary x then [x] else []).
  rewrite at_boundary_set_cap.
  now destruct (at_boundary (advance (length kw') st)).
Qed.

Lemma test_any_pos re s :
  test re s =
  any_pos (fun pre t => nonempty (m (ignoreCase re) (pattern re) (MState pre t []))) [] s.
Proof.
  unfold test. generalize (@nil N) as pre.
  induction s as [|c s IH]; intros pre; cbn [search any_pos]; unfold match_at.
  - destruct (m (ignoreCase re) (pattern re) (MState pre [] [])); reflexivity.
  - destruct (m (ignoreCase re) (pattern re) (MState pre (c :: s) []));
      [apply IH | reflexivity].
Qed.

Lemma any_pos_ext P Q :
  (forall pre s, P pre s = Q pre s) ->
  forall s pre, any_pos P pre s = any_pos Q pre s.
Proof.
  intros H. induction s as [|c s IH]; intros pre; simpl; now rewrite H, ?IH.
Qed.

Lemma any_pos_true P : forall s pre,
  any_pos P pre s = true <->
  exists a b, s = a ++ b /\ P (rev a ++ pre) b = true.
Proof.
  induction s as [|c s IH]; intros pre.
  - simpl. rewrite orb_false_r. split.
    + intros H. now exists [], [].
    + intros (a & b & E & H). symmetry in E. apply app_eq_nil in E.
      destruct E as [-> ->]. exact H.
  - cbn [any_pos]. rewrite orb_true_iff, IH. split.
    + intros [H|(a & b & -> & H)].
      * now exists [], (c :: s).
      * exists (c :: a), b. split; [reflexivity|].
        cbn [rev]. now rewrite <- app_assoc.
    + intros (a & b & E & H). destruct a as [|x a].
      * left. simpl in E. now subst b.
      * right. injection E as -> ->. exists a, b. split; [reflexivity|].
        cbn [rev] in H. now rewrite <- app_assoc in H.
Qed.

Lemma prefix_ci_split ic p s :
  prefix_ci ic p s = true <->
  exists occ post, s = occ ++ post /\ same_text ic p occ.
Proof.
  revert s; induction p as [|c p IH]; intros s.
  - simpl. split; [|reflexivity]. intros _. exists [], s. split; [reflexivity|constructor].
  - destruct s as [|x s]; simpl.
    + split; [discriminate|]. intros (occ & post & E & H).
      inversion H; subst. discriminate.
    + rewrite andb_true_iff, IH. split.
      * intros [Hx (occ & post & -> & H)]. exists (x :: occ), post.
        split; [reflexivity | now constructor].
      * intros (occ & post & E & H). inversion H as [|? y ? occ' Hy H']; subst.
        injection E as -> ->. split; [assumption|]. now exists occ', post.
Qed.

Lemma same_text_length ic p occ : same_text ic p occ -> length occ = length p.
Proof. intros H. symmetry. exact (Forall2_length H). Qed.

Lemma advance_app occ post pre cs :
  advance (length occ) (MState pre (occ ++ post) cs) = MState (rev occ ++ pre) post cs.
Proof.
  unfold advance. cbn [after before caps].
  rewrite firstn_app, Nat.sub_diag, firstn_all, firstn_O, app_nil_r.
  rewrite skipn_app, Nat.sub_diag, skipn_all, skipn_O. reflexivity.
Qed.

(** The compiled keyword pattern finds a match exactly when one of the
    keywords occurs as a whole word. *)
Lemma test_keyword_regex kw kws text :
  test (keyword_regex (kw :: kws)) text = true <-> whole_word (kw :: kws) text.
Proof.
  rewrite test_any_pos.
  rewrite (any_pos_ext _ (keyword_here (kw :: kws)))
    by (intros; apply m_keyword_regex).
  rewrite any_pos_true. unfold keyword_here, whole_word, boundary. split.
  - intros (a & b & -> & H). rewrite app_nil_r in H.
    apply andb_prop in H. destruct H as [Hb H].
    apply existsb_exists in H. destruct H as (k & Hin & H).
    apply andb_prop in H. destruct H as [Hp He].
    apply prefix_ci_split in Hp. destruct Hp as (occ & post & -> & Hs).
    exists k, a, occ, post. repeat split; try assumption.
    rewrite <- (same_text_length _ _ _ Hs), advance_app in He.
    now rewrite rev_app_distr.
  - intros (k & a & occ & b & Hin & -> & Hs & Hb & He).
    exists a, (occ ++ b). rewrite app_nil_r. split; [reflexivity|].
    rewrite Hb. apply existsb_exists. exists k. split; [assumption|].
    apply andb_true_intro. split.
    + apply prefix_ci_split. now exists occ, b.
    + rewrite <- (same_text_length _ _ _ Hs), advance_app.
      now rewrite rev_app_distr in He.
Qed.

(* ================================================================== *)
(** ** The URL patterns *)
(* ================================================================== *)

Lemma to_upper_nonletter a x :
  is_word a = false -> N.eqb a (to_upper x) = N.eqb a x.
Proof.
  unfold is_word, is_digit, to_upper, in_range.
  rewrite !orb_false_iff, !andb_false_iff, !N.leb_gt.
  intros [[[Ha1 Ha2] Ha3] Ha4].
  destruct ((97 <=? x)%N && (x <=? 122)%N) eqn:E; [|reflexivity].
  apply andb_prop in E. destruct E as [E1 E2].
  apply N.leb_le in E1, E2.
  destruct (N.eqb_spec a (x - 32)), (N.eqb_spec a x); try reflexivity; lia.
Qed.

Lemma to_lower_nonletter a x :
  is_word a = false -> N.eqb a (to_lower x) = N.eqb a x.
Proof.
  unfold is_word, is_digit, to_lower, in_range.
  rewrite !orb_false_iff, !andb_false_iff, !N.leb_gt.
  intros [[[Ha1 Ha2] Ha3] Ha4].
  destruct ((65 <=? x)%N && (x <=? 90)%N) eqn:E; [|reflexivity].
  apply andb_prop in E. destruct E as [E1 E2].
  apply N.leb_le in E1, E2.
  destruct (N.eqb_spec a (x + 32)), (N.eqb_spec a x); try reflexivity; lia.
Qed.

Lemma seg_class x :
  class_matches true true [CChar (ch "/"); CChar (ch "?")] x = seg_char x.
Proof.
  unfold class_matches, seg_char, item_matches, item_has. cbn [existsb andb xorb].
  rewrite !to_upper_nonletter, !to_lower_nonletter by reflexivity.
  rewrite !orb_diag, orb_false_r.
  now rewrite (N.eqb_sym (ch "/")), (N.eqb_sym (ch "?")).
Qed.

Lemma take_while_run p s : take_while p s = firstn (run_length p s) s.
Proof.
  induction s as [|x s IH]; [reflexivity|]. simpl.
  destruct (p x); [now rewrite IH | reflexivity].
Qed.

(** The first end a greedy [[...]+] offers is the end of the longest
    run. *)
Lemma plus_class_head ic neg items pre s cs :
  m ic (Plus true (Class neg items)) (MState pre s cs) =
  match take_while (class_matches ic neg items) s with
  | [] => []
  | _ => m ic (Plus true (Class neg items)) (MState pre s cs)
  end /\
  (take_while (class_matches ic neg items) s <> [] ->
   exists tl,
     m ic (Plus true (Class neg items)) (MState pre s cs) =
     MState (rev (take_while (class_matches ic neg items) s) ++ pre)
            (skipn (run_length (class_matches ic neg items) s) s) cs :: tl).
Proof.
  rewrite m_Plus, m_Class.
  destruct s as [|x s]; [split; [reflexivity | intros H; now elim H]|].
  rewrite step_if_cons. cbn [take_while run_length].
  destruct (class_matches ic neg items x) eqn:E;
    [|split; [reflexivity | intros H; now elim H]].
  split; [reflexivity|]. intros _.
  rewrite flat_map_single.
  change (m ic (Class neg items)) with (step_if (class_matches ic neg items)).
  destruct (star_loop_longest (class_matches ic neg items)
              (S (length (after (MState pre (x :: s) cs)))) s (x :: pre) cs)
    as [tl Htl]; [simpl; lia|].
  rewrite Htl. exists tl. rewrite take_while_run. cbn [rev skipn].
  now rewrite <- app_assoc.
Qed.

Lemma m_host h st :
  m true (pattern (host_re h)) st =
  if prefix_ci true (js h) (after st)
  then map (set_cap 1 (advance (length (js h)) st))
           (m true (Plus true (Class true [CChar (ch "/"); CChar (ch "?")]))
              (advance (length (js h)) st))
  else [].
Proof.
  unfold host_re, lit. cbn [pattern]. rewrite seq_of_app, m_lits.
  destruct (prefix_ci true (js h) (after st)); [|reflexivity].
  unfold segment. cbn [seq_of fold_right].
  rewrite m_Seq, flat_map_m_Empty.
  change (m true (Group 1 ?r) ?s) with (map (set_cap 1 s) (m true r s)).
  now rewrite m_Seq, flat_map_m_Empty.
Qed.

Lemma take_while_ext p q s :
  (forall x, p x = q x) -> take_while p s = take_while q s.
Proof.
  intros H. induction s as [|x s IH]; [reflexivity|].
  simpl. now rewrite H, IH.
Qed.

Lemma consumed_app mid pre s s' cs cs' :
  consumed (MState pre s cs) (MState (rev mid ++ pre) s' cs') = mid.
Proof.
  unfold consumed. cbn [before].
  rewrite length_app, length_rev.
  replace (length mid + length pre - length pre) with (length mid) by lia.
  rewrite <- (length_rev mid) at 1.
  rewrite firstn_app, Nat.sub_diag, firstn_all, firstn_O, app_nil_r.
  apply rev_involutive.
Qed.

(** At one position, a host pattern matches exactly when the host text
    and a segment stand there, and captures that segment. *)
Lemma match_at_host h pre s :
  match match_at (host_re h) pre s with
  | Some st =>
      exists seg, tenant_here true (js h) s = Some seg /\
                  caps st = [(1, seg)] /\
                  consumed (MState pre s []) st = firstn (length (js h)) s ++ seg
  | None => tenant_here true (js h) s = None
  end.
Proof.
  unfold match_at, tenant_here. cbn [ignoreCase]. rewrite m_host. cbn [after].
  destruct (prefix_ci true (js h) s) eqn:P; [|reflexivity].
  unfold advance. cbn [after before caps].
  set (s1 := skipn (length (js h)) s).
  set (pre1 := rev (firstn (length (js h)) s) ++ pre).
  rewrite (take_while_ext _ _ s1 (fun x => eq_sym (seg_class x))).
  destruct (plus_class_head true true [CChar (ch "/"); CChar (ch "?")] pre1 s1 [])
    as [H0 H1].
  destruct (take_while (class_matches true true [CChar (ch "/"); CChar (ch "?")]) s1)
    as [|y seg] eqn:T.
  - rewrite H0. reflexivity.
  - destruct H1 as [tl Htl]; [discriminate|].
    rewrite Htl. cbn [map]. exists (y :: seg). split; [reflexivity|].
    unfold set_cap. cbn [caps filter before after].
    rewrite consumed_app. split; [reflexivity|].
    unfold pre1. rewrite app_assoc, <- rev_app_distr.
    apply consumed_app.
Qed.

Lemma search_host h : forall s pre,
  match search (host_re h) pre s with
  | Some (_, st) =>
      exists seg, find_tenant true (js h) s = Some seg /\ caps st = [(1, seg)]
  | None => find_tenant true (js h) s = None
  end.
Proof.
  induction s as [|c s IH]; intros pre; cbn [search find_tenant].
  - pose proof (match_at_host h pre []) as H.
    destruct (match_at (host_re h) pre []) as [st|].
    + destruct H as (seg & -> & Hc & _). now exists seg.
    + now rewrite H.
  - pose proof (match_at_host h pre (c :: s)) as H.
    destruct (match_at (host_re h) pre (c :: s)) as [st|].
    + destruct H as (seg & -> & Hc & _). now exists seg.
    + rewrite H. apply IH.
Qed.

(** What one host pattern makes of a URL. *)
Lemma str_match_host h url :
  option_map (capture 1) (str_match url (host_re h)) =
  option_map JString (find_tenant true (js h) url).
Proof.
  unfold str_match. pose proof (search_host h url []) as H.
  destruct (search (host_re h) [] url) as [[pre st]|].
  - destruct H as (seg & -> & Hc). unfold capture. cbn [option_map groups].
    rewrite Hc. reflexivity.
  - now rewrite H.
Qed.

(** *** A longer host text matches nowhere the shorter one does not *)

Lemma prefix_ci_app ic a b s :
  prefix_ci ic (a ++ b) s = true ->
  prefix_ci ic b (skipn (length a) s) = true.
Proof.
  revert s; induction a as [|x a IH]; intros s; [trivial|].
  destruct s as [|y s]; simpl; [discriminate|].
  intros H. apply andb_prop in H. now apply IH.
Qed.

Lemma tenant_here_longer ic a h t seg :
  tenant_here ic (a ++ h) t = Some seg ->
  tenant_here ic h (skipn (length a) t) = Some seg.
Proof.
  unfold tenant_here.
  destruct (prefix_ci ic (a ++ h) t) eqn:P; [|discriminate].
  rewrite (prefix_ci_app _ _ _ _ P).
  now rewrite skipn_skipn, length_app, Nat.add_comm.
Qed.

Lemma find_tenant_None ic h : forall s,
  find_tenant ic h s = None -> forall a t, s = a ++ t -> tenant_here ic h t = None.
Proof.
  induction s as [|c s IH]; intros H a t E; cbn [find_tenant] in H.
  - symmetry in E. apply app_eq_nil in E. destruct E as [-> ->].
    now destruct (tenant_here ic h []).
  - destruct (tenant_here ic h (c :: s)) eqn:T; [discriminate|].
    destruct a as [|x a].
    + simpl in E. now subst t.
    + injection E as _ E. now apply (IH H a t).
Qed.

Lemma find_tenant_Some ic h : forall s seg,
  find_tenant ic h s = Some seg ->
  exists a t, s = a ++ t /\ tenant_here ic h t = Some seg.
Proof.
  induction s as [|c s IH]; intros seg H; cbn [find_tenant] in H.
  - destruct (tenant_here ic h []) eqn:T; [|discriminate].
    exists [], []. now rewrite T.
  - destruct (tenant_here ic h (c :: s)) eqn:T.
    + exists [], (c :: s). now rewrite T.
    + destruct (IH seg H) as (a & t & -> & Ht). now exists (c :: a), t.
Qed.

Lemma find_tenant_longer ic a h url :
  find_tenant ic h url = None -> find_tenant ic (a ++ h) url = None.
Proof.
  intros H. destruct (find_tenant ic (a ++ h) url) as [seg|] eqn:F; [|reflexivity].
  apply find_tenant_Some in F. destruct F as (u & t & -> & Ht).
  apply tenant_here_longer in Ht.
  rewrite (find_tenant_None ic h _ H (u ++ firstn (length a) t) (skipn (length a) t)) in Ht.
  - discriminate.
  - now rewrite <- app_assoc, firstn_skipn.
Qed.

Lemma first_match_host h url rest :
  first_match url (host_re h :: rest) =
  match find_tenant true (js h) url with
  | Some seg => Some (Tenant.Make (JString seg) (region_of url))
  | None => first_match url rest
  end.
Proof.
  cbn [first_match]. pose proof (str_match_host h url) as H.
  destruct (str_match url (host_re h)) as [found|];
    destruct (find_tenant true (js h) url) as [seg|]; try discriminate.
  - injection H as ->. reflexivity.
  - reflexivity.
Qed.

(** The resolver is the first pattern alone: where it fails, the other
    three fail too. *)
Lemma parseGreenhouseUrl_find url :
  parseGreenhouseUrl url =
  option_map (fun seg => Tenant.Make (JString seg) (region_of url))
             (find_tenant true (js "greenhouse.io/") url).
Proof.
  unfold parseGreenhouseUrl, patterns. rewrite first_match_host.
  destruct (find_tenant true (js "greenhouse.io/") url) as [seg|] eqn:F;
    [reflexivity|].
  rewrite !first_match_host.
  rewrite (find_tenant_longer true (js "boards.") _ _ F : find_tenant true (js "boards.greenhouse.io/") url = None).
  rewrite (find_tenant_longer true (js "job-boards.") _ _ F : find_tenant true (js "job-boards.greenhouse.io/") url = None).
  rewrite (find_tenant_longer true (js "job-boards.eu.") _ _ F : find_tenant true (js "job-boards.eu.greenhouse.io/") url = None).
  reflexivity.
Qed.

(** *** Where a tenant is found *)

Lemma take_while_nonempty p s :
  take_while p s <> [] <-> exists x b, s = x :: b /\ p x = true.
Proof.
  destruct s as [|x s]; simpl.
  - split; [intros H; now elim H | intros (x & b & E & _); discriminate].
  - destruct (p x) eqn:E.
    + split; [intros _; now exists x, s | discriminate].
    + split; [intros H; now elim H|].
      intros (y & b & [= -> ->] & H). congruence.
Qed.

Lemma tenant_here_iff ic h t :
  tenant_here ic h t <> None <->
  exists occ x b, t = occ ++ x :: b /\ same_text ic h occ /\ seg_char x = true.
Proof.
  unfold tenant_here. split.
  - destruct (prefix_ci ic h t) eqn:P; [|intros H; now elim H].
    apply prefix_ci_split in P. destruct P as (occ & post & -> & Hs).
    rewrite <- (same_text_length _ _ _ Hs), skipn_app, Nat.sub_diag, skipn_all, skipn_O.
    cbn [app]. intros H.
    assert (N : take_while seg_char post <> [])
      by (destruct (take_while seg_char post); [now elim H | discriminate]).
    apply take_while_nonempty in N. destruct N as (x & b & -> & Hx).
    now exists occ, x, b.
  - intros (occ & x & b & -> & Hs & Hx).
    assert (P : prefix_ci ic h (occ ++ x :: b) = true)
      by (apply prefix_ci_split; now exists occ, (x :: b)).
    rewrite P, <- (same_text_length _ _ _ Hs), skipn_app, Nat.sub_diag, skipn_all, skipn_O.
    cbn [app take_while]. rewrite Hx. discriminate.
Qed.

(** A tenant is found exactly when the host text, followed by a code unit
    of a segment, occurs somewhere in the URL. *)
Lemma find_tenant_iff ic h url :
  find_tenant ic h url <> None <->
  exists a occ x b,
    url = a ++ occ ++ x :: b /\ same_text ic h occ /\ seg_char x = true.
Proof.
  split.
  - destruct (find_tenant ic h url) as [seg|] eqn:F; [|intros H; now elim H].
    intros _. apply find_tenant_Some in F. destruct F as (a & t & -> & Ht).
    assert (N : tenant_here ic h t <> None) by (rewrite Ht; discriminate).
    apply tenant_here_iff in N. destruct N as (occ & x & b & -> & Hs & Hx).
    now exists a, occ, x, b.
  - intros (a & occ & x & b & -> & Hs & Hx) F.
    assert (N : tenant_here ic h (occ ++ x :: b) <> None)
      by (apply tenant_here_iff; now exists occ, x, b).
    apply N. now apply (find_tenant_None ic h _ F a).
Qed.

(* ================================================================== *)
(** ** Lemmas about the program *)
(* ================================================================== *)

Lemma or_else_defined a d : defined d = true -> defined (or_else a d) = true.
Proof.
  unfold or_else. destruct (truthy a) eqn:E; [|trivial].
  intros _. now destruct a.
Qed.

Lemma or_else_absent a d : nullish a = true -> or_else a d = d.
Proof. now destruct a. Qed.

Lemma optToString_identifier v :
  optional is_identifier v = true ->
  exists r, optToString v = Ok r /\ defined r = defined v /\
            r = match v with
                | JNumber n => JString (number_toString n)
                | JString s => JString s
                | _ => JUndefined
                end.
Proof.
  destruct v; try discriminate; intros _; eexists; repeat split; reflexivity.
Qed.

Lemma mapM_names elems :
  forallb named elems = true ->
  exists names, mapM (fun d => get d (js "name")) elems = Ok names.
Proof.
  induction elems as [|d elems IH]; intros H; [now exists []|].
  cbn [forallb] in H. apply andb_prop in H. destruct H as [Hd H].
  destruct (IH H) as [names Hn].
  destruct d; try discriminate.
  cbn [mapM get bind]. rewrite Hn. cbn [bind]. eexists. reflexivity.
Qed.

Lemma map_names_ok v :
  optional (array_of named) v = true ->
  exists r, map_names v = Ok r /\
            (nullish v = true -> r = JUndefined) /\
            or_else r (JArray []) = (if nullish v then JArray [] else r).
Proof.
  destruct v; try discriminate; intros H.
  - exists JUndefined. repeat split.
  - exists JUndefined. repeat split.
  - cbn in H. destruct (mapM_names elems H) as [names Hn].
    exists (JArray names). cbn [map_names]. rewrite Hn.
    repeat split. discriminate.
Qed.

Lemma normalizeJob_object this now props :
  normalizeJob this now (JObject props) =
  (externalId <- optToString (lookup (js "id") props) ;;
   departmentNames <- map_names (lookup (js "departments") props) ;;
   officeNames <- map_names (lookup (js "offices") props) ;;
   Ok {| Job.externalId := externalId;
         Job.title := lookup (js "title") props;
         Job.absoluteUrl := lookup (js "absolute_url") props;
         Job.applyUrl := lookup (js "absolute_url") props;
         Job.location :=
           or_else (optGet (lookup (js "location") props) (js "name"))
                   (JString (js "Remote"));
         Job.departments := or_else departmentNames (JArray []);
         Job.offices := or_else officeNames (JArray []);
         Job.content := or_else (lookup (js "content") props) (JString []);
         Job.htmlContent := or_else (lookup (js "content") props) (JString []);
         Job.updatedAt := lookup (js "updated_at") props;
         Job.metadata := or_else (lookup (js "metadata") props) (JArray []);
         Job.questions := or_else (lookup (js "questions") props) (JArray []);
         Job.scrapedAt := now;
         Job.source := js "greenhouse";
         Job.companyToken := companyToken this |}).
Proof.
  unfold normalizeJob. cbn [get bind].
  destruct (optToString (lookup (js "id") props)); [|reflexivity].
  cbn [bind].
  destruct (map_names (lookup (js "departments") props)); [|reflexivity].
  cbn [bind].
  destruct (map_names (lookup (js "offices") props)); reflexivity.
Qed.

Lemma decodeHtml_string s : decodeHtml (JString s) = Ok (sanitize s).
Proof. destruct s; reflexivity. Qed.

Lemma filterM_filter {A} (f : A -> result bool) (p : A -> bool) (l : list A) :
  Forall (fun x => f x = Ok (p x)) l -> filterM f l = Ok (filter p l).
Proof.
  induction 1 as [|x l Hx _ IH]; [reflexivity|].
  cbn [filterM filter]. rewrite Hx, IH. reflexivity.
Qed.

(** With a non-empty keyword list the filter is [filter] with the compiled
    keyword pattern, whatever the keywords are. *)
Lemma filterByKeywords_cons jobs kw kws :
  filterByKeywords jobs (Some (kw :: kws)) =
  filterM (fun job => text <- searchText job ;;
                      Ok (test (keyword_regex (kw :: kws)) text)) jobs.
Proof.
  unfold filterByKeywords. now rewrite new_RegExp_keywordPattern.
Qed.

Lemma get_defined e k : nullish e = false -> get e k = Ok (optGet e k).
Proof. now destruct e. Qed.

(** *** What the keyword filter can throw *)

Lemma only_TypeError_Ok {A} (a : A) : only_TypeError (Ok a).
Proof. intros e H. discriminate. Qed.

Lemma only_TypeError_bind {A B} (r : result A) (k : A -> result B) :
  only_TypeError r -> (forall a, only_TypeError (k a)) ->
  only_TypeError (bind r k).
Proof.
  intros Hr Hk e. destruct r as [a|e']; cbn [bind].
  - apply Hk.
  - intros [= <-]. now apply Hr.
Qed.

Lemma ToString_throws v : only_TypeError (ToString v).
Proof.
  induction v as [| | | | |elems IH|props] using jsval_elems_ind;
    try apply only_TypeError_Ok.
  - cbn [ToString]. apply only_TypeError_bind; [|intros; apply only_TypeError_Ok].
    induction IH as [|x l Hx _ IHl]; [apply only_TypeError_Ok|].
    apply only_TypeError_bind.
    + destruct (nullish x); [apply only_TypeError_Ok | exact Hx].
    + intros p. apply only_TypeError_bind; [exact IHl|].
      intros; apply only_TypeError_Ok.
  - cbn [ToString]. destruct (has_own (js "toString") props).
    + intros e [= <-]. reflexivity.
    + apply only_TypeError_Ok.
Qed.

Lemma mapM_throws {A B} (f : A -> result B) l :
  (forall x, only_TypeError (f x)) -> only_TypeError (mapM f l).
Proof.
  intros H. induction l as [|x l IH]; [apply only_TypeError_Ok|].
  cbn [mapM]. apply only_TypeError_bind; [apply H|].
  intros y. apply only_TypeError_bind; [exact IH|].
  intros; apply only_TypeError_Ok.
Qed.

Lemma searchText_throws job : only_TypeError (searchText job).
Proof.
  unfold searchText. apply only_TypeError_bind.
  - unfold decodeHtml. destruct (negb (truthy _)); [apply only_TypeError_Ok|].
    destruct (or_else (Job.content job) (JString []));
      try apply only_TypeError_Ok; intros e [= <-]; reflexivity.
  - intros c. apply only_TypeError_bind.
    + unfold join. destruct (or_else (Job.departments job) (JArray []));
        try (intros e [= <-]; reflexivity).
      apply only_TypeError_bind; [|intros; apply only_TypeError_Ok].
      apply mapM_throws. intros x.
      destruct (nullish x); [apply only_TypeError_Ok | apply ToString_throws].
    + intros d. apply only_TypeError_bind; [apply ToString_throws|].
      intros; apply only_TypeError_Ok.
Qed.

Lemma filterM_throws {A} (f : A -> result bool) l :
  (forall x, only_TypeError (f x)) -> only_TypeError (filterM f l).
Proof.
  intros H. induction l as [|x l IH]; [apply only_TypeError_Ok|].
  cbn [filterM]. apply only_TypeError_bind; [apply H|].
  intros y. apply only_TypeError_bind; [exact IH|].
  intros; apply only_TypeError_Ok.
Qed.

(** With keywords, the only failure of the filter is a job whose fields
    are not of the type the filter reads. *)
Lemma filterByKeywords_throws jobs kw kws :
  only_TypeError (filterByKeywords jobs (Some (kw :: kws))).
Proof.
  rewrite filterByKeywords_cons. apply filterM_throws.
  intros job. apply only_TypeError_bind; [apply searchText_throws|].
  intros; apply only_TypeError_Ok.
Qed.

Lemma filter_single job text kw kws :
  searchText job = Ok text ->
  filterByKeywords [job] (Some (kw :: kws)) =
  Ok (if test (keyword_regex (kw :: kws)) text then [job] else []).
Proof.
  intros H. rewrite filterByKeywords_cons. cbn [filterM]. rewrite H.
  reflexivity.
Qed.

Lemma mapM_strings sep ds :
  join (JArray (map JString ds)) sep = Ok (intercalate sep ds).
Proof.
  unfold join.
  assert (E : mapM (fun x => if nullish x then Ok [] else ToString x)
                   (map JString ds) = Ok ds).
  { induction ds as [|d ds IH]; [reflexivity|].
    cbn [map mapM nullish ToString bind]. now rewrite IH. }
  now rewrite E.
Qed.

(** A match of the keyword [c++] is followed by a word character. *)
Lemma plusplus_needs_word text :
  test (keyword_regex [js "c++"]) text = true ->
  exists a occ x b,
    text = a ++ occ ++ x :: b /\ same_text true (js "c++") occ /\
    is_word x = true.
Proof.
  intros H. apply test_keyword_regex in H.
  destruct H as (k & a & occ & b & Hin & -> & Hs & _ & He).
  destruct Hin as [<-|[]].
  pose proof Hs as Hs'.
  inversion Hs as [|c1 x1 l1 o1 H1 Hs1]; subst.
  inversion Hs1 as [|c2 x2 l2 o2 H2 Hs2]; subst.
  inversion Hs2 as [|c3 x3 l3 o3 H3 Hs3]; subst.
  inversion Hs3; subst.
  unfold char_matches, canon in H3.
  rewrite N.eqb_sym in H3.
  change (to_upper (N_of_ascii "+")) with (ch "+") in H3.
  rewrite to_upper_nonletter in H3 by reflexivity.
  apply N.eqb_eq in H3. subst x3.
  unfold boundary, at_boundary, word_before, word_after in He.
  cbn [before after] in He. rewrite rev_app_distr in He. cbn [rev app] in He.
  destruct b as [|x b]; [discriminate|].
  exists a, [x1; x2; ch "+"], x, b. repeat split; assumption.
Qed.

Lemma quoted_token_message this :
  quoted_token (not_found_message this) = companyToken this.
Proof.
  unfold quoted_token, not_found_message.
  set (tok := companyToken this).
  change (skipn _ (js "Company token " ++ [dquote] ++ tok ++ [dquote] ++ js " not found in Greenhouse"))
    with (tok ++ dquote :: js " not found in Greenhouse").
  rewrite length_app.
  replace (length tok + length (dquote :: js " not found in Greenhouse")
           - (1 + length (js " not found in Greenhouse"))) with (length tok)
    by (simpl; lia).
  now rewrite firstn_app, Nat.sub_diag, firstn_all, firstn_O, app_nil_r.
Qed.

Lemma fetchJobs_rejected axios_get clock this filters e :
  axios_get (listing_request this filters) = Rejected e ->
  nullish e = false ->
  fetchJobs axios_get clock this filters =
  Throw (if is_not_found e then UserError (not_found_message this)
         else Rejection e).
Proof.
  intros H N. unfold fetchJobs. rewrite H. unfold fetchJobs_catch.
  cbn [thrown_get]. rewrite !(get_defined _ _ N). unfold is_not_found.
  now destruct (strict_eq_number _ 404).
Qed.

(** With keywords the filter either returns the selected jobs in their
    order or meets a job it cannot read and throws a TypeError. *)
Lemma filterByKeywords_cases kw kws jobs :
  filterByKeywords jobs (Some (kw :: kws)) =
    Ok (filter (selected (kw :: kws)) jobs) \/
  (filterByKeywords jobs (Some (kw :: kws)) = Throw TypeError /\
   Exists (fun job => is_ok (searchText job) = false) jobs).
Proof.
  rewrite filterByKeywords_cons.
  induction jobs as [|job jobs IH]; [now left|].
  cbn [filterM filter]. unfold selected at 1.
  destruct (searchText job) as [text|e] eqn:E; cbn [bind].
  - destruct IH as [IH|[IH Hex]]; rewrite IH; cbn [bind].
    + now left.
    + right. split; [reflexivity | now apply Exists_cons_tl].
  - right. rewrite (searchText_throws job e E). split; [reflexivity|].
    apply Exists_cons_hd. now rewrite E.
Qed.

(* ================================================================== *)
(** ** More lemmas about the program *)
(* ================================================================== *)

Lemma str_eqb_eq a b : str_eqb a b = true <-> a = b.
Proof.
  revert b; induction a as [|x a IH]; intros [|y b]; simpl;
    try (split; [discriminate | discriminate]); [tauto|].
  rewrite andb_true_iff, N.eqb_eq, IH. split.
  - intros [-> ->]. reflexivity.
  - intros [= -> ->]. now split.
Qed.

Lemma str_eqb_refl a : str_eqb a a = true.
Proof. now apply str_eqb_eq. Qed.

(** *** [normalizeJob] on any value *)

Lemma mapM_get_names elems :
  mapM (fun d => get d (js "name")) elems =
  if forallb (fun d => negb (nullish d)) elems
  then Ok (map (fun d => optGet d (js "name")) elems)
  else Throw TypeError.
Proof.
  induction elems as [|d elems IH]; [reflexivity|].
  cbn [mapM forallb map]. destruct (nullish d) eqn:N.
  - destruct d; try discriminate; reflexivity.
  - rewrite (get_defined _ _ N). cbn [bind negb andb]. rewrite IH.
    now destruct (forallb _ elems).
Qed.

Lemma map_names_spec v :
  map_names v =
  match v with
  | JUndefined | JNull => Ok JUndefined
  | JArray elems =>
      if forallb (fun d => negb (nullish d)) elems
      then Ok (JArray (map (fun d => optGet d (js "name")) elems))
      else Throw TypeError
  | _ => Throw TypeError
  end.
Proof.
  destruct v; try reflexivity. cbn [map_names]. rewrite mapM_get_names.
  now destruct (forallb _ elems).
Qed.

Lemma map_names_is_ok v : is_ok (map_names v) = names_ok v.
Proof.
  rewrite map_names_spec. destruct v; try reflexivity.
  unfold names_ok. cbn [nullish orb]. now destruct (forallb _ elems).
Qed.

Lemma map_names_throws v : only_TypeError (map_names v).
Proof.
  rewrite map_names_spec. destruct v; try apply only_TypeError_Ok;
    try (intros e [= <-]; reflexivity).
  destruct (forallb _ elems); [apply only_TypeError_Ok|].
  intros e [= <-]; reflexivity.
Qed.

Lemma optToString_throws v : only_TypeError (optToString v).
Proof.
  unfold optToString. destruct (nullish v); [apply only_TypeError_Ok|].
  apply only_TypeError_bind; [apply ToString_throws|].
  intros; apply only_TypeError_Ok.
Qed.

Lemma optToString_is_ok v : is_ok (optToString v) = nullish v || printable v.
Proof.
  unfold optToString, printable. destruct (nullish v); [reflexivity|].
  now destruct (ToString v).
Qed.

Lemma normalizeJob_nullish this now job :
  nullish job = true -> normalizeJob this now job = Throw TypeError.
Proof. destruct job; try discriminate; reflexivity. Qed.

(** On a value other than [undefined] and [null] only the conversion of
    the identifier and the two [map] calls can fail. *)
Lemma normalizeJob_defined this now job :
  nullish job = false ->
  normalizeJob this now job =
  (externalId <- optToString (optGet job (js "id")) ;;
   departmentNames <- map_names (optGet job (js "departments")) ;;
   officeNames <- map_names (optGet job (js "offices")) ;;
   Ok {| Job.externalId := externalId;
         Job.title := optGet job (js "title");
         Job.absoluteUrl := optGet job (js "absolute_url");
         Job.applyUrl := optGet job (js "absolute_url");
         Job.location :=
           or_else (optGet (optGet job (js "location")) (js "name"))
                   (JString (js "Remote"));
         Job.departments := or_else departmentNames (JArray []);
         Job.offices := or_else officeNames (JArray []);
         Job.content := or_else (optGet job (js "content")) (JString []);
         Job.htmlContent := or_else (optGet job (js "content")) (JString []);
         Job.updatedAt := optGet job (js "updated_at");
         Job.metadata := or_else (optGet job (js "metadata")) (JArray []);
         Job.questions := or_else (optGet job (js "questions")) (JArray []);
         Job.scrapedAt := now;
         Job.source := js "greenhouse";
         Job.companyToken := companyToken this |}).
Proof.
  intros N. unfold normalizeJob. rewrite !(get_defined _ _ N). cbn [bind].
  destruct (optToString (optGet job (js "id"))); [|reflexivity].
  cbn [bind].
  destruct (map_names (optGet job (js "departments"))); [|reflexivity].
  cbn [bind].
  destruct (map_names (optGet job (js "offices"))); reflexivity.
Qed.

Lemma normalizeJob_throws this now job : only_TypeError (normalizeJob this now job).
Proof.
  destruct (nullish job) eqn:N.
  - rewrite (normalizeJob_nullish _ _ _ N). intros e [= <-]. reflexivity.
  - rewrite (normalizeJob_defined _ _ _ N).
    apply only_TypeError_bind; [apply optToString_throws|]. intros ext.
    apply only_TypeError_bind; [apply map_names_throws|]. intros dn.
    apply only_TypeError_bind; [apply map_names_throws|]. intros ofn.
    apply only_TypeError_Ok.
Qed.

Lemma normalizeJob_is_ok this now job :
  is_ok (normalizeJob this now job) =
  negb (nullish job)
  && (nullish (optGet job (js "id")) || printable (optGet job (js "id")))
  && names_ok (optGet job (js "departments"))
  && names_ok (optGet job (js "offices")).
Proof.
  destruct (nullish job) eqn:N.
  - now rewrite (normalizeJob_nullish _ _ _ N).
  - rewrite (normalizeJob_defined _ _ _ N).
    rewrite <- optToString_is_ok, <- !map_names_is_ok.
    destruct (optToString (optGet job (js "id"))); [|reflexivity].
    destruct (map_names (optGet job (js "departments"))); [|reflexivity].
    destruct (map_names (optGet job (js "offices"))); reflexivity.
Qed.

(** What a returned job was made from. *)
Lemma normalizeJob_inv this now job nj :
  normalizeJob this now job = Ok nj ->
  exists ext dn ofn,
    optToString (optGet job (js "id")) = Ok ext /\
    map_names (optGet job (js "departments")) = Ok dn /\
    map_names (optGet job (js "offices")) = Ok ofn /\
    nj = {| Job.externalId := ext;
            Job.title := optGet job (js "title");
            Job.absoluteUrl := optGet job (js "absolute_url");
            Job.applyUrl := optGet job (js "absolute_url");
            Job.location :=
              or_else (optGet (optGet job (js "location")) (js "name"))
                      (JString (js "Remote"));
            Job.departments := or_else dn (JArray []);
            Job.offices := or_else ofn (JArray []);
            Job.content := or_else (optGet job (js "content")) (JString []);
            Job.htmlContent := or_else (optGet job (js "content")) (JString []);
            Job.updatedAt := optGet job (js "updated_at");
            Job.metadata := or_else (optGet job (js "metadata")) (JArray []);
            Job.questions := or_else (optGet job (js "questions")) (JArray []);
            Job.scrapedAt := now;
            Job.source := js "greenhouse";
            Job.companyToken := companyToken this |}.
Proof.
  destruct (nullish job) eqn:N.
  - now rewrite (normalizeJob_nullish _ _ _ N).
  - rewrite (normalizeJob_defined _ _ _ N).
    destruct (optToString (optGet job (js "id"))) as [ext|]; [|discriminate].
    destruct (map_names (optGet job (js "departments"))) as [dn|]; [|discriminate].
    destruct (map_names (optGet job (js "offices"))) as [ofn|]; [|discriminate].
    cbn [bind]. intros [= <-]. now exists ext, dn, ofn.
Qed.

Lemma well_formed_normalizable this now job :
  well_formed job = true -> is_ok (normalizeJob this now job) = true.
Proof.
  intros H. destruct job as [| | | | | |props]; try discriminate.
  unfold well_formed in H. rewrite !andb_true_iff in H.
  destruct H as [[[[[[[[[Hid _] _] _] Hdep] Hoff] _] _] _] _].
  rewrite normalizeJob_is_ok. cbn [nullish negb optGet andb].
  assert (A : forall v, optional (array_of named) v = true -> names_ok v = true).
  { intros v Hv. destruct v; try discriminate; try reflexivity.
    unfold names_ok. cbn [nullish orb]. cbn in Hv.
    rewrite forallb_forall in *. intros d Hd. specialize (Hv d Hd).
    now destruct d. }
  rewrite (A _ Hdep), (A _ Hoff), !andb_true_r.
  destruct (lookup (js "id") props); try discriminate; reflexivity.
Qed.

(** *** Traversals with an index *)

Lemma mapMi_inv {A B} (f : nat -> A -> result B) : forall l i r,
  mapMi f i l = Ok r ->
  length r = length l /\
  forall k x, nth_error l k = Some x ->
              exists y, nth_error r k = Some y /\ f (i + k) x = Ok y.
Proof.
  induction l as [|a l IH]; intros i r H; cbn [mapMi] in H.
  - injection H as <-. split; [reflexivity|]. intros [|k] x E; discriminate.
  - destruct (f i a) as [y|] eqn:Fy; [|discriminate]. cbn [bind] in H.
    destruct (mapMi f (S i) l) as [ys|] eqn:M; [|discriminate].
    cbn [bind] in H. injection H as <-.
    destruct (IH _ _ M) as [Hl Hn]. split; [simpl; now rewrite Hl|].
    intros [|k] x E.
    + injection E as <-. exists y. rewrite Nat.add_0_r. now split.
    + destruct (Hn k x E) as (z & Hz & Fz). exists z. split; [exact Hz|].
      now rewrite <- Nat.add_succ_comm.
Qed.

Lemma mapMi_is_ok {A B} (f : nat -> A -> result B) : forall l i,
  (forall k x, In x l -> is_ok (f k x) = true) ->
  is_ok (mapMi f i l) = true.
Proof.
  induction l as [|a l IH]; intros i H; [reflexivity|].
  cbn [mapMi]. pose proof (H i a (or_introl eq_refl)) as Ha.
  destruct (f i a); [|discriminate]. cbn [bind].
  specialize (IH (S i) (fun k x Hx => H k x (or_intror Hx))).
  now destruct (mapMi f (S i) l).
Qed.

Lemma mapMi_throws {A B} (f : nat -> A -> result B) : forall l i,
  (forall k x, only_TypeError (f k x)) -> only_TypeError (mapMi f i l).
Proof.
  induction l as [|a l IH]; intros i H; [apply only_TypeError_Ok|].
  cbn [mapMi]. apply only_TypeError_bind; [apply H|]. intros y.
  apply only_TypeError_bind; [now apply IH|]. intros; apply only_TypeError_Ok.
Qed.

(** *** [fetchJobs] on a response *)

Lemma fetchJobs_resolved axios_get clock this filters data :
  axios_get (listing_request this filters) = Resolved data ->
  fetchJobs axios_get clock this filters =
  if nullish data then Throw TypeError
  else
    match or_else (optGet data (js "jobs")) (JArray []) with
    | JArray records =>
        mapMi (fun k job => normalizeJob this (clock k) job) 0 records
    | _ => Throw TypeError
    end.
Proof.
  intros H. unfold fetchJobs. rewrite H.
  destruct (nullish data) eqn:N.
  - destruct data; try discriminate; reflexivity.
  - rewrite (get_defined _ _ N). cbn [bind].
    destruct (or_else (optGet data (js "jobs")) (JArray [])); try reflexivity.
    pose proof (mapMi_throws (fun k job => normalizeJob this (clock k) job) elems 0
                  (fun k x => normalizeJob_throws this (clock k) x)) as T.
    destruct (mapMi _ 0 elems) as [r|e]; [reflexivity|].
    now rewrite (T e eq_refl).
Qed.

(** *** Properties set on a request *)

Lemma lookup_set_prop_same k v props : lookup k (set_prop k v props) = v.
Proof.
  induction props as [|[k' v'] props IH]; cbn [set_prop lookup].
  - now rewrite str_eqb_refl.
  - destruct (str_eqb k k') eqn:E; cbn [lookup]; rewrite ?str_eqb_refl, ?E;
      [reflexivity | exact IH].
Qed.

Lemma lookup_set_prop_other k k2 v props :
  str_eqb k k2 = false -> lookup k (set_prop k2 v props) = lookup k props.
Proof.
  intros N. induction props as [|[k' v'] props IH]; cbn [set_prop lookup].
  - now rewrite N.
  - destruct (str_eqb k2 k') eqn:E; cbn [lookup].
    + apply str_eqb_eq in E. subst k'. now rewrite N.
    + now rewrite IH.
Qed.

Lemma lookup_spread k : forall src target,
  lookup k (spread target src) =
  match last_value k src with
  | Some v => v
  | None => lookup k target
  end.
Proof.
  unfold spread. induction src as [|[k' v] src IH]; intros target;
    [reflexivity|].
  cbn [fold_left last_value fst snd]. rewrite IH.
  destruct (last_value k src); [reflexivity|].
  destruct (str_eqb k k') eqn:E.
  - apply str_eqb_eq in E. subst k'. apply lookup_set_prop_same.
  - now apply lookup_set_prop_other.
Qed.

(** *** The sanitizer never makes a text longer *)

Lemma Subst_length c s t : Subst c s t -> length t <= length s.
Proof.
  induction 1 as [|x s t H IH|seg s t Hseg H IH]; simpl; [lia | lia |].
  rewrite length_app. destruct seg; [contradiction | simpl; lia].
Qed.

Lemma gsub_lit_length (e r : jsstring) (c : N) s :
  e <> [] -> (forall x, expand r x = [c]) ->
  length (gsub (mlen_lit e) (expand r) s 0) <= length s.
Proof.
  intros He Hr. apply (Subst_length c).
  apply gsub_Subst_0; [exact Hr | now apply mlen_lit_proper].
Qed.

Lemma sanitize_length s : length (sanitize s) <= length s.
Proof.
  rewrite sanitize_chain.
  destruct (trim_segment (collapsed (stripped (decoded s)))) as (a & b & E).
  assert (L1 : length (trim (collapsed (stripped (decoded s))))
               <= length (collapsed (stripped (decoded s)))).
  { rewrite E at 2. rewrite !length_app. lia. }
  pose proof (Subst_length _ _ _ (collapsed_Subst (stripped (decoded s)))) as L2.
  pose proof (Subst_length _ _ _ (stripped_Subst (decoded s))) as L3.
  assert (L4 : length (decoded s) <= length s).
  { unfold decoded.
    etransitivity; [apply (gsub_lit_length _ _ (ch "'")); [discriminate | reflexivity]|].
    etransitivity; [apply (gsub_lit_length _ _ dquote); [discriminate | reflexivity]|].
    etransitivity; [apply (gsub_lit_length _ _ (ch "&")); [discriminate | reflexivity]|].
    etransitivity; [apply (gsub_lit_length _ _ (ch ">")); [discriminate | reflexivity]|].
    apply (gsub_lit_length _ _ (ch "<")); [discriminate | reflexivity]. }
  lia.
Qed.

Lemma plain_fixed t : plain t = true -> sanitize t = t.
Proof.
  unfold plain. rewrite !andb_true_iff. intros [[[Hc Hs] Hl] Hr].
  rewrite forallb_forall in Hc.
  assert (Namp : ~ In (ch "&") t).
  { intros Hin. specialize (Hc _ Hin). now rewrite N.eqb_refl in Hc. }
  assert (Nlt : ~ In (ch "<") t).
  { intros Hin. specialize (Hc _ Hin). rewrite N.eqb_refl in Hc.
    now rewrite andb_false_r in Hc. }
  apply sanitize_fixed.
  - intros e He (a & b & ->). apply Namp.
    apply in_or_app. right. apply in_or_app. left.
    simpl in He. destruct He as [<-|[<-|[<-|[<-|[<-|[]]]]]]; now left.
  - intros a b -> _. apply Nlt. apply in_or_app. right. now left.
  - exact Hs.
  - unfold trim. rewrite (drop_spaces_id t Hl), (drop_spaces_id (rev t) Hr).
    apply rev_involutive.
Qed.

(** *** Escaping can be undone *)

Lemma escaped_nil kw : escaped kw = [] -> kw = [].
Proof.
  destruct kw as [|c kw]; [reflexivity|]. unfold escaped. cbn [flat_map].
  destruct (is_meta c); discriminate.
Qed.

Lemma unescape_two b c rest :
  unescape (b :: c :: rest) =
  if N.eqb b backslash then c :: unescape rest else b :: unescape (c :: rest).
Proof. reflexivity. Qed.

Lemma unescape_escaped : forall kw, unescape (escaped kw) = kw.
Proof.
  induction kw as [|c kw IH]; [reflexivity|].
  unfold escaped. cbn [flat_map]. fold (escaped kw).
  destruct (is_meta c) eqn:E.
  - cbn [app]. rewrite unescape_two. unfold backslash at 1.
    rewrite N.eqb_refl. now rewrite IH.
  - cbn [app]. destruct (escaped kw) as [|d rest] eqn:K.
    + apply escaped_nil in K. now subst kw.
    + rewrite unescape_two.
      destruct (N.eqb c backslash) eqn:B.
      * apply N.eqb_eq in B. subst c. discriminate.
      * now rewrite IH.
Qed.

Lemma escaped_length kw :
  length kw <= length (escaped kw) <= 2 * length kw.
Proof.
  induction kw as [|c kw IH]; [simpl; lia|].
  unfold escaped. cbn [flat_map]. fold (escaped kw).
  rewrite length_app. destruct (is_meta c); simpl; lia.
Qed.

Lemma escaped_clean kw :
  forallb (fun c => negb (is_meta c)) kw = true -> escaped kw = kw.
Proof.
  induction kw as [|c kw IH]; [reflexivity|]. cbn [forallb].
  intros H. apply andb_prop in H. destruct H as [Hc H].
  unfold escaped. cbn [flat_map]. fold (escaped kw).
  destruct (is_meta c); [discriminate|]. cbn [app]. now rewrite IH.
Qed.

(** *** The filter as a list function *)

Lemma filter_twice {A} (p : A -> bool) l : filter p (filter p l) = filter p l.
Proof.
  induction l as [|x l IH]; [reflexivity|]. cbn [filter].
  destruct (p x) eqn:E; [|exact IH]. cbn [filter]. now rewrite E, IH.
Qed.

Lemma filter_shorter {A} (p : A -> bool) l : length (filter p l) <= length l.
Proof.
  induction l as [|x l IH]; [reflexivity|]. cbn [filter].
  destruct (p x); simpl; lia.
Qed.

Lemma filterM_ext {A} (f g : A -> result bool) l :
  (forall x, f x = g x) -> filterM f l = filterM g l.
Proof.
  intros H. induction l as [|x l IH]; [reflexivity|].
  cbn [filterM]. now rewrite H, IH.
Qed.

Lemma filterByKeywords_Ok jobs kw kws r :
  filterByKeywords jobs (Some (kw :: kws)) = Ok r ->
  r = filter (selected (kw :: kws)) jobs.
Proof.
  intros H. destruct (filterByKeywords_cases kw kws jobs) as [E|[E _]];
    rewrite E in H; [now injection H as <- | discriminate].
Qed.

Lemma selected_searchable kws job :
  selected kws job = true -> is_ok (searchText job) = true.
Proof. unfold selected. now destruct (searchText job). Qed.

Lemma filterByKeywords_searchable jobs kw kws :
  Forall (fun job => is_ok (searchText job) = true) jobs ->
  filterByKeywords jobs (Some (kw :: kws)) =
  Ok (filter (selected (kw :: kws)) jobs).
Proof.
  intros H. destruct (filterByKeywords_cases kw kws jobs) as [E|[_ E]];
    [exact E|].
  exfalso. apply Exists_exists in E. destruct E as (job & Hin & Hj).
  rewrite Forall_forall in H. specialize (H job Hin). congruence.
Qed.

(** The result of the filter is part of its input, and filtering it again
    changes nothing. *)
Lemma filterByKeywords_sub jobs kws r :
  filterByKeywords jobs kws = Ok r ->
  (forall job, In job r -> In job jobs) /\
  length r <= length jobs /\
  filterByKeywords r kws = Ok r.
Proof.
  destruct kws as [[|kw kws]|].
  - intros [= <-]. repeat split; auto.
  - intros H. apply filterByKeywords_Ok in H. subst r. repeat split.
    + intros job Hin. now apply filter_In in Hin.
    + apply filter_shorter.
    + rewrite filterByKeywords_searchable; [now rewrite filter_twice|].
      apply Forall_forall. intros job Hin. apply filter_In in Hin.
      now apply (selected_searchable (kw :: kws)).
  - intros [= <-]. repeat split; auto.
Qed.

(** *** Keywords as a set, and their letter case *)

Lemma test_by_words K1 K2 text :
  K1 <> [] -> K2 <> [] ->
  (whole_word K1 text <-> whole_word K2 text) ->
  test (keyword_regex K1) text = test (keyword_regex K2) text.
Proof.
  intros H1 H2 H. destruct K1 as [|k1 K1], K2 as [|k2 K2]; try contradiction.
  destruct (test (keyword_regex (k1 :: K1)) text) eqn:E1,
           (test (keyword_regex (k2 :: K2)) text) eqn:E2; try reflexivity.
  - apply test_keyword_regex, H, test_keyword_regex in E1. congruence.
  - apply test_keyword_regex, H, test_keyword_regex in E2. congruence.
Qed.

Lemma filterByKeywords_by_words jobs K1 K2 :
  K1 <> [] -> K2 <> [] ->
  (forall text, whole_word K1 text <-> whole_word K2 text) ->
  filterByKeywords jobs (Some K1) = filterByKeywords jobs (Some K2).
Proof.
  intros H1 H2 H. pose proof (fun text => test_by_words K1 K2 text H1 H2 (H text)) as T.
  destruct K1 as [|k1 K1], K2 as [|k2 K2]; try contradiction.
  rewrite !filterByKeywords_cons. apply filterM_ext. intros job.
  destruct (searchText job); [|reflexivity]. cbn [bind]. now rewrite T.
Qed.

Lemma whole_word_related (R : jsstring -> jsstring -> Prop) K1 K2 text :
  (forall k k' occ, R k k' -> same_text true k occ -> same_text true k' occ) ->
  (forall k, In k K1 -> exists k', In k' K2 /\ R k k') ->
  whole_word K1 text -> whole_word K2 text.
Proof.
  intros HR H (k & a & occ & b & Hin & E & Hs & B1 & B2).
  destruct (H k Hin) as (k' & Hin' & Hk).
  exists k', a, occ, b. repeat split; try assumption. now apply (HR k k').
Qed.

Lemma same_text_upper k occ :
  same_text true k occ <-> map to_upper occ = map to_upper k.
Proof.
  unfold same_text, char_matches, canon. split.
  - induction 1 as [|c x k occ Hx _ IH]; [reflexivity|].
    apply N.eqb_eq in Hx. cbn [map]. now rewrite Hx, IH.
  - revert occ. induction k as [|c k IH]; intros [|x occ] E; try discriminate;
      [constructor|].
    injection E as Hx E. constructor; [now apply N.eqb_eq | now apply IH].
Qed.

Lemma Forall2_In_l {A B} (R : A -> B -> Prop) l l' x :
  Forall2 R l l' -> In x l -> exists y, In y l' /\ R x y.
Proof.
  induction 1 as [|a b l l' Hab _ IH]; intros Hin; [contradiction|].
  destruct Hin as [<-|Hin].
  - exists b. split; [now left | assumption].
  - destruct (IH Hin) as (y & Hy & Hr). exists y. split; [now right | assumption].
Qed.

Lemma Forall2_In_r {A B} (R : A -> B -> Prop) l l' y :
  Forall2 R l l' -> In y l' -> exists x, In x l /\ R x y.
Proof.
  induction 1 as [|a b l l' Hab _ IH]; intros Hin; [contradiction|].
  destruct Hin as [<-|Hin].
  - exists a. split; [now left | assumption].
  - destruct (IH Hin) as (x & Hx & Hr). exists x. split; [now right | assumption].
Qed.

(** *** The empty keyword *)

Lemma any_boundary : forall s pre,
  any_pos (fun p t => at_boundary (MState p t [])) pre s =
  word_before (MState pre s []) || existsb is_word s.
Proof.
  induction s as [|x s IH]; intros pre; cbn [any_pos existsb].
  - unfold at_boundary, word_after. cbn [after].
    rewrite xorb_false_r. reflexivity.
  - rewrite IH. unfold at_boundary, word_before, word_after. cbn [before after].
    destruct pre as [|y pre]; [destruct (is_word x); reflexivity|].
    destruct (is_word y), (is_word x), (existsb is_word s); reflexivity.
Qed.

Lemma test_empty_keyword text :
  test (keyword_regex [[]]) text = existsb is_word text.
Proof.
  rewrite test_any_pos.
  rewrite (any_pos_ext _ (fun p t => at_boundary (MState p t []))).
  - now rewrite any_boundary.
  - intros pre s. cbn [ignoreCase]. rewrite m_keyword_regex.
    unfold keyword_here. cbn [existsb prefix_ci length andb orb].
    rewrite advance_0, orb_false_r. now destruct (at_boundary _).
Qed.

(** *** Jobs made from well-formed records can be searched *)

Lemma mapMi_In {A B} (f : nat -> A -> result B) : forall l i r,
  mapMi f i l = Ok r ->
  forall y, In y r -> exists k x, In x l /\ f k x = Ok y.
Proof.
  induction l as [|a l IH]; intros i r H y Hy; cbn [mapMi] in H.
  - injection H as <-. contradiction.
  - destruct (f i a) as [b|] eqn:Fb; [|discriminate]. cbn [bind] in H.
    destruct (mapMi f (S i) l) as [ys|] eqn:M; [|discriminate].
    cbn [bind] in H. injection H as <-. destruct Hy as [<-|Hy].
    + exists i, a. split; [now left | assumption].
    + destruct (IH _ _ M y Hy) as (k & x & Hx & Fx).
      exists k, x. split; [now right | assumption].
Qed.

(** Where the jobs of a returned listing come from. *)
Lemma fetchJobs_Ok axios_get clock this filters jobs :
  fetchJobs axios_get clock this filters = Ok jobs ->
  exists data records,
    axios_get (listing_request this filters) = Resolved data /\
    or_else (optGet data (js "jobs")) (JArray []) = JArray records /\
    mapMi (fun k job => normalizeJob this (clock k) job) 0 records = Ok jobs.
Proof.
  intros H. destruct (axios_get (listing_request this filters)) as [data|e] eqn:A.
  - rewrite (fetchJobs_resolved _ _ _ _ _ A) in H.
    destruct (nullish data); [discriminate|].
    destruct (or_else (optGet data (js "jobs")) (JArray [])) eqn:J;
      try discriminate.
    now exists data, elems.
  - unfold fetchJobs in H. rewrite A in H. discriminate.
Qed.

Lemma print_names names :
  Forall (fun x => optional is_string x = true) names ->
  is_ok (mapM (fun x => if nullish x then Ok [] else ToString x) names) = true.
Proof.
  induction 1 as [|x l Hx _ IH]; [reflexivity|].
  cbn [mapM]. destruct x; try discriminate; cbn [nullish ToString bind];
    now destruct (mapM _ l).
Qed.

Lemma or_else_optional_string v :
  optional is_string v = true ->
  exists s, or_else (or_else v (JString [])) (JString []) = JString s.
Proof.
  destruct v as [| | | |s| |]; try discriminate; intros _.
  - now exists [].
  - now exists [].
  - exists s. now destruct s.
Qed.

Lemma well_formed_searchable this now record nj :
  well_formed record = true ->
  normalizeJob this now record = Ok nj ->
  is_ok (searchText nj) = true.
Proof.
  intros W H. destruct record as [| | | | | |props]; try discriminate.
  unfold well_formed in W. rewrite !andb_true_iff in W.
  destruct W as [[[[[[[[[_ Ht] _] _] Hdep] _] Hc] _] _] _].
  apply normalizeJob_inv in H. destruct H as (ext & dn & ofn & _ & Hd & _ & ->).
  cbn [optGet] in *. unfold searchText.
  cbn [Job.content Job.departments Job.title].
  destruct (or_else_optional_string _ Hc) as [c ->].
  rewrite decodeHtml_string. cbn [bind].
  assert (J : is_ok (join (or_else (or_else dn (JArray [])) (JArray [])) (js " ")) = true).
  { rewrite map_names_spec in Hd.
    destruct (lookup (js "departments") props) as [| | | | |elems|];
      try discriminate.
    - now injection Hd as <-.
    - now injection Hd as <-.
    - destruct (forallb _ elems); [|discriminate]. injection Hd as <-.
      cbn [or_else truthy join].
      assert (P : is_ok (mapM (fun x => if nullish x then Ok [] else ToString x)
                              (map (fun d => optGet d (js "name")) elems)) = true).
      { apply print_names. apply Forall_forall. intros x Hx.
        apply in_map_iff in Hx. destruct Hx as (d & <- & Hin).
        cbn in Hdep. rewrite forallb_forall in Hdep. specialize (Hdep d Hin).
        now destruct d. }
      now destruct (mapM _ (map _ elems)). }
  destruct (join _ (js " ")) as [d|]; [|discriminate]. cbn [bind].
  destruct (or_else_optional_string _ Ht) as [t E].
  assert (T : or_else (lookup (js "title") props) (JString []) = JString t
              \/ exists t', or_else (lookup (js "title") props) (JString []) = JString t').
  { right. destruct (lookup (js "title") props) as [| | | |s| |]; try discriminate.
    - now exists [].
    - now exists [].
    - destruct s; [now exists [] | eexists; reflexivity]. }
  destruct T as [T|[t' T]]; rewrite T; reflexivity.
Qed.

Lemma fetchJobs_tokens axios_get clock this filters jobs :
  fetchJobs axios_get clock this filters = Ok jobs ->
  Forall (fun nj => Job.companyToken nj = companyToken this) jobs.
Proof.
  intros H. apply fetchJobs_Ok in H. destruct H as (data & records & _ & _ & M).
  apply Forall_forall. intros nj Hin.
  destruct (mapMi_In _ _ _ _ M nj Hin) as (k & x & _ & F).
  apply normalizeJob_inv in F. now destruct F as (? & ? & ? & _ & _ & _ & ->).
Qed.

(** *** The tenant segment *)

Lemma take_while_all p s : forallb p (take_while p s) = true.
Proof.
  induction s as [|x s IH]; [reflexivity|]. simpl.
  destruct (p x) eqn:E; [|reflexivity]. simpl. now rewrite E.
Qed.

Lemma take_while_rest p s :
  exists b, s = take_while p s ++ b /\
            match b with [] => True | c :: _ => p c = false end.
Proof.
  induction s as [|x s (b & Hb & Hc)]; [now exists []|]. simpl.
  destruct (p x) eqn:E.
  - exists b. split; [simpl; now f_equal | exact Hc].
  - now exists (x :: s).
Qed.

(** The tenant found is the longest run of segment characters right
    after an occurrence of the host text. *)
Lemma find_tenant_shape ic h url seg :
  find_tenant ic h url = Some seg ->
  seg <> [] /\ forallb seg_char seg = true /\
  exists a occ b,
    url = a ++ occ ++ seg ++ b /\ same_text ic h occ /\
    match b with [] => True | c :: _ => seg_char c = false end.
Proof.
  intros F. apply find_tenant_Some in F. destruct F as (a & t & -> & T).
  unfold tenant_here in T.
  destruct (prefix_ci ic h t) eqn:P; [|discriminate].
  apply prefix_ci_split in P. destruct P as (occ & post & -> & Hs).
  rewrite <- (same_text_length _ _ _ Hs), skipn_app, Nat.sub_diag, skipn_all, skipn_O in T.
  cbn [app] in T.
  destruct (take_while_rest seg_char post) as (b & Hb & Hc).
  pose proof (take_while_all seg_char post) as Hall.
  destruct (take_while seg_char post) as [|y l] eqn:W; [discriminate|].
  injection T as <-. split; [discriminate|]. split; [exact Hall|].
  exists a, occ, b. rewrite Hb at 1. now repeat split.
Qed.

Lemma prefix_ci_length ic h s : prefix_ci ic h s = true -> length h <= length s.
Proof.
  revert s; induction h as [|c h IH]; intros [|x s]; simpl; intros H;
    try lia; try discriminate.
  apply andb_prop in H. destruct H as [_ H]. apply IH in H. lia.
Qed.

Lemma prefix_ci_app_r ic h : forall s y,
  length h <= length s -> prefix_ci ic h (s ++ y) = prefix_ci ic h s.
Proof.
  induction h as [|c h IH]; intros [|x s] y L; simpl in *; try reflexivity; try lia.
  rewrite IH by lia. reflexivity.
Qed.

Lemma take_while_app_stop p c tail : forall u,
  p c = false -> take_while p (u ++ c :: tail) = take_while p u.
Proof.
  intros u H. induction u as [|x u IH]; simpl; [now rewrite H|].
  now rewrite IH.
Qed.

Lemma tenant_here_append ic h s c tail :
  length h <= length s -> seg_char c = false ->
  tenant_here ic h (s ++ c :: tail) = tenant_here ic h s.
Proof.
  intros L C. unfold tenant_here. rewrite prefix_ci_app_r by assumption.
  rewrite skipn_app. replace (length h - length s) with 0 by lia.
  cbn [skipn]. now rewrite take_while_app_stop.
Qed.

Lemma tenant_here_length ic h s seg :
  tenant_here ic h s = Some seg -> length h <= length s.
Proof.
  unfold tenant_here. destruct (prefix_ci ic h s) eqn:P; [|discriminate].
  intros _. now apply prefix_ci_length in P.
Qed.

Lemma find_tenant_length ic h : forall s seg,
  find_tenant ic h s = Some seg -> length h <= length s.
Proof.
  induction s as [|x s IH]; intros seg F; cbn [find_tenant] in F.
  - destruct (tenant_here ic h []) eqn:T; [|discriminate].
    now apply tenant_here_length in T.
  - destruct (tenant_here ic h (x :: s)) eqn:T.
    + now apply tenant_here_length in T.
    + apply IH in F. simpl. lia.
Qed.

(** What follows a [/] or [?] after the URL does not change the tenant. *)
Lemma find_tenant_append ic h c tail : forall s seg,
  seg_char c = false ->
  find_tenant ic h s = Some seg ->
  find_tenant ic h (s ++ c :: tail) = Some seg.
Proof.
  induction s as [|x s IH]; intros seg C F.
  - pose proof (find_tenant_length _ _ _ _ F) as L.
    cbn [find_tenant] in F. rewrite <- (tenant_here_append ic h [] c tail L C) in F.
    cbn [app] in *. cbn [find_tenant].
    destruct (tenant_here ic h (c :: tail)); [exact F | discriminate].
  - pose proof (find_tenant_length _ _ _ _ F) as L.
    cbn [find_tenant app] in *.
    change (x :: s ++ c :: tail) with ((x :: s) ++ c :: tail).
    rewrite (tenant_here_append ic h (x :: s) c tail L C).
    destruct (tenant_here ic h (x :: s)); [exact F|].
    cbn [app]. now apply IH.
Qed.

(** *** From a URL to a scraper *)

Lemma createScraperFromUrl_find url :
  createScraperFromUrl url =
  match find_tenant true (js "greenhouse.io/") url with
  | Some seg => Ok (MkScraper seg api_root)
  | None => Throw (UserError (js "Could not parse Greenhouse URL: " ++ url))
  end.
Proof.
  unfold createScraperFromUrl. rewrite parseGreenhouseUrl_find.
  now destruct (find_tenant true (js "greenhouse.io/") url).
Qed.

(** *** More on the listing and on keyword lists *)

Lemma fetchJobs_well_formed axios_get clock this filters data records :
  axios_get (listing_request this filters) = Resolved data ->
  optGet data (js "jobs") = JArray records ->
  Forall (fun record => well_formed record = true) records ->
  exists jobs,
    fetchJobs axios_get clock this filters = Ok jobs /\
    mapMi (fun k job => normalizeJob this (clock k) job) 0 records = Ok jobs.
Proof.
  intros H J W.
  assert (N : nullish data = false) by (destruct data; try discriminate; reflexivity).
  rewrite (fetchJobs_resolved _ clock _ _ _ H), N, J. cbn [or_else truthy].
  pose proof (mapMi_is_ok (fun k job => normalizeJob this (clock k) job) records 0) as Hok.
  destruct (mapMi (fun k job => normalizeJob this (clock k) job) 0 records)
    as [jobs|e] eqn:M.
  - now exists jobs.
  - exfalso. assert (T : is_ok (@Throw (list NormalizedJob) e) = true).
    { apply Hok. intros k x Hx. apply well_formed_normalizable.
      rewrite Forall_forall in W. now apply W. }
    discriminate.
Qed.

(** A match of the keyword pattern needs a word character in the text. *)
Lemma test_keyword_needs_word kw kws text :
  test (keyword_regex (kw :: kws)) text = true -> existsb is_word text = true.
Proof.
  rewrite test_any_pos.
  rewrite (any_pos_ext _ (keyword_here (kw :: kws)))
    by (intros; apply m_keyword_regex).
  intros H. apply any_pos_true in H. destruct H as (a & b & E & H).
  unfold keyword_here in H. apply andb_prop in H. destruct H as [H _].
  assert (B : any_pos (fun p t => at_boundary (MState p t [])) [] text = true)
    by (apply any_pos_true; now exists a, b).
  now rewrite any_boundary in B.
Qed.

Lemma whole_word_any kws text :
  whole_word kws text <-> exists k, In k kws /\ whole_word [k] text.
Proof.
  split.
  - intros (k & a & occ & b & Hin & H). exists k. split; [exact Hin|].
    exists k, a, occ, b. split; [now left | exact H].
  - intros (k & Hin & k' & a & occ & b & [<-|[]] & H).
    now exists k, a, occ, b.
Qed.

Lemma test_with_empty_keyword kws text :
  In [] kws -> test (keyword_regex kws) text = existsb is_word text.
Proof.
  intros Hin. destruct kws as [|kw kws]; [contradiction|].
  destruct (test (keyword_regex (kw :: kws)) text) eqn:T.
  - symmetry. now apply test_keyword_needs_word in T.
  - destruct (existsb is_word text) eqn:E; [|reflexivity].
    rewrite <- test_empty_keyword in E. apply test_keyword_regex in E.
    assert (W : whole_word (kw :: kws) text)
      by (apply whole_word_any; now exists []).
    apply (proj2 (test_keyword_regex kw kws text)) in W.
    exact (eq_trans (eq_sym T) W).
Qed.

Lemma selected_any kws job :
  kws <> [] ->
  (selected kws job = true <-> exists k, In k kws /\ selected [k] job = true).
Proof.
  intros Hk. destruct kws as [|kw kws]; [contradiction|].
  unfold selected. destruct (searchText job) as [text|e].
  - rewrite test_keyword_regex, whole_word_any. split.
    + intros (k & Hin & W). exists k. split; [exact Hin|].
      now apply test_keyword_regex.
    + intros (k & Hin & W). exists k. split; [exact Hin|].
      now apply test_keyword_regex.
  - split; [discriminate|]. now intros (k & _ & H).
Qed.

Lemma selected_single kw kws job :
  selected (kw :: kws) job = true <->
  filterByKeywords [job] (Some (kw :: kws)) = Ok [job].
Proof.
  unfold selected. destruct (searchText job) as [text|e] eqn:S.
  - rewrite (filter_single _ _ _ _ S).
    destruct (test (keyword_regex (kw :: kws)) text); split; intros H;
      try reflexivity; discriminate.
  - rewrite filterByKeywords_cons. cbn [filterM]. rewrite S.
    split; discriminate.
Qed.

Lemma same_letters_text k k' occ :
  same_letters k k' -> same_text true k occ -> same_text true k' occ.
Proof.
  unfold same_letters. rewrite !same_text_upper. congruence.
Qed.

Lemma same_letters_words kws kws' text :
  Forall2 same_letters kws kws' ->
  (whole_word kws text <-> whole_word kws' text).
Proof.
  intros F. split.
  - apply (whole_word_related same_letters); [apply same_letters_text|].
    intros k Hin. now apply (Forall2_In_l _ _ _ _ F).
  - apply (whole_word_related (fun k k' => same_letters k' k)).
    + intros k k' occ R. apply same_letters_text.
      unfold same_letters in *. now symmetry.
    + intros k Hin. destruct (Forall2_In_r _ _ _ _ F Hin) as (x & Hx & R).
      now exists x.
Qed.

(** *** Lower case and the case-insensitive match *)

Lemma to_upper_to_lower x : to_upper (to_lower x) = to_upper x.
Proof.
  unfold to_upper, to_lower, in_range.
  destruct (N.leb_spec 65 x), (N.leb_spec x 90); cbn [andb];
    repeat match goal with
           | |- context [(?a <=? ?b)%N] => destruct (N.leb_spec a b)
           end; cbn [andb]; try reflexivity; lia.
Qed.

Lemma is_word_to_lower x : is_word (to_lower x) = is_word x.
Proof.
  unfold to_lower, in_range.
  destruct ((65 <=? x)%N && (x <=? 90)%N) eqn:E; [|reflexivity].
  unfold is_word, in_range. rewrite E.
  apply andb_prop in E. destruct E as [E1 E2]. apply N.leb_le in E1, E2.
  replace (97 <=? x + 32)%N with true by (symmetry; apply N.leb_le; lia).
  replace (x + 32 <=? 122)%N with true by (symmetry; apply N.leb_le; lia).
  cbn [andb orb]. destruct ((97 <=? x)%N && (x <=? 122)%N); reflexivity.
Qed.

Lemma boundary_lower a r :
  boundary (toLowerCase a) (toLowerCase r) = boundary a r.
Proof.
  unfold boundary, at_boundary, word_before, word_after, toLowerCase.
  cbn [before after]. rewrite <- map_rev.
  destruct (rev a), r; cbn [map]; rewrite ?is_word_to_lower; reflexivity.
Qed.

Lemma same_text_lower kw occ :
  same_text true kw (toLowerCase occ) <-> same_text true kw occ.
Proof.
  rewrite !same_text_upper. unfold toLowerCase. rewrite map_map.
  rewrite (map_ext _ _ to_upper_to_lower). reflexivity.
Qed.

(** The match ignores the case of the letters of the text, so that
    lower-casing the text first changes nothing. *)
Lemma whole_word_lower kws text :
  whole_word kws (toLowerCase text) <-> whole_word kws text.
Proof.
  unfold whole_word. split.
  - intros (kw & a & occ & b & Hin & E & S & B1 & B2).
    unfold toLowerCase in E. apply map_eq_app in E.
    destruct E as (a' & r' & -> & <- & E).
    apply map_eq_app in E. destruct E as (occ' & b' & -> & <- & <-).
    exists kw, a', occ', b'. split; [exact Hin|]. split; [reflexivity|].
    split; [now apply same_text_lower|].
    fold (toLowerCase a') (toLowerCase occ') (toLowerCase b') in *.
    split.
    + rewrite <- B1. unfold toLowerCase at 2 3. rewrite <- map_app.
      symmetry. apply boundary_lower.
    + rewrite <- B2. unfold toLowerCase at 1 2. rewrite <- map_app.
      symmetry. apply boundary_lower.
  - intros (kw & a & occ & b & Hin & -> & S & B1 & B2).
    exists kw, (toLowerCase a), (toLowerCase occ), (toLowerCase b).
    split; [exact Hin|].
    split; [unfold toLowerCase; now rewrite !map_app|].
    split; [now apply same_text_lower|].
    split.
    + rewrite <- B1. unfold toLowerCase at 2 3. rewrite <- map_app.
      apply boundary_lower.
    + rewrite <- B2. unfold toLowerCase at 1 2. rewrite <- map_app.
      apply boundary_lower.
Qed.

Lemma searchText_strings t c ds e a1 a2 l o h u md q sa so ct :
  searchText (Job.Make e (JString t) a1 a2 l (JArray (map JString ds)) o
                       (JString c) h u md q sa so ct) =
  Ok (toLowerCase (searchable t c ds)).
Proof.
  unfold searchText, searchable, cleaned.
  cbn [Job.content Job.departments Job.title].
  assert (C : or_else (JString c) (JString []) = JString c)
    by (now destruct c).
  assert (T : or_else (JString t) (JString []) = JString t)
    by (now destruct t).
  rewrite C, T, decodeHtml_string. cbn [bind or_else truthy].
  rewrite mapM_strings, sanitize_chain. reflexivity.
Qed.

Lemma filter_by_test job text kw kws :
  searchText job = Ok text ->
  (filterByKeywords [job] (Some (kw :: kws)) = Ok [job] <->
   test (keyword_regex (kw :: kws)) text = true) /\
  (filterByKeywords [job] (Some (kw :: kws)) = Ok [] <->
   test (keyword_regex (kw :: kws)) text <> true).
Proof.
  intros H. rewrite (filter_single job text kw kws H).
  destruct (test (keyword_regex (kw :: kws)) text);
    split; split; intros E; try reflexivity; try discriminate;
    try (now elim E); try (intros E'; discriminate).
Qed.

Lemma filter_by_fields t c ds e a1 a2 l o h u md q sa so ct kw kws :
  (filterByKeywords
     [Job.Make e (JString t) a1 a2 l (JArray (map JString ds)) o
               (JString c) h u md q sa so ct] (Some (kw :: kws)) =
   Ok [Job.Make e (JString t) a1 a2 l (JArray (map JString ds)) o
                (JString c) h u md q sa so ct] <->
   whole_word (kw :: kws) (searchable t c ds)) /\
  (filterByKeywords
     [Job.Make e (JString t) a1 a2 l (JArray (map JString ds)) o
               (JString c) h u md q sa so ct] (Some (kw :: kws)) = Ok [] <->
   ~ whole_word (kw :: kws) (searchable t c ds)).
Proof.
  destruct (filter_by_test _ _ kw kws
              (searchText_strings t c ds e a1 a2 l o h u md q sa so ct))
    as [A B].
  rewrite A, B, test_keyword_regex, whole_word_lower. now split.
Qed.

(** *** A response without an array of jobs *)

Lemma fetchJobs_resolved_throws axios_get clock this filters data :
  axios_get (listing_request this filters) = Resolved data ->
  only_TypeError (fetchJobs axios_get clock this filters).
Proof.
  intros H. rewrite (fetchJobs_resolved _ clock _ _ _ H).
  destruct (nullish data); [intros e [= <-]; reflexivity|].
  destruct (or_else (optGet data (js "jobs")) (JArray []));
    try (intros e [= <-]; reflexivity).
  apply mapMi_throws. intros k x. apply normalizeJob_throws.
Qed.

Lemma fetchJobs_no_array axios_get clock this filters data :
  axios_get (listing_request this filters) = Resolved data ->
  is_array (optGet data (js "jobs")) = false ->
  fetchJobs axios_get clock this filters =
  if negb (nullish data) && negb (truthy (optGet data (js "jobs")))
  then Ok [] else Throw TypeError.
Proof.
  intros H A. rewrite (fetchJobs_resolved _ clock _ _ _ H).
  destruct (nullish data); [reflexivity|]. cbn [negb andb].
  unfold or_else. destruct (truthy (optGet data (js "jobs"))) eqn:T.
  - destruct (optGet data (js "jobs")); try discriminate; reflexivity.
  - reflexivity.
Qed.

(* ================================================================== *)
(** ** Theorems *)
(* ================================================================== *)

(** *** Job normalizer *)

(** C1, as stated, fails: the empty vendor record is well formed and
    [normalizeJob] returns for it, but [externalId], [title],
    [absoluteUrl], [applyUrl] and [updatedAt] of the result are
    [undefined]. *)
Lemma C1_counterexample :
  well_formed (JObject []) = true /\
  exists nj,
    normalizeJob (new_GreenhouseScraper (js "acme")) (js "2026-01-01T00:00:00.000Z")
                 (JObject []) = Ok nj /\
    Job.externalId nj = JUndefined /\ Job.title nj = JUndefined /\
    Job.absoluteUrl nj = JUndefined /\ Job.applyUrl nj = JUndefined /\
    Job.updatedAt nj = JUndefined /\ all_defined nj = false.
Proof.
  split; [reflexivity|]. eexists. split; [reflexivity|].
  repeat split.
Qed.

(** C1 (amended).  For every well-formed vendor record [normalizeJob]
    returns a job.  [location], [departments], [offices], [content],
    [htmlContent], [metadata] and [questions] always have a value: an absent
    location gives ["Remote"], absent departments, offices, metadata and
    questions give the empty array, absent content gives the empty string.
    [scrapedAt], [source] and [companyToken] are the time of the call, the
    vendor tag and the scraper's token.  [externalId], [title],
    [absoluteUrl], [applyUrl] and [updatedAt] have no default: they are
    the input's [id] (as a string), [title], [absolute_url] (twice) and
    [updated_at], and are undefined where the input field is absent. *)
Theorem C1_normalizeJob_defaults
        (this : GreenhouseScraper) (now : jsstring) (job : jsval) :
  well_formed job = true ->
  exists nj,
    normalizeJob this now job = Ok nj /\
    defined (Job.location nj) = true /\
    defined (Job.departments nj) = true /\
    defined (Job.offices nj) = true /\
    defined (Job.content nj) = true /\
    defined (Job.htmlContent nj) = true /\
    defined (Job.metadata nj) = true /\
    defined (Job.questions nj) = true /\
    (nullish (optGet job (js "location")) = true ->
     Job.location nj = JString (js "Remote")) /\
    (nullish (optGet job (js "departments")) = true ->
     Job.departments nj = JArray []) /\
    (nullish (optGet job (js "offices")) = true -> Job.offices nj = JArray []) /\
    (nullish (optGet job (js "content")) = true ->
     Job.content nj = JString [] /\ Job.htmlContent nj = JString []) /\
    (nullish (optGet job (js "metadata")) = true -> Job.metadata nj = JArray []) /\
    (nullish (optGet job (js "questions")) = true -> Job.questions nj = JArray []) /\
    Job.scrapedAt nj = now /\
    Job.source nj = js "greenhouse" /\
    Job.companyToken nj = companyToken this /\
    defined (Job.externalId nj) = defined (optGet job (js "id")) /\
    Job.externalId nj =
      match optGet job (js "id") with
      | JNumber n => JString (number_toString n)
      | JString s => JString s
      | _ => JUndefined
      end /\
    Job.title nj = optGet job (js "title") /\
    Job.absoluteUrl nj = optGet job (js "absolute_url") /\
    Job.applyUrl nj = optGet job (js "absolute_url") /\
    Job.updatedAt nj = optGet job (js "updated_at").
Proof.
  intros H. destruct job as [| | | | | |props]; try discriminate.
  unfold well_formed in H. rewrite !andb_true_iff in H.
  destruct H as [[[[[[[[[Hid _] _] Hloc] Hdep] Hoff] _] _] _] _].
  rewrite normalizeJob_object.
  destruct (optToString_identifier _ Hid) as (ext & -> & Hext & Hval).
  destruct (map_names_ok _ Hdep) as (dn & -> & Hdn & _).
  destruct (map_names_ok _ Hoff) as (ofn & -> & Hofn & _).
  cbn [bind optGet]. eexists. split; [reflexivity|].
  cbn [Job.externalId Job.title Job.absoluteUrl Job.applyUrl Job.location
       Job.departments Job.offices Job.content Job.htmlContent Job.updatedAt
       Job.metadata Job.questions Job.scrapedAt Job.source Job.companyToken].
  repeat match goal with
         | |- _ /\ _ => split
         | |- defined (or_else _ _) = true => now apply or_else_defined
         end; try reflexivity; try assumption.
  - intros N. destruct (lookup (js "location") props); try discriminate; reflexivity.
  - intros N. now rewrite (Hdn N).
  - intros N. now rewrite (Hofn N).
  - intros N. now rewrite (or_else_absent _ _ N).
  - intros N. now rewrite (or_else_absent _ _ N).
  - intros N. now rewrite (or_else_absent _ _ N).
Qed.

(** The theorem at a record with an identifier, a title, a department and
    content, and no location. *)
Lemma C1_witness :
  well_formed sample_record = true /\
  exists nj,
    normalizeJob (new_GreenhouseScraper (js "acme")) (js "2026-01-01T00:00:00.000Z")
                 sample_record = Ok nj /\
    Job.location nj = JString (js "Remote") /\
    Job.externalId nj = JString (js "4012345").
Proof.
  split; [reflexivity|].
  destruct (C1_normalizeJob_defaults (new_GreenhouseScraper (js "acme"))
              (js "2026-01-01T00:00:00.000Z") sample_record eq_refl)
    as (nj & Hnj & _).
  exists nj. split; [exact Hnj|].
  vm_compute in Hnj. injection Hnj as <-. split; reflexivity.
Defined.

(** *** URL resolver *)

(** C2.  The three documented URLs resolve as documented, and the region
    of a resolved URL is decided by the occurrence of [.eu.greenhouse.io]
    in the URL alone, for any list of patterns: a URL of the US host that
    mentions the EU host in its query is tagged [eu]. *)
Theorem C2_url_resolver :
  parseGreenhouseUrl (js "https://boards.greenhouse.io/acme") =
    Some (Tenant.Make (JString (js "acme")) (js "us")) /\
  parseGreenhouseUrl (js "https://job-boards.eu.greenhouse.io/acme") =
    Some (Tenant.Make (JString (js "acme")) (js "eu")) /\
  parseGreenhouseUrl (js "https://example.com/careers") = None /\
  (forall url ps,
     option_map Tenant.region (first_match url ps) =
     option_map (fun _ => if includes url (js ".eu.greenhouse.io")
                          then js "eu" else js "us")
                (first_match url ps)) /\
  (forall url,
     option_map Tenant.region (parseGreenhouseUrl url) =
     option_map (fun _ => if includes url (js ".eu.greenhouse.io")
                          then js "eu" else js "us")
                (parseGreenhouseUrl url)) /\
  parseGreenhouseUrl (js "https://boards.greenhouse.io/acme?ref=.eu.greenhouse.io") =
    Some (Tenant.Make (JString (js "acme")) (js "eu")).
Proof.
  assert (R : forall url ps,
     option_map Tenant.region (first_match url ps) =
     option_map (fun _ => if includes url (js ".eu.greenhouse.io")
                          then js "eu" else js "us")
                (first_match url ps)).
  { intros url ps. induction ps as [|p ps IH]; [reflexivity|].
    cbn [first_match]. destruct (str_match url p); [reflexivity | exact IH]. }
  split; [vm_compute; reflexivity|].
  split; [vm_compute; reflexivity|].
  split; [vm_compute; reflexivity|].
  split; [exact R|].
  split; [intros url; apply R|].
  vm_compute; reflexivity.
Qed.

(** C9, as stated, fails: the patterns carry the [i] flag, so a URL whose
    host is written in capitals resolves although the text
    [greenhouse.io/] does not occur in it. *)
Lemma C9_counterexample :
  parseGreenhouseUrl (js "https://boards.GREENHOUSE.IO/acme") =
    Some (Tenant.Make (JString (js "acme")) (js "us")) /\
  includes (js "https://boards.GREENHOUSE.IO/acme") (js "greenhouse.io/") = false /\
  find_tenant false (js "greenhouse.io/") (js "https://boards.GREENHOUSE.IO/acme") = None.
Proof. repeat split; vm_compute; reflexivity. Qed.

(** C9 (amended).  [parseGreenhouseUrl] succeeds exactly when
    [greenhouse.io/], its letters in either case, followed by at least one
    code unit other than [/] and [?] occurs in the URL, and the tenant
    identifier is the segment after the first such occurrence
    ([find_tenant] scans the URL from the left and returns the longest run
    of such code units after the first place where the host text and one
    of them stand).  The first pattern decides every input: the resolver
    is the same function with the other three patterns removed.  URLs
    outside the four documented shapes resolve too. *)
Theorem C9_first_pattern_decides :
  (forall url,
     parseGreenhouseUrl url <> None <->
     exists a occ x b,
       url = a ++ occ ++ x :: b /\
       same_text true (js "greenhouse.io/") occ /\ seg_char x = true) /\
  (forall url,
     parseGreenhouseUrl url =
     option_map (fun seg => Tenant.Make (JString seg) (region_of url))
                (find_tenant true (js "greenhouse.io/") url)) /\
  (forall url,
     parseGreenhouseUrl url = first_match url [host_re "greenhouse.io/"]) /\
  parseGreenhouseUrl (js "https://api.greenhouse.io/v1/boards") =
    Some (Tenant.Make (JString (js "v1")) (js "us")) /\
  parseGreenhouseUrl (js "https://example.com/r/greenhouse.io/acme/jobs") =
    Some (Tenant.Make (JString (js "acme")) (js "us")).
Proof.
  split.
  { intros url. rewrite <- find_tenant_iff, parseGreenhouseUrl_find.
    destruct (find_tenant true (js "greenhouse.io/") url);
      split; intros H; try discriminate; now elim H. }
  split; [apply parseGreenhouseUrl_find|].
  split.
  - intros url. rewrite parseGreenhouseUrl_find, first_match_host.
    now destruct (find_tenant true (js "greenhouse.io/") url).
  - split; vm_compute; reflexivity.
Qed.

(** *** Content sanitizer *)

(** C3, as stated, fails: sanitizing [&amp;lt;] gives [&lt;], and
    sanitizing that gives [<]. *)
Lemma C3_counterexample :
  decodeHtml (JString (js "&amp;lt;")) = Ok (js "&lt;") /\
  decodeHtml (JString (js "&lt;")) = Ok (js "<") /\
  js "<" <> js "&lt;".
Proof. repeat split; try (vm_compute; reflexivity). discriminate. Qed.

(** C3 (amended).  The sanitizer is idempotent on every string in which
    [&amp;] does not occur: sanitizing the sanitized text gives it back. *)
Theorem C3_sanitizer_idempotent (s : jsstring) :
  includes s (js "&amp;") = false ->
  exists t, decodeHtml (JString s) = Ok t /\ decodeHtml (JString t) = Ok t.
Proof.
  intros H. exists (sanitize s). rewrite !decodeHtml_string.
  split; [reflexivity|]. f_equal.
  apply sanitize_fixed.
  - apply sanitize_entity_free. intros Ho. apply includes_iff in Ho.
    now rewrite Ho in H.
  - apply sanitize_tagless.
  - apply sanitize_spaced.
  - apply sanitize_trimmed.
Qed.

(** The theorem at a text with entities, tags and runs of white space. *)
Lemma C3_witness :
  includes (js "<p>C++ &lt;dev&gt;  &quot;UI&quot;</p> <br/> team ") (js "&amp;") = false /\
  exists t,
    decodeHtml (JString (js "<p>C++ &lt;dev&gt;  &quot;UI&quot;</p> <br/> team ")) = Ok t /\
    decodeHtml (JString t) = Ok t.
Proof.
  split; [reflexivity|].
  apply (C3_sanitizer_idempotent
           (js "<p>C++ &lt;dev&gt;  &quot;UI&quot;</p> <br/> team ")).
  reflexivity.
Defined.

(** *** Keyword matcher *)

(** C4.  For every non-empty keyword list: each keyword is escaped by a
    backslash before each of its metacharacters and nothing else; the
    pattern text built from the escaped keywords always compiles, to the
    alternation of the keywords as literal characters between two word
    boundaries, so the filter throws no pattern error whatever the jobs
    are; and the compiled pattern matches a text only where one of the
    keywords occurs in it code unit by code unit (up to letter case).  The
    keyword [C++] is an instance: unescaped, its pattern would not
    compile. *)
Theorem C4_keywords_are_literal (kw : jsstring) (kws : list jsstring) :
  (forall k, escapeKeyword k = escaped k) /\
  new_RegExp (keywordPattern (kw :: kws)) (js "i") =
    Ok (keyword_regex (kw :: kws)) /\
  (forall jobs,
     filterByKeywords jobs (Some (kw :: kws)) <> Throw SyntaxError /\
     filterByKeywords jobs (Some (kw :: kws)) <> Throw Unmodelled) /\
  (forall text,
     test (keyword_regex (kw :: kws)) text = true ->
     exists k a occ b,
       In k (kw :: kws) /\ text = a ++ occ ++ b /\ same_text true k occ) /\
  escapeKeyword (js "C++") = js "C\+\+" /\
  new_RegExp (keywordPattern [js "C++"]) (js "i") =
    Ok (MkRegExp (seq_of [WordB; Group 1 (seq_of (lit "C++")); WordB]) true false) /\
  new_RegExp (js "\b(C++)\b") (js "i") = Throw SyntaxError.
Proof.
  split; [apply escapeKeyword_escaped|].
  split; [apply new_RegExp_keywordPattern|].
  split.
  { intros jobs. split; intros H;
      apply (filterByKeywords_throws jobs kw kws) in H; discriminate. }
  split.
  { intros text H. apply test_keyword_regex in H.
    destruct H as (k & a & occ & b & Hin & E & Hs & _).
    now exists k, a, occ, b. }
  repeat split; vm_compute; reflexivity.
Qed.

(** The theorem at two keywords with metacharacters and a text one of
    them occurs in. *)
Lemma C4_witness :
  test (keyword_regex [js "C++"; js "a.b"]) (js "we use c++11 daily") = true /\
  exists k a occ b,
    In k [js "C++"; js "a.b"] /\ js "we use c++11 daily" = a ++ occ ++ b /\
    same_text true k occ.
Proof.
  split; [vm_compute; reflexivity|].
  apply (proj1 (proj2 (proj2 (proj2 (C4_keywords_are_literal (js "C++") [js "a.b"]))))).
  vm_compute; reflexivity.
Defined.

(** C5.  For a posting whose title, content and department names are
    Basic Latin text, the text searched is the title, the sanitized
    content (entities decoded, tags and runs of white space replaced by
    one space, ends trimmed) and the department names joined by spaces,
    in that order with a space between them, in lower case.  Such a
    posting is selected exactly when one of the keywords, in whatever
    letter case it is given, occurs in that text, in whatever letter case
    it stands there, between two word boundaries; lower-casing the text
    changes nothing for the match.  The same holds of any job in terms of
    the text it is searched in.  So [ui] does not select a job in which
    it only occurs inside [build] or [GUI], and [ui] as well as [UI]
    select the jobs in which [UI], [ui], [Ui] or [uI] stands alone in the
    title, the content or a department.  The content counts as sanitized:
    [ui] inside a tag, written with or without entities, selects nothing,
    while [R&D] finds [R&amp;D] and [React Native] finds the two words
    with a tag or a run of spaces between them. *)
Theorem C5_whole_word_case_insensitive :
  (forall t c ds e a1 a2 l o h u md q sa so ct,
     basic_latin t = true -> basic_latin c = true ->
     forallb basic_latin ds = true ->
     searchText (Job.Make e (JString t) a1 a2 l (JArray (map JString ds)) o
                          (JString c) h u md q sa so ct) =
     Ok (toLowerCase (searchable t c ds))) /\
  (forall t c ds e a1 a2 l o h u md q sa so ct kw kws,
     basic_latin t = true -> basic_latin c = true ->
     forallb basic_latin ds = true ->
     (filterByKeywords
        [Job.Make e (JString t) a1 a2 l (JArray (map JString ds)) o
                  (JString c) h u md q sa so ct] (Some (kw :: kws)) =
      Ok [Job.Make e (JString t) a1 a2 l (JArray (map JString ds)) o
                   (JString c) h u md q sa so ct] <->
      whole_word (kw :: kws) (searchable t c ds)) /\
     (filterByKeywords
        [Job.Make e (JString t) a1 a2 l (JArray (map JString ds)) o
                  (JString c) h u md q sa so ct] (Some (kw :: kws)) = Ok [] <->
      ~ whole_word (kw :: kws) (searchable t c ds))) /\
  (forall kws text,
     basic_latin text = true ->
     (whole_word kws (toLowerCase text) <-> whole_word kws text)) /\
  (forall job text kw kws,
     searchText job = Ok text ->
     basic_latin text = true ->
     (filterByKeywords [job] (Some (kw :: kws)) = Ok [job] <->
      whole_word (kw :: kws) text) /\
     (filterByKeywords [job] (Some (kw :: kws)) = Ok [] <->
      ~ whole_word (kw :: kws) text)) /\
  filterByKeywords
    [ job_with (JString (js "Build engineer")) (JString (js "We build things"))
               (JArray [JString (js "Builders")]);
      job_with (JString (js "GUI toolkit maintainer")) (JString []) (JArray []) ]
    (Some [js "ui"]) = Ok [] /\
  filterByKeywords
    [ job_with (JString (js "UI designer")) (JString []) (JArray []);
      job_with (JString (js "Build engineer")) (JString []) (JArray []);
      job_with (JString (js "senior ui designer")) (JString []) (JArray []);
      job_with (JString (js "Designer (Ui)")) (JString []) (JArray []);
      job_with (JString (js "Designer")) (JString (js "<p>Figma &amp; <b>uI</b></p>"))
               (JArray []);
      job_with (JString (js "Designer")) (JString []) (JArray [JString (js "UI")]) ]
    (Some [js "ui"]) =
  Ok [ job_with (JString (js "UI designer")) (JString []) (JArray []);
       job_with (JString (js "senior ui designer")) (JString []) (JArray []);
       job_with (JString (js "Designer (Ui)")) (JString []) (JArray []);
       job_with (JString (js "Designer")) (JString (js "<p>Figma &amp; <b>uI</b></p>"))
                (JArray []);
       job_with (JString (js "Designer")) (JString []) (JArray [JString (js "UI")]) ] /\
  filterByKeywords
    [ posting "ui designer" ""; posting "Build engineer" "";
      posting "Designer" "<b>ui</b> and more"; posting "GUI toolkit" "" ]
    (Some [js "UI"]) =
  Ok [ posting "ui designer" ""; posting "Designer" "<b>ui</b> and more" ] /\
  filterByKeywords
    [ posting "Designer" "&lt;ui&gt;"; posting "Designer" "<ui-kit>tools</ui-kit>";
      posting "Designer" "<a href=ui>link</a>" ]
    (Some [js "ui"]) = Ok [] /\
  filterByKeywords
    [ posting "Researcher" "R&amp;D team";
      posting "Developer" "<p>React<br/>Native</p>";
      posting "Developer" "react     native apps";
      posting "Researcher" "R&amp;amp;D";
      posting "Developer" "react-native" ]
    (Some [js "R&D"; js "React Native"]) =
  Ok [ posting "Researcher" "R&amp;D team";
       posting "Developer" "<p>React<br/>Native</p>";
       posting "Developer" "react     native apps" ].
Proof.
  split; [intros; apply searchText_strings|].
  split; [intros; apply filter_by_fields|].
  split; [intros; apply whole_word_lower|].
  split.
  { intros job text kw kws H _.
    destruct (filter_by_test job text kw kws H) as [A B].
    rewrite A, B, test_keyword_regex. now split. }
  split; [vm_compute; reflexivity|].
  split; [vm_compute; reflexivity|].
  split; [vm_compute; reflexivity|].
  split; vm_compute; reflexivity.
Qed.

(** The theorem at a posting whose content has [UI] in a tag pair after an
    entity, and the keyword [Ui]. *)
Lemma C5_witness :
  searchable (js "Designer") (js "<p>Figma &amp; <b>UI</b></p>")
             [js "Product"; js "Design"] =
    js "Designer Figma & UI Product Design" /\
  filterByKeywords
    [job_with (JString (js "Designer")) (JString (js "<p>Figma &amp; <b>UI</b></p>"))
              (JArray [JString (js "Product"); JString (js "Design")])]
    (Some [js "Ui"]) =
  Ok [job_with (JString (js "Designer")) (JString (js "<p>Figma &amp; <b>UI</b></p>"))
               (JArray [JString (js "Product"); JString (js "Design")])].
Proof.
  assert (E : searchable (js "Designer") (js "<p>Figma &amp; <b>UI</b></p>")
                         [js "Product"; js "Design"] =
              js "Designer Figma & UI Product Design")
    by (vm_compute; reflexivity).
  split; [exact E|].
  apply (proj1 (proj1 (proj2 C5_whole_word_case_insensitive)
                  (js "Designer") (js "<p>Figma &amp; <b>UI</b></p>")
                  [js "Product"; js "Design"]
                  JUndefined JUndefined JUndefined JUndefined JUndefined
                  JUndefined JUndefined JUndefined JUndefined
                  [] (js "greenhouse") [] (js "Ui") []
                  eq_refl eq_refl eq_refl)).
  rewrite E.
  exists (js "Ui"), (js "Designer Figma & "), (js "UI"), (js " Product Design").
  split; [now left|]. split; [reflexivity|].
  split; [repeat constructor|]. split; reflexivity.
Defined.

(** C10.  With the keywords [c++], a job whose title is [c++ developer],
    with empty content and no departments, is not selected: its searchable
    text is [c++ developer] followed by two spaces, and the pattern finds
    no match in it, because a match of [c++] must be followed by a word
    character.  The same keyword selects a job titled [c++x developer]. *)
Theorem C10_trailing_boundary_after_plus :
  (forall e a1 a2 l o h u md q sa so ct,
     filterByKeywords
       [Job.Make e (JString (js "c++ developer")) a1 a2 l (JArray []) o
                 (JString []) h u md q sa so ct]
       (Some [js "c++"]) = Ok []) /\
  searchText (job_with (JString (js "c++ developer")) (JString []) (JArray [])) =
    Ok (js "c++ developer  ") /\
  test (keyword_regex [js "c++"]) (js "c++ developer  ") = false /\
  (forall text,
     test (keyword_regex [js "c++"]) text = true ->
     exists a occ x b,
       text = a ++ occ ++ x :: b /\ same_text true (js "c++") occ /\
       is_word x = true) /\
  filterByKeywords
    [job_with (JString (js "c++x developer")) (JString []) (JArray [])]
    (Some [js "c++"]) =
  Ok [job_with (JString (js "c++x developer")) (JString []) (JArray [])].
Proof.
  split; [intros; vm_compute; reflexivity|].
  split; [vm_compute; reflexivity|].
  split; [vm_compute; reflexivity|].
  split; [apply plusplus_needs_word|].
  vm_compute; reflexivity.
Qed.

(** The theorem at a text where [c++] is followed by a digit. *)
Lemma C10_witness :
  test (keyword_regex [js "c++"]) (js "modern c++17 code") = true /\
  exists a occ x b,
    js "modern c++17 code" = a ++ occ ++ x :: b /\
    same_text true (js "c++") occ /\ is_word x = true.
Proof.
  split; [vm_compute; reflexivity|].
  apply (proj1 (proj2 (proj2 (proj2 C10_trailing_boundary_after_plus)))).
  vm_compute; reflexivity.
Defined.

(** C6.  Without keywords, absent or empty, the filter returns the jobs
    it was given.  With keywords, for jobs whose searched fields are of the
    types the filter reads, it returns the jobs it selects, in the order
    of the input; for any jobs at all it returns exactly that list or
    throws a TypeError at a job it cannot read. *)
Theorem C6_pass_through_and_order (jobs : list NormalizedJob) :
  filterByKeywords jobs None = Ok jobs /\
  filterByKeywords jobs (Some []) = Ok jobs /\
  (forall kws,
     kws <> [] ->
     Forall (fun job => is_ok (searchText job) = true) jobs ->
     filterByKeywords jobs (Some kws) = Ok (filter (selected kws) jobs)) /\
  (forall kws,
     kws <> [] ->
     filterByKeywords jobs (Some kws) = Ok (filter (selected kws) jobs) \/
     (filterByKeywords jobs (Some kws) = Throw TypeError /\
      Exists (fun job => is_ok (searchText job) = false) jobs)).
Proof.
  split; [reflexivity|]. split; [reflexivity|]. split.
  - intros [|kw kws] Hk Hj; [contradiction|].
    rewrite filterByKeywords_cons. apply filterM_filter.
    apply Forall_forall. intros job Hin.
    rewrite Forall_forall in Hj. specialize (Hj job Hin).
    unfold selected. destruct (searchText job); [reflexivity | discriminate].
  - intros [|kw kws] Hk; [contradiction|]. apply filterByKeywords_cases.
Qed.

(** The theorem at three jobs and two keywords: the first and the third
    job are selected and keep their order. *)
Lemma C6_witness :
  filterByKeywords
    [ job_with (JString (js "React developer")) (JString []) (JArray []);
      job_with (JString (js "Accountant")) (JString []) (JArray []);
      job_with (JString (js "UI designer")) (JString []) (JArray []) ]
    (Some [js "ui"; js "react"]) =
  Ok [ job_with (JString (js "React developer")) (JString []) (JArray []);
       job_with (JString (js "UI designer")) (JString []) (JArray []) ].
Proof.
  apply (proj1 (proj2 (proj2 (C6_pass_through_and_order
    [ job_with (JString (js "React developer")) (JString []) (JArray []);
      job_with (JString (js "Accountant")) (JString []) (JArray []);
      job_with (JString (js "UI designer")) (JString []) (JArray []) ])))
    [js "ui"; js "react"]).
  - discriminate.
  - repeat constructor.
Defined.

(** *** Fetching *)

(** C7, as stated, fails for a malformed response body: a body the
    transport delivers as text that could not be parsed, or as an object
    without [jobs], is not surfaced; [fetchJobs] returns the empty list. *)
Lemma C7_counterexample :
  fetchJobs (fun _ => Resolved (JString (js "{jobs: [{id: 4012345, ti")))
            (fun _ => js "2026-01-01T00:00:00.000Z")
            (new_GreenhouseScraper (js "acme")) [] = Ok [] /\
  fetchJobs (fun _ => Resolved (JObject [(js "error", JString (js "upstream unavailable"))]))
            (fun _ => js "2026-01-01T00:00:00.000Z")
            (new_GreenhouseScraper (js "acme")) [] = Ok [].
Proof. split; vm_compute; reflexivity. Qed.

(** C7 (amended).  When the transport rejects the listing request with an
    error object, [fetchJobs] throws: for status 404 a new error whose
    message quotes the scraper's tenant identifier, the one in the URL of
    the request; for anything else the very value the transport rejected
    with.  When the transport resolves, [fetchJobs] does not check the
    body: it never throws the not-found error or a rejection then, only a
    TypeError, and a body without an array of jobs gives the empty list
    unless it is [undefined] or [null] or its [jobs] is truthy, which
    give a TypeError. *)
Theorem C7_not_found_and_propagation
        (axios_get : Request -> AxiosOutcome) (clock : nat -> jsstring)
        (this : GreenhouseScraper) (filters : list (jsstring * jsval)) :
  (forall error,
     axios_get (listing_request this filters) = Rejected error ->
     nullish error = false ->
     fetchJobs axios_get clock this filters =
       Throw (if is_not_found error then UserError (not_found_message this)
              else Rejection error)) /\
  quoted_token (not_found_message this) = companyToken this /\
  url (listing_request this filters) =
    baseUrl this ++ js "/" ++ companyToken this ++ js "/jobs" /\
  (forall data,
     axios_get (listing_request this filters) = Resolved data ->
     only_TypeError (fetchJobs axios_get clock this filters) /\
     (is_array (optGet data (js "jobs")) = false ->
      fetchJobs axios_get clock this filters =
      if negb (nullish data) && negb (truthy (optGet data (js "jobs")))
      then Ok [] else Throw TypeError)).
Proof.
  split; [intros error H N; now apply fetchJobs_rejected|].
  split; [apply quoted_token_message|]. split; [reflexivity|].
  intros data H. split.
  - now apply (fetchJobs_resolved_throws _ _ _ _ data).
  - now apply fetchJobs_no_array.
Qed.

(** The theorem at a 404 response, at a timeout and at a body whose
    [jobs] is a text. *)
Lemma C7_witness :
  fetchJobs (fun _ => Rejected (JObject [(js "message", JString (js "Request failed with status code 404"));
                                         (js "response", JObject [(js "status", JNumber 404)])]))
            (fun _ => js "2026-01-01T00:00:00.000Z")
            (new_GreenhouseScraper (js "acme")) [] =
  Throw (UserError (js "Company token " ++ [dquote] ++ js "acme" ++ [dquote]
                       ++ js " not found in Greenhouse")) /\
  fetchJobs (fun _ => Rejected (JObject [(js "message", JString (js "timeout of 15000ms exceeded"));
                                         (js "code", JString (js "ECONNABORTED"))]))
            (fun _ => js "2026-01-01T00:00:00.000Z")
            (new_GreenhouseScraper (js "acme")) [] =
  Throw (Rejection (JObject [(js "message", JString (js "timeout of 15000ms exceeded"));
                             (js "code", JString (js "ECONNABORTED"))])) /\
  fetchJobs (fun _ => Resolved (JObject [(js "jobs", JString (js "none"))]))
            (fun _ => js "2026-01-01T00:00:00.000Z")
            (new_GreenhouseScraper (js "acme")) [] =
  Throw TypeError.
Proof.
  split; [|split].
  - apply (proj1 (C7_not_found_and_propagation
             (fun _ => Rejected (JObject [(js "message", JString (js "Request failed with status code 404"));
                                          (js "response", JObject [(js "status", JNumber 404)])]))
             (fun _ => js "2026-01-01T00:00:00.000Z")
             (new_GreenhouseScraper (js "acme")) []) _ eq_refl eq_refl).
  - apply (proj1 (C7_not_found_and_propagation
             (fun _ => Rejected (JObject [(js "message", JString (js "timeout of 15000ms exceeded"));
                                          (js "code", JString (js "ECONNABORTED"))]))
             (fun _ => js "2026-01-01T00:00:00.000Z")
             (new_GreenhouseScraper (js "acme")) []) _ eq_refl eq_refl).
  - apply (proj2 (proj2 (proj2 (proj2 (C7_not_found_and_propagation
             (fun _ => Resolved (JObject [(js "jobs", JString (js "none"))]))
             (fun _ => js "2026-01-01T00:00:00.000Z")
             (new_GreenhouseScraper (js "acme")) []))) _ eq_refl) eq_refl).
Defined.

(** C8.  When the body of the listing response is an object whose [jobs]
    is an empty array, missing or [null], [fetchJobs] returns the empty
    list, and the keyword filter maps the empty list to the empty list for
    any keywords. *)
Theorem C8_empty_listing
        (axios_get : Request -> AxiosOutcome) (clock : nat -> jsstring)
        (this : GreenhouseScraper) (filters : list (jsstring * jsval))
        (props : list (jsstring * jsval)) :
  axios_get (listing_request this filters) = Resolved (JObject props) ->
  lookup (js "jobs") props = JArray [] \/
  lookup (js "jobs") props = JUndefined \/
  lookup (js "jobs") props = JNull ->
  fetchJobs axios_get clock this filters = Ok [] /\
  forall keywords, filterByKeywords [] keywords = Ok [].
Proof.
  intros H J. split.
  - unfold fetchJobs. rewrite H. cbn [get bind].
    destruct J as [->|[->| ->]]; reflexivity.
  - intros [[|kw kws]|]; try reflexivity.
    now rewrite filterByKeywords_cons.
Qed.

(** The theorem at a body whose [jobs] is [null]. *)
Lemma C8_witness :
  fetchJobs (fun _ => Resolved (JObject [(js "jobs", JNull); (js "meta", JObject [])]))
            (fun _ => js "2026-01-01T00:00:00.000Z")
            (new_GreenhouseScraper (js "acme")) [] = Ok [] /\
  forall keywords, filterByKeywords [] keywords = Ok [].
Proof.
  apply (C8_empty_listing
           (fun _ => Resolved (JObject [(js "jobs", JNull); (js "meta", JObject [])]))
           (fun _ => js "2026-01-01T00:00:00.000Z")
           (new_GreenhouseScraper (js "acme")) []
           [(js "jobs", JNull); (js "meta", JObject [])] eq_refl).
  right. right. reflexivity.
Defined.

(* ================================================================== *)
(** ** Further properties of the program *)
(* ================================================================== *)

(** *** [normalizeJob] *)

(** X1.  [normalizeJob] returns exactly when the record is neither
    [undefined] nor [null], its [id] is absent or can be converted to a
    string, and [departments] and [offices] are each absent or an array
    without [undefined] and [null] elements; every other input makes it
    throw, and what it throws is a TypeError.  A record that is an object
    always has a convertible [id] unless that is an object with a
    [toString] property of its own (or an array holding one). *)
Theorem X1_normalizeJob_returns_or_TypeError
        (this : GreenhouseScraper) (now : jsstring) (job : jsval) :
  is_ok (normalizeJob this now job) =
    negb (nullish job)
    && (nullish (optGet job (js "id")) || printable (optGet job (js "id")))
    && names_ok (optGet job (js "departments"))
    && names_ok (optGet job (js "offices")) /\
  only_TypeError (normalizeJob this now job) /\
  (forall n, printable (JNumber n) = true) /\
  (forall s, printable (JString s) = true) /\
  (forall props, printable (JObject props) = negb (has_own (js "toString") props)).
Proof.
  split; [apply normalizeJob_is_ok|].
  split; [apply normalizeJob_throws|].
  repeat split. intros props. unfold printable. cbn [ToString].
  now destruct (has_own (js "toString") props).
Qed.

(** X2.  Whatever the record, a job [normalizeJob] returns has equal
    [applyUrl] and [absoluteUrl], equal [htmlContent] and [content], the
    scraper's token, the tag [greenhouse] and the time of the call; its
    [departments] and [offices] are the [name] of each element of the
    input arrays, in their order, one per element. *)
Theorem X2_normalizeJob_field_relations
        (this : GreenhouseScraper) (now : jsstring) (job : jsval)
        (nj : NormalizedJob) :
  normalizeJob this now job = Ok nj ->
  Job.applyUrl nj = Job.absoluteUrl nj /\
  Job.htmlContent nj = Job.content nj /\
  Job.companyToken nj = companyToken this /\
  Job.source nj = js "greenhouse" /\
  Job.scrapedAt nj = now /\
  (forall elems, optGet job (js "departments") = JArray elems ->
     Job.departments nj = JArray (map (fun d => optGet d (js "name")) elems)) /\
  (forall elems, optGet job (js "offices") = JArray elems ->
     Job.offices nj = JArray (map (fun o => optGet o (js "name")) elems)).
Proof.
  intros H. apply normalizeJob_inv in H.
  destruct H as (ext & dn & ofn & _ & Hd & Ho & ->).
  cbn [Job.applyUrl Job.absoluteUrl Job.htmlContent Job.content
       Job.companyToken Job.source Job.scrapedAt Job.departments Job.offices].
  repeat split.
  - intros elems E. rewrite E, map_names_spec in Hd.
    destruct (forallb _ elems); [|discriminate]. now injection Hd as <-.
  - intros elems E. rewrite E, map_names_spec in Ho.
    destruct (forallb _ elems); [|discriminate]. now injection Ho as <-.
Qed.

(** The theorem at a record with two departments, one of them without a
    name. *)
Lemma X2_witness :
  exists nj,
    normalizeJob (new_GreenhouseScraper (js "acme")) (js "2026-01-01T00:00:00.000Z")
                 two_departments = Ok nj /\
    Job.applyUrl nj = Job.absoluteUrl nj /\
    Job.departments nj = JArray [JString (js "Design"); JUndefined].
Proof.
  pose proof (X2_normalizeJob_field_relations
                (new_GreenhouseScraper (js "acme")) (js "2026-01-01T00:00:00.000Z")
                two_departments) as T.
  destruct (normalizeJob (new_GreenhouseScraper (js "acme"))
                         (js "2026-01-01T00:00:00.000Z") two_departments)
    as [nj|e] eqn:E; [|vm_compute in E; discriminate].
  exists nj. split; [reflexivity|].
  destruct (T nj eq_refl) as (A & _ & _ & _ & _ & D & _).
  split; [exact A|].
  exact (D [JObject [(js "name", JString (js "Design"))]; JObject []] eq_refl).
Defined.

(** *** [fetchJobs] and [fetchJobDetails] *)

(** X3.  When the listing response carries an array of well-formed
    records, [fetchJobs] returns one job per record, in the order of the
    records: the [k]-th job is [normalizeJob] of the [k]-th record at the
    time of its turn, and every job carries the scraper's token and the tag
    [greenhouse]. *)
Theorem X3_fetchJobs_maps_the_listing
        (axios_get : Request -> AxiosOutcome) (clock : nat -> jsstring)
        (this : GreenhouseScraper) (filters : list (jsstring * jsval))
        (data : jsval) (records : list jsval) :
  axios_get (listing_request this filters) = Resolved data ->
  optGet data (js "jobs") = JArray records ->
  Forall (fun record => well_formed record = true) records ->
  exists jobs,
    fetchJobs axios_get clock this filters = Ok jobs /\
    length jobs = length records /\
    (forall k record,
       nth_error records k = Some record ->
       exists nj, nth_error jobs k = Some nj /\
                  normalizeJob this (clock k) record = Ok nj) /\
    Forall (fun nj => Job.companyToken nj = companyToken this /\
                      Job.source nj = js "greenhouse") jobs.
Proof.
  intros H J W.
  assert (N : nullish data = false) by (destruct data; try discriminate; reflexivity).
  rewrite (fetchJobs_resolved _ clock _ _ _ H), N, J. cbn [or_else truthy].
  pose proof (mapMi_is_ok (fun k job => normalizeJob this (clock k) job) records 0) as Hok.
  destruct (mapMi (fun k job => normalizeJob this (clock k) job) 0 records)
    as [jobs|e] eqn:M.
  - exists jobs. split; [reflexivity|].
    destruct (mapMi_inv _ _ _ _ M) as [Hl Hn].
    split; [exact Hl|]. split; [exact Hn|].
    apply Forall_forall. intros nj Hin.
    apply In_nth_error in Hin. destruct Hin as [k Hk].
    assert (Hlt : k < length records).
    { rewrite <- Hl. apply nth_error_Some. unfold NormalizedJob in *. congruence. }
    destruct (nth_error records k) as [record|] eqn:R;
      [|apply nth_error_None in R; lia].
    destruct (Hn k record R) as (nj' & Hnj' & F).
    unfold NormalizedJob in *. rewrite Hk in Hnj'.
    injection Hnj' as <-. cbn [Nat.add] in F.
    apply normalizeJob_inv in F. destruct F as (? & ? & ? & _ & _ & _ & ->).
    now split.
  - exfalso. assert (T : is_ok (@Throw (list NormalizedJob) e) = true).
    { apply Hok. intros k x Hx. apply well_formed_normalizable.
      rewrite Forall_forall in W. now apply W. }
    discriminate.
Qed.

(** The theorem at a listing of two records. *)
Lemma X3_witness :
  exists jobs,
    fetchJobs (fun _ => Resolved sample_listing) sample_clock
              (new_GreenhouseScraper (js "acme")) [] = Ok jobs /\
    length jobs = 2 /\
    map Job.scrapedAt jobs =
      [js "2026-01-01T00:00:00.000Z"; js "2026-01-01T00:00:01.000Z"].
Proof.
  destruct (X3_fetchJobs_maps_the_listing
              (fun _ => Resolved sample_listing) sample_clock
              (new_GreenhouseScraper (js "acme")) [] sample_listing
              [ sample_record;
                JObject [(js "id", JString (js "77"));
                         (js "title", JString (js "UI Designer"));
                         (js "location", JObject [(js "name", JString (js "Berlin"))])] ]
              eq_refl eq_refl)
    as (jobs & Hj & Hl & _).
  - repeat constructor.
  - exists jobs. split; [exact Hj|]. split; [exact Hl|].
    vm_compute in Hj. injection Hj as <-. reflexivity.
Defined.

(** X4.  When the transport resolves, [fetchJobs] never ends in the
    not-found error or in a rejection: it returns or throws a TypeError.
    It throws one for a body that is [undefined] or [null] and for a
    truthy [jobs] that is not an array; for any other body whose [jobs] is
    falsy (missing, [null], [false], [0] or the empty string; a body that
    is a string has no [jobs]) it returns the empty list. *)
Theorem X4_fetchJobs_on_a_response
        (axios_get : Request -> AxiosOutcome) (clock : nat -> jsstring)
        (this : GreenhouseScraper) (filters : list (jsstring * jsval))
        (data : jsval) :
  axios_get (listing_request this filters) = Resolved data ->
  only_TypeError (fetchJobs axios_get clock this filters) /\
  (nullish data = true ->
   fetchJobs axios_get clock this filters = Throw TypeError) /\
  (truthy (optGet data (js "jobs")) = true ->
   is_array (optGet data (js "jobs")) = false ->
   fetchJobs axios_get clock this filters = Throw TypeError) /\
  (nullish data = false ->
   truthy (optGet data (js "jobs")) = false ->
   fetchJobs axios_get clock this filters = Ok []).
Proof.
  intros H. rewrite (fetchJobs_resolved _ clock _ _ _ H).
  split.
  { destruct (nullish data); [intros e [= <-]; reflexivity|].
    destruct (or_else (optGet data (js "jobs")) (JArray []));
      try (intros e [= <-]; reflexivity).
    apply mapMi_throws. intros k x. apply normalizeJob_throws. }
  split; [intros ->; reflexivity|].
  split.
  - intros T A. destruct (nullish data) eqn:N; [reflexivity|].
    unfold or_else. rewrite T.
    destruct (optGet data (js "jobs")); try discriminate; reflexivity.
  - intros -> T. unfold or_else. rewrite T. reflexivity.
Qed.

(** The theorem at a body that is a string, as a body that could not be
    parsed is delivered. *)
Lemma X4_witness :
  fetchJobs (fun _ => Resolved (JString (js "<html>Bad Gateway</html>")))
            sample_clock (new_GreenhouseScraper (js "acme")) [] = Ok [].
Proof.
  apply (X4_fetchJobs_on_a_response
           (fun _ => Resolved (JString (js "<html>Bad Gateway</html>")))
           sample_clock (new_GreenhouseScraper (js "acme")) []
           (JString (js "<html>Bad Gateway</html>")) eq_refl); reflexivity.
Defined.

(** X5.  The listing request goes to [baseUrl/companyToken/jobs] with a
    timeout of 15000 and the [User-Agent] header.  Its parameters are
    [content = "true"] overlaid with the caller's filters: a parameter has
    the value the filters give it (the last one, if given twice), a
    [content] the filters do not mention is ["true"], and nothing else is
    sent. *)
Theorem X5_listing_request_parameters
        (this : GreenhouseScraper) (filters : list (jsstring * jsval)) :
  url (listing_request this filters) =
    baseUrl this ++ js "/" ++ companyToken this ++ js "/jobs" /\
  timeout (listing_request this filters) = 15000%Z /\
  headers (listing_request this filters) =
    [(js "User-Agent", JString (js "JobScraper/1.0"))] /\
  forall k,
    lookup k (params (listing_request this filters)) =
    match last_value k filters with
    | Some v => v
    | None => if str_eqb k (js "content") then JString (js "true") else JUndefined
    end.
Proof.
  repeat split. intros k. cbn [listing_request params].
  now rewrite lookup_spread.
Qed.

(** X6.  [fetchJobDetails] asks [baseUrl/companyToken/jobs/jobId] for the
    questions with a timeout of 10000, returns [normalizeJob] of the body
    (or throws its TypeError), and throws a rejection again as it is, a
    404 included: it has no not-found error of its own. *)
Theorem X6_fetchJobDetails_propagates
        (axios_get : Request -> AxiosOutcome) (now : jsstring)
        (this : GreenhouseScraper) (jobId : jsstring) :
  url (details_request this jobId) =
    baseUrl this ++ js "/" ++ companyToken this ++ js "/jobs/" ++ jobId /\
  params (details_request this jobId) = [(js "questions", JString (js "true"))] /\
  timeout (details_request this jobId) = 10000%Z /\
  (forall data,
     axios_get (details_request this jobId) = Resolved data ->
     fetchJobDetails axios_get now this jobId = normalizeJob this now data) /\
  (forall error,
     axios_get (details_request this jobId) = Rejected error ->
     fetchJobDetails axios_get now this jobId =
     Throw (if nullish error then TypeError else Rejection error)).
Proof.
  repeat split.
  - intros data H. unfold fetchJobDetails. fold (details_request this jobId).
    rewrite H. pose proof (normalizeJob_throws this now data) as T.
    destruct (normalizeJob this now data) as [nj|e]; [reflexivity|].
    now rewrite (T e eq_refl).
  - intros error H. unfold fetchJobDetails. fold (details_request this jobId).
    rewrite H. cbn [thrown_get].
    destruct error; reflexivity.
Qed.

(** The theorem at a 404 rejection. *)
Lemma X6_witness :
  fetchJobDetails
    (fun _ => Rejected (JObject [(js "message", JString (js "Request failed with status code 404"));
                                 (js "response", JObject [(js "status", JNumber 404)])]))
    (js "2026-01-01T00:00:00.000Z") (new_GreenhouseScraper (js "acme")) (js "4012345") =
  Throw (Rejection (JObject [(js "message", JString (js "Request failed with status code 404"));
                             (js "response", JObject [(js "status", JNumber 404)])])).
Proof.
  apply (proj2 (proj2 (proj2 (proj2
           (X6_fetchJobDetails_propagates
              (fun _ => Rejected (JObject [(js "message", JString (js "Request failed with status code 404"));
                                           (js "response", JObject [(js "status", JNumber 404)])]))
              (js "2026-01-01T00:00:00.000Z") (new_GreenhouseScraper (js "acme"))
              (js "4012345"))))) _ eq_refl).
Defined.

(** *** The sanitizer and the escaping of keywords *)

(** X7.  On every string [decodeHtml] returns a text that has no tag left
    (no [<] with a [>] after it), whose white space is single spaces
    between other characters only, with none at either end, and that is
    not longer than the input. *)
Theorem X7_decodeHtml_output_shape (s : jsstring) :
  exists t,
    decodeHtml (JString s) = Ok t /\
    tagless t /\ spaced t = true /\ trim t = t /\ length t <= length s.
Proof.
  exists (sanitize s). rewrite decodeHtml_string.
  split; [reflexivity|]. split; [apply sanitize_tagless|].
  split; [apply sanitize_spaced|]. split; [apply sanitize_trimmed|].
  apply sanitize_length.
Qed.

(** X8.  [decodeHtml] gives back unchanged every text without [&] and
    [<] whose white space is single spaces between other characters. *)
Theorem X8_plain_text_unchanged (t : jsstring) :
  plain t = true -> decodeHtml (JString t) = Ok t.
Proof. intros H. rewrite decodeHtml_string. f_equal. now apply plain_fixed. Qed.

(** The theorem at a line of plain text. *)
Lemma X8_witness :
  plain (js "Senior C++ developer, UI team > 5 years") = true /\
  decodeHtml (JString (js "Senior C++ developer, UI team > 5 years")) =
    Ok (js "Senior C++ developer, UI team > 5 years").
Proof.
  split; [vm_compute; reflexivity|].
  apply X8_plain_text_unchanged. vm_compute; reflexivity.
Defined.

(** X9.  The escaping of a keyword loses nothing: dropping the added
    backslashes gives the keyword back, so different keywords have
    different escaped texts; the escaped text is at most twice as long,
    and a keyword without metacharacters is left as it is. *)
Theorem X9_escapeKeyword_round_trip (kw : jsstring) :
  unescape (escapeKeyword kw) = kw /\
  length kw <= length (escapeKeyword kw) <= 2 * length kw /\
  (forallb (fun c => negb (is_meta c)) kw = true -> escapeKeyword kw = kw) /\
  (forall kw', escapeKeyword kw = escapeKeyword kw' -> kw = kw').
Proof.
  rewrite escapeKeyword_escaped.
  split; [apply unescape_escaped|]. split; [apply escaped_length|].
  split; [apply escaped_clean|].
  intros kw' H. rewrite escapeKeyword_escaped in H.
  rewrite <- (unescape_escaped kw), <- (unescape_escaped kw'). now rewrite H.
Qed.

(** The theorem at a keyword without metacharacters and at one with
    several. *)
Lemma X9_witness :
  escapeKeyword (js "node") = js "node" /\
  unescape (escapeKeyword (js "c++ (.net)")) = js "c++ (.net)".
Proof.
  split.
  - apply (proj1 (proj2 (proj2 (X9_escapeKeyword_round_trip (js "node"))))).
    vm_compute; reflexivity.
  - apply (proj1 (X9_escapeKeyword_round_trip (js "c++ (.net)"))).
Defined.

(** *** The keyword filter *)

(** X10.  Whatever the keywords, the jobs [filterByKeywords] returns are
    jobs of its input, not more than these, and filtering them again with
    the same keywords returns them all. *)
Theorem X10_filter_keeps_a_part
        (jobs : list NormalizedJob) (keywords : option (list jsstring))
        (r : list NormalizedJob) :
  filterByKeywords jobs keywords = Ok r ->
  (forall job, In job r -> In job jobs) /\
  length r <= length jobs /\
  filterByKeywords r keywords = Ok r.
Proof. apply filterByKeywords_sub. Qed.

(** The theorem at three jobs and the keyword [ui]. *)
Lemma X10_witness :
  filterByKeywords [react_job; accountant_job; designer_job] (Some [js "ui"]) =
    Ok [designer_job] /\
  filterByKeywords [designer_job] (Some [js "ui"]) = Ok [designer_job].
Proof.
  assert (E : filterByKeywords [react_job; accountant_job; designer_job]
                               (Some [js "ui"]) = Ok [designer_job])
    by (vm_compute; reflexivity).
  split; [exact E|].
  exact (proj2 (proj2 (X10_filter_keeps_a_part _ _ _ E))).
Defined.

(** X11.  Only the set of keywords counts: two keyword lists with the
    same members, in any order and with any repetitions, give the same
    result (the same jobs, or the same error). *)
Theorem X11_keywords_as_a_set
        (jobs : list NormalizedJob) (kws kws' : list jsstring) :
  (forall k, In k kws <-> In k kws') ->
  filterByKeywords jobs (Some kws) = filterByKeywords jobs (Some kws').
Proof.
  intros H. destruct kws as [|k1 kws], kws' as [|k2 kws'].
  - reflexivity.
  - destruct (proj2 (H k2) (or_introl eq_refl)).
  - destruct (proj1 (H k1) (or_introl eq_refl)).
  - apply filterByKeywords_by_words; try discriminate.
    intros text. split.
    + apply (whole_word_related eq); [now intros k k' occ <-|].
      intros k Hin. exists k. split; [now apply H | reflexivity].
    + apply (whole_word_related eq); [now intros k k' occ <-|].
      intros k Hin. exists k. split; [now apply H | reflexivity].
Qed.

(** The theorem at two lists of the same two keywords. *)
Lemma X11_witness :
  filterByKeywords [react_job; accountant_job; designer_job]
                   (Some [js "ui"; js "react"]) =
  filterByKeywords [react_job; accountant_job; designer_job]
                   (Some [js "react"; js "ui"; js "react"]).
Proof.
  apply X11_keywords_as_a_set. intros k. simpl. tauto.
Defined.

(** X12.  A job is among those returned for a non-empty keyword list
    exactly when it is a job of the input that the filter keeps for one
    of the keywords alone. *)
Theorem X12_any_keyword_selects
        (jobs : list NormalizedJob) (kws : list jsstring)
        (r : list NormalizedJob) :
  kws <> [] ->
  filterByKeywords jobs (Some kws) = Ok r ->
  forall job,
    In job r <->
    In job jobs /\
    exists k, In k kws /\ filterByKeywords [job] (Some [k]) = Ok [job].
Proof.
  intros Hk H job. destruct kws as [|kw kws]; [contradiction|].
  apply filterByKeywords_Ok in H. subst r.
  rewrite filter_In, (selected_any (kw :: kws) job Hk).
  split; intros [Hin (k & Hkin & S)]; (split; [exact Hin|]); exists k;
    (split; [exact Hkin|]); now apply selected_single.
Qed.

(** The theorem at three jobs, two keywords and the job of the designer. *)
Lemma X12_witness :
  In designer_job [react_job; designer_job] <->
  In designer_job [react_job; accountant_job; designer_job] /\
  exists k, In k [js "ui"; js "react"] /\
            filterByKeywords [designer_job] (Some [k]) = Ok [designer_job].
Proof.
  assert (E : filterByKeywords [react_job; accountant_job; designer_job]
                               (Some [js "ui"; js "react"]) =
              Ok [react_job; designer_job])
    by (vm_compute; reflexivity).
  assert (N : [js "ui"; js "react"] <> []) by discriminate.
  exact (X12_any_keyword_selects _ _ _ N E designer_job).
Defined.

(** X13.  The case of the letters of the keywords does not matter: two
    keyword lists that differ in it at most give the same result. *)
Theorem X13_keyword_case_is_irrelevant
        (jobs : list NormalizedJob) (kws kws' : list jsstring) :
  Forall2 same_letters kws kws' ->
  filterByKeywords jobs (Some kws) = filterByKeywords jobs (Some kws').
Proof.
  intros F. pose proof (fun text => same_letters_words kws kws' text F) as W.
  destruct F as [|k k' kws kws' _ _]; [reflexivity|].
  apply filterByKeywords_by_words; try discriminate. exact W.
Qed.

(** The theorem at the keywords [React] and [UI]. *)
Lemma X13_witness :
  filterByKeywords [react_job; accountant_job; designer_job]
                   (Some [js "React"; js "UI"]) =
  filterByKeywords [react_job; accountant_job; designer_job]
                   (Some [js "react"; js "ui"]).
Proof.
  apply X13_keyword_case_is_irrelevant.
  repeat constructor; vm_compute; reflexivity.
Defined.

(** X14.  An empty keyword in the list makes the filter keep every job
    whose searched text has a letter, a digit or an underscore, whatever
    the other keywords, and no other job. *)
Theorem X14_empty_keyword
        (jobs : list NormalizedJob) (kws : list jsstring)
        (r : list NormalizedJob) :
  In [] kws ->
  filterByKeywords jobs (Some kws) = Ok r ->
  forall job,
    In job r <->
    In job jobs /\
    exists text, searchText job = Ok text /\ existsb is_word text = true.
Proof.
  intros Hin H job. destruct kws as [|kw kws]; [contradiction|].
  apply filterByKeywords_Ok in H. subst r. rewrite filter_In.
  unfold selected. destruct (searchText job) as [text|e].
  - rewrite (test_with_empty_keyword _ text Hin). split.
    + intros [Hj T]. split; [exact Hj|]. now exists text.
    + intros [Hj (t & [= <-] & T)]. now split.
  - split; [now intros [_ T]|]. now intros [_ (t & T & _)].
Qed.

(** The theorem at the keywords [zzz] and the empty one. *)
Lemma X14_witness :
  In accountant_job [accountant_job] <->
  In accountant_job [accountant_job; dashes_job] /\
  exists text, searchText accountant_job = Ok text /\
               existsb is_word text = true.
Proof.
  assert (E : filterByKeywords [accountant_job; dashes_job]
                               (Some [js "zzz"; []]) = Ok [accountant_job])
    by (vm_compute; reflexivity).
  assert (I : In [] [js "zzz"; []]) by (right; left; reflexivity).
  exact (X14_empty_keyword _ _ _ I E accountant_job).
Defined.

(** X15.  The listing and the filter fit together: when the response
    carries an array of well-formed records, [fetchJobs] returns and
    [filterByKeywords] returns on its jobs, with any keywords; neither
    throws. *)
Theorem X15_fetch_then_filter_returns
        (axios_get : Request -> AxiosOutcome) (clock : nat -> jsstring)
        (this : GreenhouseScraper) (filters : list (jsstring * jsval))
        (data : jsval) (records : list jsval)
        (keywords : option (list jsstring)) :
  axios_get (listing_request this filters) = Resolved data ->
  optGet data (js "jobs") = JArray records ->
  Forall (fun record => well_formed record = true) records ->
  exists jobs r,
    fetchJobs axios_get clock this filters = Ok jobs /\
    filterByKeywords jobs keywords = Ok r /\
    Forall (fun job => is_ok (searchText job) = true) jobs.
Proof.
  intros H J W.
  destruct (fetchJobs_well_formed axios_get clock this filters data records H J W)
    as (jobs & F & M).
  assert (S : Forall (fun job => is_ok (searchText job) = true) jobs).
  { apply Forall_forall. intros nj Hin.
    destruct (mapMi_In _ _ _ _ M nj Hin) as (k & x & Hx & N).
    rewrite Forall_forall in W.
    exact (well_formed_searchable this (clock k) x nj (W x Hx) N). }
  exists jobs. destruct keywords as [[|kw kws]|].
  - now exists jobs.
  - exists (filter (selected (kw :: kws)) jobs).
    split; [exact F|]. split; [now apply filterByKeywords_searchable | exact S].
  - now exists jobs.
Qed.

(** The theorem at a listing of two records and the keyword [ui]. *)
Lemma X15_witness :
  exists jobs r,
    fetchJobs (fun _ => Resolved sample_listing) sample_clock
              (new_GreenhouseScraper (js "acme")) [] = Ok jobs /\
    filterByKeywords jobs (Some [js "ui"]) = Ok r /\
    Forall (fun job => is_ok (searchText job) = true) jobs.
Proof.
  apply (X15_fetch_then_filter_returns
           (fun _ => Resolved sample_listing) sample_clock
           (new_GreenhouseScraper (js "acme")) [] sample_listing
           [ sample_record;
             JObject [(js "id", JString (js "77"));
                      (js "title", JString (js "UI Designer"));
                      (js "location", JObject [(js "name", JString (js "Berlin"))])] ]
           (Some [js "ui"]) eq_refl eq_refl).
  repeat constructor.
Defined.

(** *** From a careers page to the scrape of a company *)

(** X16.  The tenant identifier [parseGreenhouseUrl] finds is a string,
    never empty, without [/] and [?]; it stands in the URL right after the
    host text and ends where the URL ends or the next [/] or [?] stands. *)
Theorem X16_tenant_shape (page : jsstring) (t : Tenant.t) :
  parseGreenhouseUrl page = Some t ->
  exists seg a occ b,
    Tenant.companyToken t = JString seg /\
    seg <> [] /\ forallb seg_char seg = true /\
    page = a ++ occ ++ seg ++ b /\
    same_text true (js "greenhouse.io/") occ /\
    match b with [] => True | c :: _ => seg_char c = false end.
Proof.
  rewrite parseGreenhouseUrl_find.
  destruct (find_tenant true (js "greenhouse.io/") page) as [seg|] eqn:F;
    [|discriminate].
  intros [= <-]. apply find_tenant_shape in F.
  destruct F as (N & A & a & occ & b & E & S & B).
  exists seg, a, occ, b. cbn [Tenant.companyToken]. now repeat split.
Qed.

(** The theorem at the address of a job page with a query. *)
Lemma X16_witness :
  exists seg a occ b,
    Tenant.companyToken (Tenant.Make (JString (js "acme")) (js "us")) = JString seg /\
    seg <> [] /\ forallb seg_char seg = true /\
    js "https://boards.greenhouse.io/acme?gh_src=x" = a ++ occ ++ seg ++ b /\
    same_text true (js "greenhouse.io/") occ /\
    match b with [] => True | c :: _ => seg_char c = false end.
Proof.
  assert (E : parseGreenhouseUrl (js "https://boards.greenhouse.io/acme?gh_src=x") =
              Some (Tenant.Make (JString (js "acme")) (js "us")))
    by (vm_compute; reflexivity).
  exact (X16_tenant_shape _ _ E).
Defined.

(** X17.  What follows the address after a [/] or a [?] does not change
    the tenant identifier: a URL that resolves still resolves, to the same
    identifier, with any path or query appended. *)
Theorem X17_path_and_query_are_ignored
        (page tail : jsstring) (c : N) (t : Tenant.t) :
  c = ch "/" \/ c = ch "?" ->
  parseGreenhouseUrl page = Some t ->
  exists t',
    parseGreenhouseUrl (page ++ c :: tail) = Some t' /\
    Tenant.companyToken t' = Tenant.companyToken t.
Proof.
  intros C. rewrite !parseGreenhouseUrl_find.
  destruct (find_tenant true (js "greenhouse.io/") page) as [seg|] eqn:F;
    [|discriminate].
  intros [= <-].
  assert (S : seg_char c = false) by (destruct C as [-> | ->]; reflexivity).
  rewrite (find_tenant_append true _ c tail page seg S F).
  eexists. split; reflexivity.
Qed.

(** The theorem at a board address and the path of one of its jobs. *)
Lemma X17_witness :
  exists t',
    parseGreenhouseUrl (js "https://boards.greenhouse.io/acme" ++ ch "/" :: js "jobs/4012345") =
      Some t' /\
    Tenant.companyToken t' =
      Tenant.companyToken (Tenant.Make (JString (js "acme")) (js "us")).
Proof.
  assert (E : parseGreenhouseUrl (js "https://boards.greenhouse.io/acme") =
              Some (Tenant.Make (JString (js "acme")) (js "us")))
    by (vm_compute; reflexivity).
  exact (X17_path_and_query_are_ignored _ (js "jobs/4012345") (ch "/") _
           (or_introl eq_refl) E).
Defined.

(** X18.  [createScraperFromUrl] returns exactly when the URL resolves.
    The scraper it returns has the tenant identifier of the URL and the
    one API root, whatever the region, so that its listing request goes to
    [api_root/identifier/jobs] and two URLs with the same identifier give
    the same scraper; when the URL does not resolve, the error carries
    the URL. *)
Theorem X18_scraper_from_url (page : jsstring) :
  (is_ok (createScraperFromUrl page) = true <-> parseGreenhouseUrl page <> None) /\
  (forall scraper,
     createScraperFromUrl page = Ok scraper ->
     find_tenant true (js "greenhouse.io/") page = Some (companyToken scraper) /\
     baseUrl scraper = api_root /\
     forall filters,
       url (listing_request scraper filters) =
       api_root ++ js "/" ++ companyToken scraper ++ js "/jobs") /\
  (forall e,
     createScraperFromUrl page = Throw e ->
     parseGreenhouseUrl page = None /\ e = UserError (unparsed_message page)) /\
  (forall page' t t',
     parseGreenhouseUrl page = Some t ->
     parseGreenhouseUrl page' = Some t' ->
     Tenant.companyToken t = Tenant.companyToken t' ->
     createScraperFromUrl page = createScraperFromUrl page').
Proof.
  split; [|split; [|split]].
  - rewrite createScraperFromUrl_find, parseGreenhouseUrl_find.
    destruct (find_tenant true (js "greenhouse.io/") page); cbn [is_ok option_map].
    + split; [discriminate | reflexivity].
    + split; [discriminate | intros H; now elim H].
  - intros scraper. rewrite createScraperFromUrl_find.
    destruct (find_tenant true (js "greenhouse.io/") page); [|discriminate].
    intros [= <-]. cbn [companyToken baseUrl listing_request url].
    repeat split.
  - intros e. rewrite createScraperFromUrl_find, parseGreenhouseUrl_find.
    destruct (find_tenant true (js "greenhouse.io/") page); [discriminate|].
    intros [= <-]. now split.
  - intros page' t t'. rewrite !createScraperFromUrl_find, !parseGreenhouseUrl_find.
    destruct (find_tenant true (js "greenhouse.io/") page); [|discriminate].
    destruct (find_tenant true (js "greenhouse.io/") page'); [|discriminate].
    intros [= <-] [= <-]. cbn [Tenant.companyToken]. now intros [= ->].
Qed.

(** The theorem at the addresses of one tenant in the two regions. *)
Lemma X18_witness :
  createScraperFromUrl (js "https://job-boards.eu.greenhouse.io/groww") =
  createScraperFromUrl (js "https://boards.greenhouse.io/groww").
Proof.
  assert (E1 : parseGreenhouseUrl (js "https://job-boards.eu.greenhouse.io/groww") =
               Some (Tenant.Make (JString (js "groww")) (js "eu")))
    by (vm_compute; reflexivity).
  assert (E2 : parseGreenhouseUrl (js "https://boards.greenhouse.io/groww") =
               Some (Tenant.Make (JString (js "groww")) (js "us")))
    by (vm_compute; reflexivity).
  exact (proj2 (proj2 (proj2 (X18_scraper_from_url _))) _ _ _ E1 E2 eq_refl).
Defined.

(** X19.  What [scrapeCompany] returns is consistent: the two totals are
    the lengths of the two lists, the matched jobs are jobs of the
    listing and not more than these, and the lists are what [fetchJobs]
    of the scraper made from the careers page and [filterByKeywords] with
    the company's keywords return, also for the empty listing, where the
    filter is not called; every job carries the tenant identifier of the
    careers page. *)
Theorem X19_scrapeCompany_result
        (axios_get : Request -> AxiosOutcome) (clock : nat -> jsstring)
        (company : Company.t) (scraped : Scraped.t) :
  scrapeCompany axios_get clock company = Ok scraped ->
  Scraped.totalJobs scraped = length (Scraped.jobs scraped) /\
  Scraped.totalMatchedJobs scraped = length (Scraped.matchedJobs scraped) /\
  Scraped.totalMatchedJobs scraped <= Scraped.totalJobs scraped /\
  (forall job, In job (Scraped.matchedJobs scraped) -> In job (Scraped.jobs scraped)) /\
  exists scraper,
    createScraperFromUrl (Company.companyCareersPage company) = Ok scraper /\
    fetchJobs axios_get clock scraper [] = Ok (Scraped.jobs scraped) /\
    filterByKeywords (Scraped.jobs scraped) (Company.keywords company) =
      Ok (Scraped.matchedJobs scraped) /\
    Forall (fun job => Job.companyToken job = companyToken scraper)
           (Scraped.jobs scraped).
Proof.
  unfold scrapeCompany.
  destruct (createScraperFromUrl (Company.companyCareersPage company))
    as [scraper|e] eqn:C; [|discriminate]. cbn [bind].
  destruct (fetchJobs axios_get clock scraper []) as [jobList|e] eqn:F;
    [|discriminate]. cbn [bind].
  pose proof (fetchJobs_tokens _ _ _ _ _ F) as T.
  destruct jobList as [|job jobList].
  - intros [= <-]. cbn [Scraped.totalJobs Scraped.jobs Scraped.totalMatchedJobs
                        Scraped.matchedJobs length].
    repeat split; try lia; try contradiction.
    exists scraper. split; [reflexivity|]. split; [exact F|].
    split; [|exact T].
    destruct (Company.keywords company) as [[|kw kws]|]; try reflexivity.
    now rewrite filterByKeywords_cons.
  - destruct (filterByKeywords (job :: jobList) (Company.keywords company))
      as [filterdJobs|e] eqn:K; [|discriminate]. cbn [bind].
    intros [= <-]. cbn [Scraped.totalJobs Scraped.jobs Scraped.totalMatchedJobs
                        Scraped.matchedJobs].
    destruct (filterByKeywords_sub _ _ _ K) as (Hsub & Hlen & _).
    repeat split; try assumption.
    exists scraper. now repeat split.
Qed.

(** The theorem at the company of [main] and a listing of two records. *)
Lemma X19_witness :
  exists scraped,
    scrapeCompany (fun _ => Resolved sample_listing) sample_clock groww = Ok scraped /\
    Scraped.totalJobs scraped = length (Scraped.jobs scraped) /\
    Scraped.totalMatchedJobs scraped <= Scraped.totalJobs scraped.
Proof.
  pose proof (X19_scrapeCompany_result (fun _ => Resolved sample_listing)
                                       sample_clock groww) as T.
  destruct (scrapeCompany (fun _ => Resolved sample_listing) sample_clock groww)
    as [scraped|e] eqn:E; [|vm_compute in E; discriminate].
  exists scraped. split; [reflexivity|].
  destruct (T scraped eq_refl) as (A & _ & B & _).
  split; [exact A | exact B].
Defined.

(** X20.  How [scrapeCompany] fails.  A careers page that does not
    resolve ends it with the error that carries the URL, whatever the
    transport would answer: no request is made.  A rejected listing
    request ends it with the not-found error, which quotes the tenant
    identifier of the careers page, when the status is 404, and with the
    rejection itself otherwise. *)
Theorem X20_scrapeCompany_failures
        (axios_get : Request -> AxiosOutcome) (clock : nat -> jsstring)
        (company : Company.t) :
  (parseGreenhouseUrl (Company.companyCareersPage company) = None ->
   scrapeCompany axios_get clock company =
   Throw (UserError (unparsed_message (Company.companyCareersPage company)))) /\
  (forall scraper error,
     createScraperFromUrl (Company.companyCareersPage company) = Ok scraper ->
     axios_get (listing_request scraper []) = Rejected error ->
     nullish error = false ->
     scrapeCompany axios_get clock company =
     Throw (if is_not_found error then UserError (not_found_message scraper)
            else Rejection error) /\
     find_tenant true (js "greenhouse.io/") (Company.companyCareersPage company) =
       Some (quoted_token (not_found_message scraper))).
Proof.
  split.
  - intros H. unfold scrapeCompany, createScraperFromUrl. rewrite H. reflexivity.
  - intros scraper error C A N. unfold scrapeCompany. rewrite C. cbn [bind].
    rewrite (fetchJobs_rejected _ clock _ _ _ A N). split; [reflexivity|].
    rewrite quoted_token_message.
    rewrite createScraperFromUrl_find in C.
    destruct (find_tenant true (js "greenhouse.io/") (Company.companyCareersPage company));
      [|discriminate].
    now injection C as <-.
Qed.

(** The theorem at a careers page on another site. *)
Lemma X20_witness :
  scrapeCompany (fun _ => Resolved sample_listing) sample_clock
                (Company.Make (js "Acme") (js "https://example.com/careers")
                              (js "greenhouse") None) =
  Throw (UserError (js "Could not parse Greenhouse URL: https://example.com/careers")).
Proof.
  apply (proj1 (X20_scrapeCompany_failures
                  (fun _ => Resolved sample_listing) sample_clock
                  (Company.Make (js "Acme") (js "https://example.com/careers")
                                (js "greenhouse") None))).
  vm_compute; reflexivity.
Defined.
